(** * Pintos kernel allocator and signals: a shallow embedding

    The development follows [threads/malloc.c], [threads/signal.c] and
    [threads/signal.h].  C integers are [Z] with the wrap-around of the
    32-bit [size_t] and of the 16-bit [sigset_t] written out; pointers are
    addresses in [Z] with [0] for [NULL]; the kernel heap is a byte map;
    the tables of threads and of [sigset_t] objects are finite maps.

    A C function that can stop the kernel (a failed [ASSERT], an access
    through a bad pointer, a division by zero) returns in the [result]
    monad below. *)

From Stdlib Require Import ZArith Lia List Bool.
From stdpp Require Import base option list gmap.

Local Open Scope Z_scope.

(** ** Outcomes of kernel code *)

Inductive error : Type :=
| AssertFailed   (* ASSERT (...) false: the kernel panics *)
| BadAccess      (* load or store through NULL, a dangling or an
                    out-of-bounds pointer *)
| DivByZero      (* [/] or [%] by zero *)
| OutOfFuel.     (* the model's bound on an unbounded loop was reached *)

Inductive result (A : Type) : Type :=
| Ret (a : A)
| Abort (e : error).
Arguments Ret {A} a.
Arguments Abort {A} e.

#[global] Instance result_ret : MRet result := fun A a => Ret a.
#[global] Instance result_bind : MBind result := fun A B f m =>
  match m with
  | Ret a => f a
  | Abort e => Abort e
  end.

Definition assert (b : bool) : result unit :=
  if b then Ret tt else Abort AssertFailed.

Definition from_option {A} (e : error) (o : option A) : result A :=
  match o with
  | Some a => Ret a
  | None => Abort e
  end.

(** ** Fixed-width integers *)

(** [size_t] and [unsigned] are 32 bits wide on the i386 target of Pintos;
    [sigset_t] is [unsigned short]. *)
Definition SIZE_MOD : Z := 2 ^ 32.
Definition SIZE_MAX : Z := SIZE_MOD - 1.
Definition wrap (x : Z) : Z := x mod SIZE_MOD.
Definition wrap16 (x : Z) : Z := x mod 2 ^ 16.

(** Conversion of an [unsigned] value to [int] (two's complement). *)
Definition to_int (x : Z) : Z :=
  if wrap x <? 2 ^ 31 then wrap x else wrap x - SIZE_MOD.

(** Unsigned division and remainder, which trap on a zero divisor. *)
Definition udiv (x y : Z) : result Z :=
  if y =? 0 then Abort DivByZero else Ret (x / y).
Definition umod (x y : Z) : result Z :=
  if y =? 0 then Abort DivByZero else Ret (x mod y).

(** * Signals ([threads/signal.h], [threads/signal.c]) *)

(** [enum sig_value], [enum how], [enum sig_handler]. *)
Definition SIG_CHLD : Z := 0.
Definition SIG_CPU : Z := 1.
Definition SIG_UBLOCK : Z := 2.
Definition SIG_USR : Z := 3.
Definition SIG_KILL : Z := 4.

Definition SIG_BLOCK : Z := 0.
Definition SIG_UNBLOCK : Z := 1.
Definition SIG_SETMASK : Z := 2.

Definition SIG_IGN : Z := 0.
Definition SIG_DFL : Z := 1.

(** [struct signal]: the list element is kept by the position of the
    record in the pending list. *)
Record signal : Type := mk_signal {
  signum : Z;
  sender : Z
}.

(** The part of [struct thread] that [signal.c] reads and writes.  The
    declaration lives in [threads/thread.h]; the fields are those the
    source dereferences.  [parent_thread] is a pointer, kept as the
    address of the parent's control block. *)
Inductive thread_status : Type :=
| THREAD_RUNNING | THREAD_READY | THREAD_BLOCKED | THREAD_DYING.

#[global] Instance thread_status_eq_dec : EqDecision thread_status.
Proof. solve_decision. Defined.

Record thread : Type := mk_thread {
  tid : Z;
  status : thread_status;
  sigmask : Z;
  pending_signals : list signal;
  parent_thread : Z
}.

(** The kernel state seen by [signal.c]: the thread control blocks by
    address, the address [thread_current ()] returns, the global
    [unblock_list] (the threads whose [unblock_elem] was appended, in
    order) and the [sigset_t] objects callers pass by pointer. *)
Record kernel : Type := mk_kernel {
  threads : gmap Z thread;
  running : Z;
  unblock_list : list Z;
  sigsets : gmap Z Z
}.

(** [*p] for a [struct thread *p]: a bad access when no control block
    lives at [p] (no control block lives at [NULL]). *)
Definition deref (k : kernel) (p : Z) : result thread :=
  from_option BadAccess (threads k !! p).

Definition thread_current (k : kernel) : result thread := deref k (running k).

Definition set_thread (k : kernel) (p : Z) (t : thread) : kernel :=
  {| threads := <[p := t]> (threads k);
     running := running k;
     unblock_list := unblock_list k;
     sigsets := sigsets k |}.

Definition set_sigmask (t : thread) (m : Z) : thread :=
  {| tid := tid t; status := status t; sigmask := wrap16 m;
     pending_signals := pending_signals t; parent_thread := parent_thread t |}.

Definition set_pending (t : thread) (l : list signal) : thread :=
  {| tid := tid t; status := status t; sigmask := sigmask t;
     pending_signals := l; parent_thread := parent_thread t |}.

(** Modelled from the spec: [list_push_back] ([lib/kernel/list.c]) is not
    among the sources followed here; the specification has [kill] "append
    it to the global unblock-request list".  [unblock_list] is the
    sequence of the control blocks passed to [list_push_back
    (&unblock_list, &t->unblock_elem)].  The link words of [unblock_elem],
    which live in the control blocks, are not part of [thread]: what the
    call writes into the element that was last, and what it makes of the
    links when the element pushed is still on the list, is outside the
    model, and no statement below about [SIG_UBLOCK] speaks of it. *)
Definition push_unblock (k : kernel) (p : Z) : kernel :=
  {| threads := threads k;
     running := running k;
     unblock_list := unblock_list k ++ [p];
     sigsets := sigsets k |}.

(** [*p] for a [sigset_t *p]: a load or store through [NULL] or through
    an address that holds no [sigset_t] object is a bad access. *)
Definition load_set (k : kernel) (p : Z) : result Z :=
  if p =? 0 then Abort BadAccess
  else from_option BadAccess (sigsets k !! p).

Definition store_set (k : kernel) (p : Z) (v : Z) : result kernel :=
  if p =? 0 then Abort BadAccess
  else
    match sigsets k !! p with
    | Some _ =>
        Ret {| threads := threads k;
               running := running k;
               unblock_list := unblock_list k;
               sigsets := <[p := wrap16 v]> (sigsets k) |}
    | None => Abort BadAccess
    end.

(** [signal_]: sets or clears the mask bit of the current thread. *)
Definition signal_ (k : kernel) (signum handler : Z) : result (kernel * Z) :=
  t ← thread_current k;
  let upd m := set_thread k (running k) (set_sigmask t m) in
  let k' :=
    if (signum =? 0) && (handler =? SIG_IGN) then upd (Z.lor (sigmask t) 1)
    else if (signum =? 0) && (handler =? SIG_DFL) then upd (Z.land (sigmask t) 14)
    else if (signum =? 1) && (handler =? SIG_IGN) then upd (Z.lor (sigmask t) 2)
    else if (signum =? 1) && (handler =? SIG_DFL) then upd (Z.land (sigmask t) 13)
    else if (signum =? 2) && (handler =? SIG_IGN) then upd (Z.lor (sigmask t) 4)
    else if (signum =? 2) && (handler =? SIG_DFL) then upd (Z.land (sigmask t) 11)
    else if (signum =? 3) && (handler =? SIG_IGN) then upd (Z.lor (sigmask t) 8)
    else if (signum =? 3) && (handler =? SIG_DFL) then upd (Z.land (sigmask t) 7)
    else k in
  Ret (k', 0).

(** The scan of [kill] over the pending list: the first record whose
    [signum] matches gets the new sender; [None] when no record matches. *)
Fixpoint overwrite_sender (sig from : Z) (l : list signal) : option (list signal) :=
  match l with
  | [] => None
  | s :: rest =>
      if signum s =? sig then Some (mk_signal (signum s) from :: rest)
      else cons s <$> overwrite_sender sig from rest
  end.

(** The tail shared by the [SIG_USR] and [SIG_KILL] branches: coalesce on
    an existing record or [malloc] a fresh one and append it.  [malloc_ok]
    tells whether that [malloc] finds memory; the source stores through
    its result without a test. *)
Definition enqueue (malloc_ok : bool) (k : kernel) (target : Z) (t : thread)
    (sig from : Z) : result kernel :=
  match overwrite_sender sig from (pending_signals t) with
  | Some l => Ret (set_thread k target (set_pending t l))
  | None =>
      if malloc_ok
      then Ret (set_thread k target
                  (set_pending t (pending_signals t ++ [mk_signal sig from])))
      else Abort BadAccess
  end.

Section Kill.

(** [validated_tid] is defined in [threads/thread.c]: the control block
    of the thread with the given TID, or [NULL] ([None]).  Threads are not
    created or destroyed by the functions of this file, so the lookup is
    taken as a fixed function. *)
Variable validated_tid : Z → option Z.

(** The [for (;;)] of the [SIG_KILL] branch: [Ret true] when the caller's
    TID is met on the parent chain, [Ret false] when a parent with TID 1
    is met first.  The loop has no bound in the source; [fuel] bounds the
    number of iterations. *)
Fixpoint parent_walk (fuel : nat) (k : kernel) (caller : Z) (tmp : thread)
    : result bool :=
  match fuel with
  | O => Abort OutOfFuel
  | S fuel' =>
      p ← deref k (parent_thread tmp);
      if caller =? tid p then Ret true
      else if tid p =? 1 then Ret false
      else parent_walk fuel' k caller p
  end.

Definition kill (fuel : nat) (malloc_ok : bool) (k : kernel) (tid_ signum : Z)
    : result (kernel * Z) :=
  match validated_tid tid_ with
  | None => Ret (k, -1)
  | Some target =>
      if signum =? SIG_UBLOCK then
        t ← deref k target;
        if negb (Z.land (sigmask t) 4 =? 0) then Ret (k, -1)
        else if negb (bool_decide (status t = THREAD_BLOCKED)) then Ret (k, 0)
        else Ret (push_unblock k target, 0)
      else if signum =? SIG_USR then
        t ← deref k target;
        if negb (Z.land (sigmask t) 8 =? 0) then Ret (k, -1)
        else
          cur ← thread_current k;
          k' ← enqueue malloc_ok k target t signum (tid cur);
          Ret (k', 0)
      else if signum =? SIG_KILL then
        t ← deref k target;
        cur ← thread_current k;
        found ← parent_walk fuel k (tid cur) t;
        if negb found then Ret (k, -1)
        else
          k' ← enqueue malloc_ok k target t signum (tid cur);
          Ret (k', 0)
      else Ret (k, -1)
  end.

End Kill.

(** [sigemptyset], [sigfillset], [sigdelset], [sigaddset]: [set] is a
    pointer to a [sigset_t] object. *)
Definition sigemptyset (k : kernel) (set : Z) : result (kernel * Z) :=
  k' ← store_set k set 0; Ret (k', 0).

Definition sigfillset (k : kernel) (set : Z) : result (kernel * Z) :=
  k' ← store_set k set 31; Ret (k', 0).

Definition sigdelset (k : kernel) (set signum : Z) : result (kernel * Z) :=
  if (signum <? 0) || (signum >? 4) then Ret (k, -1)
  else
    let set_mask_val := [30; 29; 27; 23; 15] in
    v ← load_set k set;
    m ← from_option BadAccess (set_mask_val !! Z.to_nat signum);
    k' ← store_set k set (Z.land v m);
    Ret (k', 0).

Definition sigaddset (k : kernel) (set signum : Z) : result (kernel * Z) :=
  if (signum <? 0) || (signum >? 4) then Ret (k, -1)
  else
    let set_mask_val := [1; 2; 4; 8; 16] in
    v ← load_set k set;
    m ← from_option BadAccess (set_mask_val !! Z.to_nat signum);
    k' ← store_set k set (Z.lor v m);
    Ret (k', 0).

(** [sigprocmask]: [set] and [oldset] are pointers; [oldset] may be
    [NULL] (0) and nothing keeps the two from naming the same object. *)
Definition sigprocmask (k : kernel) (how set oldset : Z) : result (kernel * Z) :=
  t ← thread_current k;
  k1 ← (if negb (oldset =? 0) then store_set k oldset (sigmask t) else Ret k);
  let upd m := set_thread k1 (running k1) (set_sigmask t m) in
  if how =? SIG_BLOCK then
    s ← load_set k1 set;
    Ret (upd (Z.lor (sigmask t) s), 0)
  else if how =? SIG_UNBLOCK then
    s ← load_set k1 set;
    Ret (upd (Z.land (sigmask t) (Z.lnot s)), 0)
  else if how =? SIG_SETMASK then
    s ← load_set k1 set;
    Ret (upd s, 0)
  else Ret (k1, 0).

(** * The allocator ([threads/malloc.c]) *)

(** ** Target layout

    [PGSIZE], [pg_ofs] and [pg_round_down] come from [threads/vaddr.h];
    the sizes and field offsets of [struct arena] and [struct block]
    depend on [struct list_elem] ([lib/kernel/list.h]) and on the ABI.
    They are parameters of the model.  [magic] is the first member of
    [struct arena], at offset 0. *)
Record layout : Type := mk_layout {
  PGBITS : Z;            (* PGSIZE = 1 << PGBITS *)
  sizeof_arena : Z;      (* sizeof (struct arena) *)
  ofs_num_pages : Z;     (* offsetof (struct arena, num_pages) *)
  ofs_size : Z           (* offsetof (struct block, size) *)
}.

(** Pintos on i386: pointers, [unsigned] and [size_t] take 4 bytes and a
    [struct list_elem] holds two pointers, so [struct arena] is
    [magic] 0, [desc] 4, [free_cnt] 8, [elem_arena] 12, [num_pages] 20
    (24 bytes) and [struct block] is [free_elem] 0, [is_used] 8,
    [size] 12 (16 bytes). *)
Definition i386 : layout :=
  {| PGBITS := 12; sizeof_arena := 24; ofs_num_pages := 20; ofs_size := 12 |}.

Definition ARENA_MAGIC : Z := 0x9a548eed.

(** ** Byte-addressed memory, little endian *)

(** Every address holds a byte: the map does not say which addresses are
    mapped or which pages the allocator holds, so no load, store, fill or
    copy is a fault here.  A statement that depends on a fill or a copy
    staying inside a block says so, by the range of addresses touched. *)
Definition memory : Type := Z → Z.

Definition byte_of (i v : Z) : Z := (v / 2 ^ (8 * i)) mod 256.

Definition load32 (m : memory) (a : Z) : Z :=
  m a mod 256 + 2 ^ 8 * (m (a + 1) mod 256)
  + 2 ^ 16 * (m (a + 2) mod 256) + 2 ^ 24 * (m (a + 3) mod 256).

Definition store32 (m : memory) (a v : Z) : memory := fun x =>
  if x =? a then byte_of 0 v
  else if x =? a + 1 then byte_of 1 v
  else if x =? a + 2 then byte_of 2 v
  else if x =? a + 3 then byte_of 3 v
  else m x.

(** Modelled from the spec: [memset] ([lib/string.c]) is not among the
    sources followed here; the specification has [calloc] "allocate [s]
    and zero it".  The [n] bytes from [dst] on become [c]. *)
Definition memset (m : memory) (dst c n : Z) : memory := fun x =>
  if (dst <=? x) && (x <? dst + n) then c mod 256 else m x.

(** Modelled from the spec: [memcpy] ([lib/string.c]) is not among the
    sources followed here; the specification has [realloc] "copy
    [min(old_size, n)] bytes from [p]".  The [n] bytes from [dst] on become
    the bytes that stood at [src] before the call.  C leaves a copy between
    overlapping ranges undefined; no statement below depends on what such
    a copy leaves. *)
Definition memcpy (m : memory) (dst src n : Z) : memory := fun x =>
  if (dst <=? x) && (x <? dst + n) then m (src + (x - dst)) else m x.

(** ** Descriptors and the heap *)

(** [struct desc].  The intrusive [free_list] is kept as the addresses of
    its blocks from front to back; the link words a block holds while it
    is on a list are not part of the memory of the model.  Locks are left
    out: the model runs one caller at a time. *)
Record desc : Type := mk_desc {
  block_size : Z;
  blocks_per_arena : Z;
  free_list : list Z
}.

(** Calls to the page allocator ([threads/palloc.c]), which is outside
    this file. *)
Inductive palloc_event : Type :=
| PallocGet (page_cnt : Z) (answer : Z)
| PallocFree (pages : Z) (page_cnt : Z).

(** The state of the allocator: kernel memory, the static array
    [descs[10]] with [desc_cnt], the list [arena_list], the answers the
    page allocator gives to the calls still to come ([0] is a null
    pointer; an exhausted supply answers null) and the calls made so
    far. *)
Record heap : Type := mk_heap {
  mem : memory;
  descs : list desc;
  desc_cnt : Z;
  arena_list : list Z;
  palloc_supply : list Z;
  palloc_log : list palloc_event
}.

Definition set_mem (h : heap) (m : memory) : heap :=
  {| mem := m; descs := descs h; desc_cnt := desc_cnt h;
     arena_list := arena_list h; palloc_supply := palloc_supply h;
     palloc_log := palloc_log h |}.

Definition set_descs (h : heap) (ds : list desc) : heap :=
  {| mem := mem h; descs := ds; desc_cnt := desc_cnt h;
     arena_list := arena_list h; palloc_supply := palloc_supply h;
     palloc_log := palloc_log h |}.

Definition set_desc_cnt (h : heap) (n : Z) : heap :=
  {| mem := mem h; descs := descs h; desc_cnt := n;
     arena_list := arena_list h; palloc_supply := palloc_supply h;
     palloc_log := palloc_log h |}.

Definition set_arena_list (h : heap) (l : list Z) : heap :=
  {| mem := mem h; descs := descs h; desc_cnt := desc_cnt h;
     arena_list := l; palloc_supply := palloc_supply h;
     palloc_log := palloc_log h |}.

Definition palloc_get_multiple (h : heap) (page_cnt : Z) : heap * Z :=
  let answer := hd 0 (palloc_supply h) in
  ({| mem := mem h; descs := descs h; desc_cnt := desc_cnt h;
      arena_list := arena_list h; palloc_supply := tl (palloc_supply h);
      palloc_log := palloc_log h ++ [PallocGet page_cnt answer] |}, answer).

Definition palloc_free_multiple (h : heap) (pages page_cnt : Z) : heap :=
  {| mem := mem h; descs := descs h; desc_cnt := desc_cnt h;
     arena_list := arena_list h; palloc_supply := palloc_supply h;
     palloc_log := palloc_log h ++ [PallocFree pages page_cnt] |}.

(** The static storage before [malloc_init]: ten zeroed descriptors and
    [desc_cnt = 0]. *)
Definition boot (m : memory) (supply : list Z) : heap :=
  {| mem := m; descs := replicate 10 (mk_desc 0 0 []); desc_cnt := 0;
     arena_list := []; palloc_supply := supply; palloc_log := [] |}.

(** [descs + i], read: outside the ten elements of the array the access
    is out of bounds. *)
Definition desc_at (h : heap) (i : Z) : result desc :=
  if i <? 0 then Abort BadAccess
  else from_option BadAccess (descs h !! Z.to_nat i).

Definition set_free_list (h : heap) (i : Z) (l : list Z) : result heap :=
  d ← desc_at h i;
  Ret (set_descs h
         (<[Z.to_nat i := mk_desc (block_size d) (blocks_per_arena d) l]> (descs h))).

(** [list_push_back (&(descs + i)->free_list, &b->free_elem)]. *)
Definition push_back (h : heap) (i b : Z) : result heap :=
  d ← desc_at h i;
  set_free_list h i (free_list d ++ [b]).

(** [list_pop_front]: [list_front] asserts that the list is not empty. *)
Definition pop_front (h : heap) (i : Z) : result (heap * Z) :=
  d ← desc_at h i;
  match free_list d with
  | [] => Abort AssertFailed
  | b :: rest => h' ← set_free_list h i rest; Ret (h', b)
  end.

(** [list_remove] of the first element equal to [b]. *)
Fixpoint remove_first (b : Z) (l : list Z) : list Z :=
  match l with
  | [] => []
  | x :: rest => if x =? b then rest else x :: remove_first b rest
  end.

Fixpoint mem_list (b : Z) (l : list Z) : bool :=
  match l with
  | [] => false
  | x :: rest => (x =? b) || mem_list b rest
  end.

Section Allocator.

Variable L : layout.

Definition PGSIZE : Z := Z.shiftl 1 (PGBITS L).
Definition PGMASK : Z := PGSIZE - 1.
Definition pg_ofs (va : Z) : Z := Z.land va PGMASK.
Definition pg_round_down (va : Z) : Z := Z.land va (Z.lnot PGMASK).

(** [DIV_ROUND_UP] of [lib/round.h], on [size_t]. *)
Definition DIV_ROUND_UP (x step : Z) : Z := wrap (x + step - 1) / step.

Definition block_size_of (h : heap) (b : Z) : Z := load32 (mem h) (b + ofs_size L).

Definition set_block_size (h : heap) (b v : Z) : heap :=
  set_mem h (store32 (mem h) (b + ofs_size L) v).

(** [malloc_init]: the [for] loop.  Each turn takes the next slot of
    [descs] and asserts [desc_cnt <= 10], so the loop ends within eleven
    turns; [fuel] carries that bound.  [blocks_per_arena] is not
    assigned. *)
Fixpoint malloc_init_loop (fuel : nat) (h : heap) (bs : Z) : result heap :=
  if bs <? PGSIZE / 2 then
    match fuel with
    | O => Abort OutOfFuel
    | S fuel' =>
        let i := desc_cnt h in
        let h1 := set_desc_cnt h (i + 1) in
        _ ← assert (desc_cnt h1 <=? 10);
        d ← desc_at h1 i;
        let h2 := set_descs h1
                    (<[Z.to_nat i := mk_desc bs (blocks_per_arena d) []]> (descs h1)) in
        malloc_init_loop fuel' h2 (wrap (bs * 2))
    end
  else Ret h.

Definition malloc_init (h : heap) : result heap :=
  malloc_init_loop (S (Z.to_nat (10 - desc_cnt h))) (set_arena_list h []) 16.

(** [block_to_arena]. *)
Definition block_to_arena (h : heap) (b size : Z) : result Z :=
  let a := pg_round_down b in
  _ ← assert (negb (a =? 0));
  _ ← assert (load32 (mem h) a =? ARENA_MAGIC);
  r ← umod (wrap (pg_ofs b - sizeof_arena L)) size;
  _ ← assert (r =? 0);
  Ret a.

(** [arena_to_block]; [idx] is a [size_t]. *)
Definition arena_to_block (h : heap) (a idx : Z) (d : desc) : result Z :=
  _ ← assert (negb (a =? 0));
  _ ← assert (load32 (mem h) a =? ARENA_MAGIC);
  Ret (a + sizeof_arena L + wrap (idx * block_size d)).

(** ** [malloc] *)

(** Lines 119-120: [while (list_empty (...) && descs + block_count <
    descs + desc_cnt) block_count++].  The list test comes first in the
    source, so [descs + block_count] is read before the bound is tested,
    also at [block_count = desc_cnt]: within the array that is a
    descriptor [malloc_init] has not set up, beyond it the read is out
    of bounds.  Whatever the list test answers there, the bound test ends
    the loop.  [block_count] grows up to [desc_cnt]; [fuel] carries that
    bound. *)
Fixpoint first_nonempty (fuel : nat) (h : heap) (block_count : Z) : result Z :=
  d ← desc_at h block_count;
  if bool_decide (free_list d = []) && (block_count <? desc_cnt h) then
    match fuel with
    | O => Abort OutOfFuel
    | S fuel' => first_nonempty fuel' h (block_count + 1)
    end
  else Ret block_count.

(** Lines 115-124: the descriptor scan.  The result is the index of
    [desc_obj] in [descs] ([desc_cnt] when no class is large enough) and
    [block_count]. *)
Fixpoint find_desc (fuel : nat) (h : heap) (size : Z) (i : Z) : result (Z * Z) :=
  if i <? desc_cnt h then
    d ← desc_at h i;
    if block_size d >=? size then
      bc ← first_nonempty (Z.to_nat (desc_cnt h - i)) h i;
      Ret (i, bc)
    else
      match fuel with
      | O => Abort OutOfFuel
      | S fuel' => find_desc fuel' h size (i + 1)
      end
  else Ret (i, i).

(** Lines 132-141: a request larger than every class. *)
Definition malloc_big (h : heap) (size : Z) : result (heap * Z) :=
  let page_cnt := DIV_ROUND_UP (wrap (size + sizeof_arena L)) PGSIZE in
  let '(h1, arena_obj) := palloc_get_multiple h page_cnt in
  if arena_obj =? 0 then Ret (h1, 0)
  else
    let m1 := store32 (mem h1) arena_obj ARENA_MAGIC in
    let m2 := store32 m1 (arena_obj + ofs_num_pages L) page_cnt in
    Ret (set_mem h1 m2, arena_obj + sizeof_arena L).

(** Lines 160-172: the second block of each class above the request goes
    on that class's free list.  [j] counts down from the top descriptor;
    the result is the heap and the final [j]. *)
Fixpoint carve (fuel : nat) (h : heap) (arena_obj desc_obj j : Z)
    : result (heap * Z) :=
  dj ← desc_at h (desc_cnt h - j);
  dt ← desc_at h desc_obj;
  if block_size dj >? block_size dt then
    tmp_block ← arena_to_block h arena_obj 1 dj;
    let h1 := set_block_size h tmp_block (block_size dj) in
    h2 ← push_back h1 (desc_cnt h1 - j) tmp_block;
    let j := j + 1 in
    dj' ← desc_at h2 (desc_cnt h2 - j);
    dt' ← desc_at h2 desc_obj;
    if block_size dj' <=? block_size dt' then Ret (h2, j)
    else
      match fuel with
      | O => Abort OutOfFuel
      | S fuel' => carve fuel' h2 arena_obj desc_obj j
      end
  else Ret (h, j).

(** Lines 146-184: no free block at or above the class: a new page. *)
Definition malloc_fresh (h : heap) (desc_obj : Z) : result (heap * Z) :=
  let '(h1, arena_obj) := palloc_get_multiple h 1 in
  if arena_obj =? 0 then Ret (h1, 0)
  else
    let m1 := store32 (mem h1) arena_obj ARENA_MAGIC in
    let m2 := store32 m1 (arena_obj + ofs_num_pages L) 0 in
    let h2 := set_mem h1 m2 in
    '(h3, j) ← carve (Z.to_nat (desc_cnt h2)) h2 arena_obj desc_obj 1;
    dj ← desc_at h3 (desc_cnt h3 - j);
    buddy ← arena_to_block h3 arena_obj 1 dj;
    let h4 := set_block_size h3 buddy (block_size dj) in
    h5 ← push_back h4 desc_obj buddy;
    dj5 ← desc_at h5 (desc_cnt h5 - j);
    block_obj ← arena_to_block h5 arena_obj 0 dj5;
    let h6 := set_block_size h5 block_obj (block_size dj5) in
    Ret (set_arena_list h6 (arena_list h6 ++ [arena_obj]), block_obj).

(** Lines 196-197: [while (!((descs + desc_cnt - idx)->block_size <=
    (descs + block_count)->block_size)) idx = idx + 1]. *)
Fixpoint find_idx (fuel : nat) (h : heap) (block_count idx : Z) : result Z :=
  di ← desc_at h (desc_cnt h - idx);
  db ← desc_at h block_count;
  if negb (block_size di <=? block_size db) then
    match fuel with
    | O => Abort OutOfFuel
    | S fuel' => find_idx fuel' h block_count (idx + 1)
    end
  else Ret idx.

(** Lines 207-237: the split loop.  The result is the heap and the final
    [block_count]. *)
Fixpoint split (fuel : nat) (h : heap) (arena_obj desc_obj block_count idx : Z)
    : result (heap * Z) :=
  di ← desc_at h (desc_cnt h - idx);
  dt ← desc_at h desc_obj;
  if block_size di >? block_size dt then
    '(h1, block_obj) ← pop_front h block_count;
    q ← udiv (wrap (pg_ofs block_obj - sizeof_arena L)) (block_size di);
    let block_index := to_int q in
    let buddy_one_index := to_int (2 * block_index) in
    let buddy_two_index := to_int (buddy_one_index + 1) in
    let idx := idx + 1 in
    di' ← desc_at h1 (desc_cnt h1 - idx);
    buddy_two ← arena_to_block h1 arena_obj (wrap buddy_two_index) di';
    let h2 := set_block_size h1 buddy_two (block_size di') in
    di2 ← desc_at h2 (desc_cnt h2 - idx);
    buddy_one ← arena_to_block h2 arena_obj (wrap buddy_one_index) di2;
    let h3 := set_block_size h2 buddy_one (block_size di2) in
    let block_count := block_count - 1 in
    h4 ← push_back h3 block_count buddy_one;
    h5 ← push_back h4 block_count buddy_two;
    di5 ← desc_at h5 (desc_cnt h5 - idx);
    dt5 ← desc_at h5 desc_obj;
    if block_size di5 <=? block_size dt5 then Ret (h5, block_count)
    else
      match fuel with
      | O => Abort OutOfFuel
      | S fuel' => split fuel' h5 arena_obj desc_obj block_count idx
      end
  else Ret (h, block_count).

(** Lines 187-241: a free block exists at [block_count]. *)
Definition malloc_reuse (h : heap) (desc_obj block_count : Z) : result (heap * Z) :=
  dtop ← desc_at h (desc_cnt h - 1);
  db ← desc_at h block_count;
  (* line 192: [list_begin] of the list that the scan found non-empty *)
  block_obj ← from_option BadAccess (head (free_list db));
  arena_obj ← block_to_arena h block_obj (block_size_of h block_obj);
  idx ← find_idx (Z.to_nat (desc_cnt h)) h block_count 1;
  if block_count =? desc_obj then pop_front h block_count
  else
    '(h1, block_count) ← split (Z.to_nat (desc_cnt h)) h arena_obj desc_obj
                            block_count idx;
    pop_front h1 block_count.

Definition malloc (h : heap) (size : Z) : result (heap * Z) :=
  if size =? 0 then Ret (h, 0)
  else
    '(desc_obj, block_count) ← find_desc (Z.to_nat (desc_cnt h)) h size 0;
    if desc_obj =? desc_cnt h then malloc_big h size
    else if block_count =? desc_cnt h then malloc_fresh h desc_obj
    else malloc_reuse h desc_obj block_count.

(** ** [calloc] *)
Definition calloc (h : heap) (a b : Z) : result (heap * Z) :=
  let size := wrap (a * b) in
  if (size <? a) || (size <? b) then Ret (h, 0)
  else
    '(h1, p) ← malloc h size;
    if negb (p =? 0) then Ret (set_mem h1 (memset (mem h1) p 0 size), p)
    else Ret (h1, p).

(** ** [free] *)

(** Lines 318-319: [while ((descs + i)->block_size < block_obj->size)]. *)
Fixpoint class_index (fuel : nat) (h : heap) (block_obj i : Z) : result Z :=
  d ← desc_at h i;
  if block_size d <? block_size_of h block_obj then
    match fuel with
    | O => Abort OutOfFuel
    | S fuel' => class_index fuel' h block_obj (i + 1)
    end
  else Ret i.

(** Lines 321-365: the coalescing loop; the result is the heap and the
    final [i]. *)
Fixpoint coalesce (fuel : nat) (h : heap) (free_arena block_obj i : Z)
    : result (heap * Z) :=
  if i <? desc_cnt h then
    q ← udiv (wrap (pg_ofs block_obj - sizeof_arena L)) (block_size_of h block_obj);
    let arena_index := to_int q in
    let buddy_arena_index :=
      if Z.land arena_index 1 =? 0 then to_int (arena_index + 1)
      else to_int (arena_index - 1) in
    d ← desc_at h i;
    buddy_block ← arena_to_block h free_arena (wrap buddy_arena_index) d;
    if mem_list buddy_block (free_list d) then
      h1 ← set_free_list h i (remove_first buddy_block (free_list d));
      let i := i + 1 in
      let '(h2, block_obj) :=
        if negb (Z.land arena_index 1 =? 0)
        then (set_block_size h1 buddy_block (wrap (block_size_of h1 buddy_block * 2)),
              buddy_block)
        else (set_block_size h1 block_obj (wrap (block_size_of h1 block_obj * 2)),
              block_obj) in
      match fuel with
      | O => Abort OutOfFuel
      | S fuel' => coalesce fuel' h2 free_arena block_obj i
      end
    else
      h1 ← push_back h i block_obj;
      Ret (h1, i)
  else Ret (h, i).

Definition free (h : heap) (p : Z) : result heap :=
  if p =? 0 then Ret h
  else
    let free_arena := p - sizeof_arena L in
    let num_pages := load32 (mem h) (free_arena + ofs_num_pages L) in
    if num_pages >? 0 then Ret (palloc_free_multiple h free_arena num_pages)
    else
      let block_obj := p in
      free_arena ← block_to_arena h block_obj (block_size_of h block_obj);
      i ← class_index 10 h block_obj 0;
      '(h1, i) ← coalesce (S (Z.to_nat (desc_cnt h))) h free_arena block_obj i;
      if i =? desc_cnt h1 then
        let h2 := set_arena_list h1 (remove_first free_arena (arena_list h1)) in
        Ret (palloc_free_multiple h2 free_arena 1)
      else Ret h1.

(** ** [realloc] *)
Definition realloc (h : heap) (old_block new_size : Z) : result (heap * Z) :=
  if new_size =? 0 then
    h' ← free h old_block;
    Ret (h', 0)
  else
    '(h1, new_block) ← malloc h new_size;
    if negb (old_block =? 0) && negb (new_block =? 0) then
      let old_size := block_size_of h1 old_block in
      let min_size := if new_size <? old_size then new_size else old_size in
      let h2 := set_mem h1 (memcpy (mem h1) new_block old_block min_size) in
      h3 ← free h2 old_block;
      Ret (h3, new_block)
    else Ret (h1, new_block).

End Allocator.

(** ** [printMemory] *)

(** What [printMemory] writes, one constructor for each [printf] of the
    function with the values it formats. *)
Inductive printed : Type :=
| Rule                    (* "---------------------------------\n" *)
| Title                   (* "Free memory blocks\n" *)
| NoBlocks                (* "No free memory blocks\n" *)
| PageNumber (n : Z)      (* "Page %2d:\n" *)
| PageAddress (a : Z)     (* "Page address %6u\n" *)
| SizeLabel (s : Z)       (* "Size %3d: " *)
| BlockAddress (b : Z)    (* "%d, " *)
| EndOfLine.              (* "\n" *)

Section Report.

Variable L : layout.

(** Lines 431-438: the walk over one free list.  [block_to_arena] is
    called on every block of the list, also on those of other pages; a
    block of another arena is skipped. *)
Fixpoint print_blocks (h : heap) (tmp_arena : Z) (l : list Z)
    : result (list printed) :=
  match l with
  | [] => Ret []
  | tmp_block :: rest =>
      a ← block_to_arena L h tmp_block (block_size_of L h tmp_block);
      out ← print_blocks h tmp_arena rest;
      if negb (a =? tmp_arena) then Ret out
      else Ret (BlockAddress (to_int tmp_block) :: out)
  end.

(** Lines 427-440: [for (j = 0; j < desc_cnt; j++)]. *)
Fixpoint print_classes (fuel : nat) (h : heap) (tmp_arena j : Z)
    : result (list printed) :=
  if j <? desc_cnt h then
    match fuel with
    | O => Abort OutOfFuel
    | S fuel' =>
        d ← desc_at h j;
        blocks ← print_blocks h tmp_arena (free_list d);
        rest ← print_classes fuel' h tmp_arena (j + 1);
        Ret (SizeLabel (to_int (block_size d)) :: blocks ++ EndOfLine :: rest)
    end
  else Ret [].

(** Lines 419-441: the walk over [arena_list], counting pages. *)
Fixpoint print_pages (h : heap) (page_count : Z) (l : list Z)
    : result (list printed) :=
  match l with
  | [] => Ret []
  | tmp_arena :: rest =>
      sizes ← print_classes (Z.to_nat (desc_cnt h)) h tmp_arena 0;
      more ← print_pages h (page_count + 1) rest;
      Ret (Rule :: PageNumber page_count :: PageAddress (wrap tmp_arena) :: Rule
           :: sizes ++ more)
  end.

(** [printMemory] reads the heap and writes to the console; the result is
    what a call that returns has written. *)
Definition printMemory (h : heap) : result (list printed) :=
  if bool_decide (arena_list h = []) then
    Ret [Rule; Title; Rule; NoBlocks; Rule]
  else
    pages ← print_pages h 0 (arena_list h);
    Ret (Rule :: Title :: Rule :: pages ++ [Rule]).

End Report.

(** * States used to instantiate the statements below *)

(** Two threads: the initial thread (TID 1), whose parent link names
    itself, and a child of it (TID 3).  Two [sigset_t] objects: the one at
    [0x1000] holds [SIG_USR]'s bit, the one at [0x1002] is empty. *)
Definition main_tcb : Z := 0xc0001000.
Definition child_tcb : Z := 0xc0002000.

Definition main_thread : thread := mk_thread 1 THREAD_BLOCKED 0 [] main_tcb.
Definition child_thread : thread := mk_thread 3 THREAD_RUNNING 1 [] main_tcb.

Definition two_threads (cur : Z) : kernel :=
  {| threads := {[ main_tcb := main_thread; child_tcb := child_thread ]};
     running := cur;
     unblock_list := [];
     sigsets := {[ 0x1000 := 8; 0x1002 := 0 ]} |}.

Definition two_tids (t : Z) : option Z :=
  if t =? 1 then Some main_tcb
  else if t =? 3 then Some child_tcb
  else None.

(** [thread_current ()] after a context switch. *)
Definition set_running (k : kernel) (cur : Z) : kernel :=
  {| threads := threads k; running := cur;
     unblock_list := unblock_list k; sigsets := sigsets k |}.

(** A script of [kill] calls, each with its caller, run with enough fuel
    and a [malloc] that succeeds; a call that does not return ends the
    run. *)
Fixpoint run_kills (validated_tid : Z → option Z) (script : list (Z * Z * Z))
    (k : kernel) : kernel :=
  match script with
  | [] => k
  | (cur, tid_, sig) :: rest =>
      match kill validated_tid 8 true (set_running k cur) tid_ sig with
      | Ret (k', _) => run_kills validated_tid rest k'
      | Abort _ => k
      end
  end.

Definition kill_script : list (Z * Z * Z) :=
  [ (main_tcb, 3, SIG_USR); (child_tcb, 3, SIG_USR);
    (main_tcb, 3, SIG_KILL); (main_tcb, 3, SIG_KILL) ].

(** The states reachable by calls of [kill] that return, from any
    caller, with any outcome of the [malloc] inside. *)
Inductive kill_reach (validated_tid : Z → option Z) (k : kernel) : kernel → Prop :=
| kill_reach_refl : kill_reach validated_tid k k
| kill_reach_step k1 k2 cur fuel malloc_ok tid_ sig r :
    kill_reach validated_tid k k1 →
    kill validated_tid fuel malloc_ok (set_running k1 cur) tid_ sig = Ret (k2, r) →
    kill_reach validated_tid k k2.

Definition count_sig (sig : Z) (l : list signal) : nat :=
  length (filter (λ s, signum s = sig) l).

(** A record of signal [sig] with its sender replaced by [from]; any
    other record as it is. *)
Definition resend (sig from : Z) (s : signal) : signal :=
  if signum s =? sig then mk_signal sig from else s.

Definition pending_of (k : kernel) (p : Z) : option (list signal) :=
  pending_signals <$> threads k !! p.

Definition sigmask_of (k : kernel) (p : Z) : option Z :=
  sigmask <$> threads k !! p.

(** An empty heap on the i386 layout with one page to come from the page
    allocator. *)
Definition zero_memory : memory := fun _ => 0.
Definition page0 : Z := 0xc0100000.

(** The descriptors [malloc_init] has set up: [descs[0 .. desc_cnt)]. *)
Definition classes (h : heap) : list desc :=
  take (Z.to_nat (desc_cnt h)) (descs h).

(** Every address on a free list is positive. *)
Definition free_lists_positive (h : heap) : Prop :=
  Forall (λ d, Forall (λ b, 0 < b) (free_list d)) (descs h).

Definition free_lists (h : heap) : list (list Z) := free_list <$> classes h.

Definition class_sizes (h : heap) : list Z := block_size <$> classes h.

Definition power_of_two (b : Z) : Prop := ∃ e, 0 ≤ e ∧ b = 2 ^ e.

(** What a failed page request leaves behind: one more entry in the log
    of the page allocator, with a null answer, and nothing else. *)
Definition only_failed_get (h h' : heap) : Prop :=
  mem h' = mem h ∧ descs h' = descs h ∧ desc_cnt h' = desc_cnt h
  ∧ arena_list h' = arena_list h
  ∧ ∃ page_cnt, palloc_log h' = palloc_log h ++ [PallocGet page_cnt 0].

(** A run that returns or stops the kernel: the bound the model puts on
    a loop was not what ended it. *)
Definition in_time {A} (r : result A) : Prop := r ≠ Abort OutOfFuel.

(** The i386 heap after [malloc_init], and the same heap after one
    [malloc (3000)] has taken the only page the page allocator had. *)
Definition started (supply : list Z) : heap :=
  match malloc_init i386 (boot zero_memory supply) with
  | Ret h => h
  | Abort _ => boot zero_memory supply
  end.

Definition one_big_block : heap :=
  match malloc i386 (started [page0]) 3000 with
  | Ret (h, _) => h
  | Abort _ => started [page0]
  end.

Definition at_most_one (l : list signal) : Prop :=
  (count_sig SIG_KILL l ≤ 1)%nat ∧ (count_sig SIG_USR l ≤ 1)%nat.

(** * Definitions used by the further statements *)

(** The [n]-th thread up the parent links of [t]; [t] itself for 0. *)
Fixpoint ancestor (n : nat) (k : kernel) (t : thread) : option thread :=
  match n with
  | O => Some t
  | S n' => p ← threads k !! parent_thread t; ancestor n' k p
  end.

(** Three generations: the two threads above and a child (TID 4) of the
    thread with TID 3, holding one pending [SIG_USR]. *)
Definition grandchild_tcb : Z := 0xc0003000.

Definition grandchild_thread : thread :=
  mk_thread 4 THREAD_READY 0 [mk_signal SIG_USR 3] child_tcb.

Definition three_threads (cur : Z) : kernel :=
  {| threads := {[ main_tcb := main_thread; child_tcb := child_thread;
                   grandchild_tcb := grandchild_thread ]};
     running := cur;
     unblock_list := [];
     sigsets := {[ 0x1000 := 8; 0x1002 := 0 ]} |}.

Definition three_tids (t : Z) : option Z :=
  if t =? 1 then Some main_tcb
  else if t =? 3 then Some child_tcb
  else if t =? 4 then Some grandchild_tcb
  else None.

(** Two control blocks that differ in the pending list at most. *)
Definition same_but_pending (t t' : thread) : Prop :=
  tid t' = tid t ∧ status t' = status t ∧ sigmask t' = sigmask t
  ∧ parent_thread t' = parent_thread t.

(** What [malloc_init] writes into the descriptors. *)
Definition class_table (h : heap) : list (Z * Z) :=
  (λ d, (block_size d, blocks_per_arena d)) <$> descs h.

(** The calls a client of the allocator makes; [free] returns nothing. *)
Inductive call : Type :=
| Malloc (size : Z)
| Calloc (a b : Z)
| Realloc (old_block new_size : Z)
| Free (p : Z).

Definition run_call (L : layout) (h : heap) (c : call) : result (heap * Z) :=
  match c with
  | Malloc size => malloc L h size
  | Calloc a b => calloc L h a b
  | Realloc old_block new_size => realloc L h old_block new_size
  | Free p => h' ← free L h p; Ret (h', 0)
  end.

(** The heaps reachable by calls that return. *)
Inductive heap_reach (L : layout) (h : heap) : heap → Prop :=
| heap_reach_refl : heap_reach L h h
| heap_reach_step h1 h2 c r :
    heap_reach L h h1 → run_call L h1 c = Ret (h2, r) → heap_reach L h h2.

(** A script of calls; a call that does not return ends the run. *)
Fixpoint run_calls (L : layout) (cs : list call) (h : heap) : heap :=
  match cs with
  | [] => h
  | c :: rest =>
      match run_call L h c with
      | Ret (h', _) => run_calls L rest h'
      | Abort _ => h
      end
  end.

(** Two heaps that differ in the free lists and the memory at most. *)
Definition same_frame (h h' : heap) : Prop :=
  desc_cnt h' = desc_cnt h ∧ class_table h' = class_table h
  ∧ arena_list h' = arena_list h ∧ palloc_supply h' = palloc_supply h
  ∧ palloc_log h' = palloc_log h.

(** The report of [printMemory], told from the tables: for each arena of
    the arena list, numbered from 0, its heading and one line for each
    class with the free blocks of the class that lie in the page of the
    arena, in the order of the free list. *)
Definition class_line (L : layout) (a : Z) (d : desc) : list printed :=
  SizeLabel (to_int (block_size d))
  :: ((λ b, BlockAddress (to_int b))
        <$> filter (λ b, pg_round_down L b = a) (free_list d))
  ++ [EndOfLine].

Fixpoint page_reports (L : layout) (h : heap) (n : Z) (l : list Z)
    : list printed :=
  match l with
  | [] => []
  | a :: rest =>
      [Rule; PageNumber n; PageAddress (wrap a); Rule]
      ++ concat (class_line L a <$> classes h)
      ++ page_reports L h (n + 1) rest
  end.

Definition report (L : layout) (h : heap) : list printed :=
  match arena_list h with
  | [] => [Rule; Title; Rule; NoBlocks; Rule]
  | _ => [Rule; Title; Rule] ++ page_reports L h 0 (arena_list h) ++ [Rule]
  end.

(** Every block on the free list of a class passes the checks of
    [block_to_arena]. *)
Definition free_blocks_checked (L : layout) (h : heap) : Prop :=
  Forall (λ d, Forall (λ b, block_to_arena L h b (block_size_of L h b)
                            = Ret (pg_round_down L b)) (free_list d))
    (classes h).

(** The size of the class a request of [n] bytes falls in: the least power
    of two from 16 up that holds [n]. *)
Definition round_up_pow2 (n : Z) : Z := 2 ^ Z.log2_up (Z.max n 16).

(** The i386 heap after [malloc (40)] on the first page. *)
Definition one_small_block : heap :=
  match malloc i386 (started [page0]) 40 with
  | Ret (h, _) => h
  | Abort _ => started [page0]
  end.

(** The i386 heap, with one more answer of the page allocator to come,
    after [malloc (3000)] and
    a store of the caller into the word at offset 12 of the block. *)
Definition page1 : Z := 0xc0101000.

Definition big_block_with_data : heap :=
  match malloc i386 (started [page0; page1]) 3000 with
  | Ret (h, p) => set_block_size i386 h p 100
  | Abort _ => started [page0; page1]
  end.

(** * Properties of the signal functions *)

Lemma deref_Some k p t : threads k !! p = Some t → deref k p = Ret t.
Proof. intros H. unfold deref. by rewrite H. Qed.

Lemma deref_None k p : threads k !! p = None → deref k p = Abort BadAccess.
Proof. intros H. unfold deref. by rewrite H. Qed.

(** ** Invalid signal numbers *)

Lemma kill_invalid_signum vt fuel ok k tid_ sig :
  sig ≠ SIG_UBLOCK → sig ≠ SIG_USR → sig ≠ SIG_KILL →
  kill vt fuel ok k tid_ sig = Ret (k, -1).
Proof.
  intros H2 H3 H4. unfold kill.
  destruct (vt tid_); [|done].
  apply Z.eqb_neq in H2, H3, H4. by rewrite H2, H3, H4.
Qed.

Lemma sigaddset_invalid_signum k set sig :
  sig < 0 ∨ 4 < sig → sigaddset k set sig = Ret (k, -1).
Proof.
  intros H. unfold sigaddset.
  destruct (sig <? 0) eqn:E1; [done|].
  destruct (sig >? 4) eqn:E2; [done|]. lia.
Qed.

Lemma sigdelset_invalid_signum k set sig :
  sig < 0 ∨ 4 < sig → sigdelset k set sig = Ret (k, -1).
Proof.
  intros H. unfold sigdelset.
  destruct (sig <? 0) eqn:E1; [done|].
  destruct (sig >? 4) eqn:E2; [done|]. lia.
Qed.

(** [signal_] has no error return: with a signal number outside 0..4 it
    changes nothing and still returns 0. *)
Lemma signal__invalid_signum k t sig handler :
  threads k !! running k = Some t → sig < 0 ∨ 4 < sig →
  signal_ k sig handler = Ret (k, 0).
Proof.
  intros H Hs. unfold signal_, thread_current. rewrite (deref_Some _ _ _ H).
  simpl.
  repeat match goal with
  | |- context [sig =? ?n] =>
      replace (sig =? n) with false by (symmetry; apply Z.eqb_neq; lia)
  end.
  reflexivity.
Qed.

(** C7 (the code departs from the claim): [signal_ (7, SIG_IGN)], with 7
    outside the enumeration 0..4, returns 0 and not -1; the state is
    unchanged.  [kill], [sigaddset] and [sigdelset] return -1 on an
    invalid signal number ([kill_invalid_signum],
    [sigaddset_invalid_signum], [sigdelset_invalid_signum]). *)
Theorem signal__accepts_signum_7 :
  signal_ (two_threads child_tcb) 7 SIG_IGN = Ret (two_threads child_tcb, 0).
Proof. reflexivity. Qed.

(** ** [kill (tid, SIG_UBLOCK)] *)

(** C10: for every target TID, [kill (tid, SIG_UBLOCK)] leaves every
    thread's pending list and mask as they were.  An unknown TID gives
    -1; a masked target gives -1; a target that is not blocked gives 0
    and no change; a blocked target gives 0 and one more entry in the
    global unblock list, nothing else. *)
Theorem kill_UBLOCK_frame vt fuel ok k tid_ :
  match vt tid_ with
  | None => kill vt fuel ok k tid_ SIG_UBLOCK = Ret (k, -1)
  | Some target =>
      match threads k !! target with
      | None => kill vt fuel ok k tid_ SIG_UBLOCK = Abort BadAccess
      | Some t =>
          ∃ k' r,
            kill vt fuel ok k tid_ SIG_UBLOCK = Ret (k', r)
            ∧ threads k' = threads k
            ∧ running k' = running k
            ∧ sigsets k' = sigsets k
            ∧ (if negb (Z.land (sigmask t) 4 =? 0) then r = -1 ∧ k' = k
               else if negb (bool_decide (status t = THREAD_BLOCKED))
                    then r = 0 ∧ k' = k
                    else r = 0
                         ∧ unblock_list k' = unblock_list k ++ [target])
      end
  end.
Proof.
  unfold kill. destruct (vt tid_) as [target|]; [|done]. simpl.
  destruct (threads k !! target) as [t|] eqn:Et.
  - rewrite (deref_Some _ _ _ Et). simpl.
    destruct (negb (Z.land (sigmask t) 4 =? 0)); [by eexists _, _|].
    destruct (negb (bool_decide (status t = THREAD_BLOCKED)));
      by eexists _, _.
  - by rewrite (deref_None _ _ Et).
Qed.
(** ** [kill (tid, SIG_KILL)] on the caller itself *)

Lemma overwrite_sender_None sig from l :
  overwrite_sender sig from l = None ↔ Forall (λ s, signum s ≠ sig) l.
Proof.
  induction l as [|s l IH]; simpl.
  - split; [constructor|done].
  - destruct (signum s =? sig) eqn:E.
    + apply Z.eqb_eq in E. split; [done|]. inversion 1; subst. done.
    + apply Z.eqb_neq in E. rewrite fmap_None, IH. split.
      * by constructor.
      * by inversion 1.
Qed.

Lemma overwrite_sender_app_new sig from l :
  overwrite_sender sig from l = None →
  overwrite_sender sig from (l ++ [mk_signal sig from]) = Some (l ++ [mk_signal sig from]).
Proof.
  induction l as [|s l IH]; simpl.
  - intros _. by rewrite Z.eqb_refl.
  - destruct (signum s =? sig); [done|].
    rewrite fmap_None. intros H. by rewrite (IH H).
Qed.

(** C3 (amended): [kill (self_tid, SIG_KILL)] by a thread on itself is
    decided on the first iteration when the caller's parent carries the
    caller's own TID or TID 1.  The first iteration compares the caller's
    TID with the TID of its parent, not with its own: when the two are
    equal the call returns 0 and appends one [SIG_KILL] record, and a
    second identical call returns 0 and leaves the pending list as it is
    (it coalesces onto that record); otherwise, the parent having TID 1,
    the call returns -1 and changes nothing. *)
Theorem kill_self_KILL_first_iteration vt fuel k c tc p :
  running k = c →
  threads k !! c = Some tc →
  vt (tid tc) = Some c →
  threads k !! parent_thread tc = Some p →
  Forall (λ s, signum s ≠ SIG_KILL) (pending_signals tc) →
  tid p = tid tc ∨ tid p = 1 →
  ∃ k1 r,
    kill vt (S fuel) true k (tid tc) SIG_KILL = Ret (k1, r)
    ∧ if tid tc =? tid p
      then r = 0
           ∧ pending_of k1 c
             = Some (pending_signals tc ++ [mk_signal SIG_KILL (tid tc)])
           ∧ ∃ k2, kill vt (S fuel) true k1 (tid tc) SIG_KILL = Ret (k2, 0)
                   ∧ pending_of k2 c = pending_of k1 c
      else r = -1 ∧ k1 = k.
Proof.
  intros Hr Hc Hv Hp Hnone Hfirst.
  destruct (tid tc =? tid p) eqn:Etid.
  - apply Z.eqb_eq in Etid.
    apply (overwrite_sender_None SIG_KILL (tid tc)) in Hnone.
    set (l1 := pending_signals tc ++ [mk_signal SIG_KILL (tid tc)]).
    set (k1 := set_thread k c (set_pending tc l1)).
    assert (Hk1 : kill vt (S fuel) true k (tid tc) SIG_KILL = Ret (k1, 0)).
    { unfold kill. rewrite Hv. simpl.
      rewrite (deref_Some _ _ _ Hc). simpl.
      unfold thread_current. rewrite Hr, (deref_Some _ _ _ Hc). simpl.
      rewrite (deref_Some _ _ _ Hp). simpl.
      rewrite <- Etid, Z.eqb_refl. simpl.
      unfold enqueue. rewrite Hnone. reflexivity. }
    assert (Hc1 : threads k1 !! c = Some (set_pending tc l1)).
    { unfold k1, set_thread. simpl. apply lookup_insert_eq. }
    assert (Hp1 : ∃ p1, threads k1 !! parent_thread tc = Some p1 ∧ tid p1 = tid tc).
    { unfold k1, set_thread. simpl.
      destruct (decide (c = parent_thread tc)) as [<-|Hne].
      - rewrite lookup_insert_eq. eauto.
      - rewrite lookup_insert_ne by done. eauto. }
    destruct Hp1 as (p1 & Hp1 & Htp1).
    exists k1, 0. split; [exact Hk1|]. split; [done|]. split.
    { unfold pending_of. by rewrite Hc1. }
    exists (set_thread k1 c (set_pending (set_pending tc l1) l1)). split.
    + unfold kill. rewrite Hv. simpl.
      rewrite (deref_Some _ _ _ Hc1). simpl.
      unfold thread_current.
      replace (running k1) with c by (symmetry; exact Hr).
      rewrite (deref_Some _ _ _ Hc1). simpl.
      rewrite (deref_Some _ _ _ Hp1). simpl.
      rewrite Htp1, Z.eqb_refl. simpl.
      unfold enqueue. simpl.
      unfold l1 at 1. rewrite (overwrite_sender_app_new _ _ _ Hnone). reflexivity.
    + unfold pending_of. rewrite Hc1. unfold set_thread. simpl.
      by rewrite lookup_insert_eq.
  - apply Z.eqb_neq in Etid.
    destruct Hfirst as [Heq|H1]; [congruence|].
    exists k, (-1). split; [|done].
    unfold kill. rewrite Hv. simpl.
    rewrite (deref_Some _ _ _ Hc). simpl.
    unfold thread_current. rewrite Hr, (deref_Some _ _ _ Hc). simpl.
    rewrite (deref_Some _ _ _ Hp). simpl.
    replace (tid tc =? tid p) with false by (symmetry; by apply Z.eqb_neq).
    rewrite H1. reflexivity.
Qed.

Lemma kill_self_KILL_first_iteration_witness :
  running (two_threads main_tcb) = main_tcb
  ∧ threads (two_threads main_tcb) !! main_tcb = Some main_thread
  ∧ two_tids (tid main_thread) = Some main_tcb
  ∧ threads (two_threads main_tcb) !! parent_thread main_thread = Some main_thread
  ∧ Forall (λ s, signum s ≠ SIG_KILL) (pending_signals main_thread)
  ∧ (tid main_thread = tid main_thread ∨ tid main_thread = 1)
  ∧ ∃ k1 r,
      kill two_tids 1 true (two_threads main_tcb) (tid main_thread) SIG_KILL = Ret (k1, r)
      ∧ if tid main_thread =? tid main_thread
        then r = 0
             ∧ pending_of k1 main_tcb
               = Some (pending_signals main_thread ++ [mk_signal SIG_KILL (tid main_thread)])
             ∧ ∃ k2, kill two_tids 1 true k1 (tid main_thread) SIG_KILL = Ret (k2, 0)
                     ∧ pending_of k2 main_tcb = pending_of k1 main_tcb
        else r = -1 ∧ k1 = two_threads main_tcb.
Proof.
  assert (H1 : running (two_threads main_tcb) = main_tcb) by reflexivity.
  assert (H2 : threads (two_threads main_tcb) !! main_tcb = Some main_thread)
    by reflexivity.
  assert (H3 : two_tids (tid main_thread) = Some main_tcb) by reflexivity.
  assert (H4 : threads (two_threads main_tcb) !! parent_thread main_thread
               = Some main_thread) by reflexivity.
  assert (H5 : Forall (λ s, signum s ≠ SIG_KILL) (pending_signals main_thread))
    by constructor.
  assert (H6 : tid main_thread = tid main_thread ∨ tid main_thread = 1)
    by (left; reflexivity).
  repeat (split; [assumption|]).
  exact (kill_self_KILL_first_iteration two_tids 0 (two_threads main_tcb)
           main_tcb main_thread main_thread H1 H2 H3 H4 H5 H6).
Defined.

(** C3, as stated, fails: the child thread (TID 3, parent TID 1) killing
    itself gets -1 and no record is enqueued; the first iteration
    compares its TID with its parent's and the walk stops at the root. *)
Lemma kill_self_child_of_root_fails :
  kill two_tids 5 true (two_threads child_tcb) 3 SIG_KILL
  = Ret (two_threads child_tcb, -1).
Proof. reflexivity. Qed.

(** ** At most one pending [SIG_KILL] and one pending [SIG_USR] *)

Lemma count_sig_cons sig s l :
  count_sig sig (s :: l)
  = ((if decide (signum s = sig) then 1 else 0) + count_sig sig l)%nat.
Proof.
  unfold count_sig. rewrite filter_cons.
  destruct (decide (signum s = sig)); reflexivity.
Qed.

Lemma count_sig_app sig l1 l2 :
  count_sig sig (l1 ++ l2) = (count_sig sig l1 + count_sig sig l2)%nat.
Proof. unfold count_sig. by rewrite filter_app, length_app. Qed.

Lemma overwrite_sender_count sig from l l' sig' :
  overwrite_sender sig from l = Some l' → count_sig sig' l' = count_sig sig' l.
Proof.
  revert l'. induction l as [|s l IH]; simpl; intros l' H; [done|].
  destruct (signum s =? sig).
  - inversion H; subst. by rewrite !count_sig_cons.
  - destruct (overwrite_sender sig from l) as [l0|]; [|done].
    inversion H; subst. rewrite !count_sig_cons. by rewrite (IH l0).
Qed.

Lemma overwrite_sender_length sig from l l' :
  overwrite_sender sig from l = Some l' → length l' = length l.
Proof.
  revert l'. induction l as [|s l IH]; simpl; intros l' H; [done|].
  destruct (signum s =? sig).
  - by inversion H.
  - destruct (overwrite_sender sig from l) as [l0|]; [|done].
    inversion H; subst. simpl. by rewrite (IH l0).
Qed.

Lemma overwrite_sender_None_count sig from l :
  overwrite_sender sig from l = None → count_sig sig l = 0%nat.
Proof.
  induction l as [|s l IH]; simpl; [done|].
  destruct (signum s =? sig) eqn:E; [done|].
  apply Z.eqb_neq in E. rewrite fmap_None. intros H.
  rewrite count_sig_cons, (IH H). by destruct (decide (signum s = sig)).
Qed.

Lemma enqueue_at_most_one ok k target t sig from k' a l :
  sig = SIG_USR ∨ sig = SIG_KILL →
  threads k !! target = Some t →
  enqueue ok k target t sig from = Ret k' →
  pending_of k a = Some l → at_most_one l →
  ∃ l', pending_of k' a = Some l' ∧ at_most_one l'.
Proof.
  intros Hsig Ht He Ha Hinv. unfold enqueue in He.
  assert (Hl : a = target → l = pending_signals t).
  { intros ->. unfold pending_of in Ha. rewrite Ht in Ha. by inversion Ha. }
  destruct (overwrite_sender sig from (pending_signals t)) as [l0|] eqn:Eo.
  - inversion He; subst k'. unfold pending_of, set_thread; simpl.
    destruct (decide (target = a)) as [->|Hne].
    + rewrite lookup_insert_eq. simpl. eexists; split; [done|].
      rewrite (Hl eq_refl) in Hinv. unfold at_most_one in *.
      by rewrite !(overwrite_sender_count _ _ _ _ _ Eo).
    + rewrite lookup_insert_ne by done. eauto.
  - destruct ok; [|done]. inversion He; subst k'.
    unfold pending_of, set_thread; simpl.
    destruct (decide (target = a)) as [->|Hne].
    + rewrite lookup_insert_eq. simpl. eexists; split; [done|].
      rewrite (Hl eq_refl) in Hinv. unfold at_most_one in *.
      apply overwrite_sender_None_count in Eo.
      rewrite !count_sig_app. unfold count_sig at 2 4. simpl.
      destruct Hinv as [HK HU].
      destruct Hsig as [-> | ->]; simpl;
        repeat (rewrite filter_cons; simpl);
        repeat case_decide; simpl; try done; try lia.
    + rewrite lookup_insert_ne by done. eauto.
Qed.

Lemma kill_at_most_one vt fuel ok k tid_ sig k' r a l :
  kill vt fuel ok k tid_ sig = Ret (k', r) →
  pending_of k a = Some l → at_most_one l →
  ∃ l', pending_of k' a = Some l' ∧ at_most_one l'.
Proof.
  intros Hk Ha Hinv. unfold kill in Hk.
  destruct (vt tid_) as [target|]; [|inversion Hk; subst; eauto].
  destruct (sig =? SIG_UBLOCK) eqn:E2.
  { unfold deref in Hk. destruct (threads k !! target) as [t|]; [|done].
    simpl in Hk.
    destruct (negb (Z.land (sigmask t) 4 =? 0)); [inversion Hk; subst; eauto|].
    destruct (negb (bool_decide (status t = THREAD_BLOCKED)));
      inversion Hk; subst; eauto. }
  destruct (sig =? SIG_USR) eqn:E3.
  { apply Z.eqb_eq in E3. unfold deref in Hk.
    destruct (threads k !! target) as [t|] eqn:Et; [|done]. simpl in Hk.
    destruct (negb (Z.land (sigmask t) 8 =? 0)); [inversion Hk; subst; eauto|].
    destruct (thread_current k) as [cur|]; [|done]. simpl in Hk.
    destruct (enqueue ok k target t sig (tid cur)) as [k1|] eqn:Ee; [|done].
    inversion Hk; subst k1 r.
    exact (enqueue_at_most_one _ _ _ _ _ _ _ _ _ (or_introl E3) Et Ee Ha Hinv). }
  destruct (sig =? SIG_KILL) eqn:E4; [|inversion Hk; subst; eauto].
  apply Z.eqb_eq in E4. unfold deref in Hk.
  destruct (threads k !! target) as [t|] eqn:Et; [|done]. simpl in Hk.
  destruct (thread_current k) as [cur|]; [|done]. simpl in Hk.
  destruct (parent_walk fuel k (tid cur) t) as [found|]; [|done]. simpl in Hk.
  destruct found; simpl in Hk; [|inversion Hk; subst; eauto].
  destruct (enqueue ok k target t sig (tid cur)) as [k1|] eqn:Ee; [|done].
  inversion Hk; subst k1 r.
  exact (enqueue_at_most_one _ _ _ _ _ _ _ _ _ (or_intror E4) Et Ee Ha Hinv).
Qed.

(** With at most one record of [sig] on the list, the scan of [kill]
    rewrites every record of [sig]. *)
Lemma overwrite_sender_resend sig from l l' :
  (count_sig sig l ≤ 1)%nat →
  overwrite_sender sig from l = Some l' → l' = resend sig from <$> l.
Proof.
  revert l'. induction l as [|s l IH]; simpl; intros l' Hc H; [done|].
  rewrite count_sig_cons in Hc. unfold resend at 1.
  destruct (signum s =? sig) eqn:E.
  - apply Z.eqb_eq in E. inversion H; subst l'. rewrite E. f_equal.
    destruct (decide (signum s = sig)); [|done].
    assert (Hz : count_sig sig l = 0%nat) by lia.
    clear -Hz. induction l as [|s' l IH]; [done|].
    rewrite count_sig_cons in Hz. rewrite fmap_cons.
    destruct (decide (signum s' = sig)); [lia|].
    unfold resend at 1. apply Z.eqb_neq in n. rewrite n. f_equal. apply IH. lia.
  - destruct (overwrite_sender sig from l) as [l0|]; [|done].
    inversion H; subst l'. f_equal. apply IH; [|done].
    destruct (decide (signum s = sig)); lia.
Qed.

Lemma overwrite_sender_Some_count sig from l l' :
  overwrite_sender sig from l = Some l' → count_sig sig l ≠ 0%nat.
Proof.
  revert l'. induction l as [|s l IH]; simpl; intros l' H; [done|].
  rewrite count_sig_cons.
  destruct (signum s =? sig) eqn:E.
  - apply Z.eqb_eq in E. destruct (decide (signum s = sig)); [lia|done].
  - destruct (overwrite_sender sig from l) as [l0|] eqn:Eo; [|done].
    specialize (IH l0 eq_refl). lia.
Qed.

Lemma kill_accepted_enqueues vt fuel ok k tid_ sig a t c k' :
  vt tid_ = Some a →
  sig = SIG_USR ∨ sig = SIG_KILL →
  threads k !! a = Some t →
  threads k !! running k = Some c →
  kill vt fuel ok k tid_ sig = Ret (k', 0) →
  enqueue ok k a t sig (tid c) = Ret k'.
Proof.
  intros Hv Hsig Ht Hc Hk. unfold kill in Hk. rewrite Hv in Hk.
  unfold thread_current, deref in Hk. rewrite Ht, Hc in Hk. simpl in Hk.
  destruct Hsig as [-> | ->]; simpl in Hk.
  - destruct (negb (Z.land (sigmask t) 8 =? 0)); [by inversion Hk|].
    destruct (enqueue ok k a t SIG_USR (tid c)) as [k1|]; simpl in Hk; [|done].
    by inversion Hk.
  - destruct (parent_walk fuel k (tid c) t) as [found|]; simpl in Hk; [|done].
    destruct found; simpl in Hk; [|by inversion Hk].
    destruct (enqueue ok k a t SIG_KILL (tid c)) as [k1|]; simpl in Hk; [|done].
    by inversion Hk.
Qed.

Lemma enqueue_pending ok k a t sig from k' :
  (count_sig sig (pending_signals t) ≤ 1)%nat →
  enqueue ok k a t sig from = Ret k' →
  pending_of k' a
  = Some (if bool_decide (count_sig sig (pending_signals t) = 0%nat)
          then pending_signals t ++ [mk_signal sig from]
          else resend sig from <$> pending_signals t).
Proof.
  intros Hc He. unfold enqueue in He.
  destruct (overwrite_sender sig from (pending_signals t)) as [l0|] eqn:Eo.
  - inversion He; subst k'. unfold pending_of, set_thread; simpl.
    rewrite lookup_insert_eq. simpl.
    rewrite bool_decide_eq_false_2 by (by eapply overwrite_sender_Some_count).
    f_equal. by apply overwrite_sender_resend.
  - destruct ok; [|done]. inversion He; subst k'.
    unfold pending_of, set_thread; simpl. rewrite lookup_insert_eq. simpl.
    rewrite bool_decide_eq_true_2 by (by eapply overwrite_sender_None_count).
    done.
Qed.

(** [enqueue] writes the pending list of the target and nothing else. *)
Lemma enqueue_frame ok k target t sig from k' :
  threads k !! target = Some t →
  enqueue ok k target t sig from = Ret k' →
  running k' = running k ∧ sigsets k' = sigsets k
  ∧ unblock_list k' = unblock_list k
  ∧ ∀ p, match threads k !! p with
         | Some u => ∃ u', threads k' !! p = Some u' ∧ same_but_pending u u'
                           ∧ (p ≠ target → u' = u)
         | None => threads k' !! p = None
         end.
Proof.
  intros Ht H.
  assert (∃ l, k' = set_thread k target (set_pending t l)) as [l ->].
  { unfold enqueue in H. destruct (overwrite_sender _ _ _).
    - inversion H. eauto.
    - destruct ok; [|done]. inversion H. eauto. }
  split; [done|]. split; [done|]. split; [done|].
  intros p. unfold set_thread. simpl.
  destruct (decide (p = target)) as [->|Hne].
  - rewrite Ht, lookup_insert_eq. eexists. split; [done|]. split; [|done].
    by unfold same_but_pending.
  - rewrite lookup_insert_ne by done.
    destruct (threads k !! p) as [u|]; [|done].
    exists u. split; [done|]. split; [by unfold same_but_pending|done].
Qed.

(** [kill] writes no field of a control block but the pending list. *)
Lemma kill_keeps_fields vt fuel ok k tid_ sig k' r a u :
  kill vt fuel ok k tid_ sig = Ret (k', r) →
  threads k !! a = Some u →
  ∃ u', threads k' !! a = Some u' ∧ same_but_pending u u'.
Proof.
  intros Hk Ha.
  assert (Hsame : ∃ u', threads k !! a = Some u' ∧ same_but_pending u u').
  { exists u. split; [done|]. by unfold same_but_pending. }
  assert (He : ∀ target t from k1, threads k !! target = Some t →
            enqueue ok k target t sig from = Ret k1 →
            ∃ u', threads k1 !! a = Some u' ∧ same_but_pending u u').
  { intros target t from k1 Ht E.
    destruct (enqueue_frame _ _ _ _ _ _ _ Ht E) as (_ & _ & _ & F).
    specialize (F a). rewrite Ha in F. destruct F as (u' & G1 & G2 & _). eauto. }
  unfold kill in Hk.
  destruct (vt tid_) as [target|]; [|inversion Hk; subst; eauto].
  destruct (sig =? SIG_UBLOCK).
  { unfold deref in Hk. destruct (threads k !! target) as [t|]; [|done].
    simpl in Hk.
    destruct (negb (Z.land (sigmask t) 4 =? 0)); [inversion Hk; subst; eauto|].
    destruct (negb (bool_decide (status t = THREAD_BLOCKED)));
      inversion Hk; subst; eauto. }
  destruct (sig =? SIG_USR).
  { unfold deref in Hk.
    destruct (threads k !! target) as [t|] eqn:Et; [|done]. simpl in Hk.
    destruct (negb (Z.land (sigmask t) 8 =? 0)); [inversion Hk; subst; eauto|].
    destruct (thread_current k) as [cur|]; [|done]. simpl in Hk.
    destruct (enqueue ok k target t sig (tid cur)) as [k1|] eqn:Ee; [|done].
    inversion Hk; subst k1 r. eauto. }
  destruct (sig =? SIG_KILL); [|inversion Hk; subst; eauto].
  unfold deref in Hk.
  destruct (threads k !! target) as [t|] eqn:Et; [|done]. simpl in Hk.
  destruct (thread_current k) as [cur|]; [|done]. simpl in Hk.
  destruct (parent_walk fuel k (tid cur) t) as [found|]; [|done]. simpl in Hk.
  destruct found; simpl in Hk; [|inversion Hk; subst; eauto].
  destruct (enqueue ok k target t sig (tid cur)) as [k1|] eqn:Ee; [|done].
  inversion Hk; subst k1 r. eauto.
Qed.

Lemma kill_reach_keeps_fields vt k k' a t :
  kill_reach vt k k' → threads k !! a = Some t →
  ∃ t', threads k' !! a = Some t' ∧ same_but_pending t t'.
Proof.
  intros Hreach Ht.
  induction Hreach as [|k1 k2 cur fuel ok tid_ sig r _ IH Hstep].
  - exists t. split; [done|]. by unfold same_but_pending.
  - destruct IH as (t1 & H1 & S1).
    destruct (kill_keeps_fields _ _ _ _ _ _ _ _ a t1 Hstep H1) as (t2 & H2 & S2).
    exists t2. split; [done|].
    unfold same_but_pending in *. intuition congruence.
Qed.

(** A [kill] of [SIG_USR] at a thread that does not mask it, or of
    [SIG_KILL] by a thread with the TID of the target's parent, is
    accepted when [malloc] finds memory. *)
Lemma kill_accepted vt fuel k tid_ sig a t c :
  vt tid_ = Some a →
  threads k !! a = Some t →
  threads k !! running k = Some c →
  sig = SIG_USR ∧ Z.land (sigmask t) 8 = 0
  ∨ sig = SIG_KILL
    ∧ (∃ pt, threads k !! parent_thread t = Some pt ∧ tid pt = tid c) →
  ∃ k', kill vt (S fuel) true k tid_ sig = Ret (k', 0).
Proof.
  intros Hv Ht Hc Hsig.
  assert (He : ∃ k', enqueue true k a t sig (tid c) = Ret k').
  { unfold enqueue. destruct (overwrite_sender _ _ _); eauto. }
  destruct He as [k' He]. exists k'.
  unfold kill. rewrite Hv. unfold thread_current, deref. rewrite Ht, Hc.
  destruct Hsig as [[-> Hm] | [-> (pt & Hpt & Htid)]]; simpl.
  - rewrite Hm. simpl. rewrite He. reflexivity.
  - unfold deref. rewrite Hpt. simpl. rewrite Htid, Z.eqb_refl. simpl.
    rewrite He. reflexivity.
Qed.

(** C6: from a state in which a thread has no pending signal, after any
    sequence of [kill] calls (any callers, targets and signal numbers)
    the thread's pending list [l] holds at most one [SIG_KILL] record and
    at most one [SIG_USR] record.  A further [kill] of [SIG_USR] or
    [SIG_KILL] at the thread that returns 0 leaves, when [l] holds a
    record of the signal, the list [l] with the sender of that record
    overwritten by the TID of the caller and nothing enqueued; when [l]
    holds none, it leaves [l] with one record of the caller appended.
    Such a call does return 0 when [malloc] finds memory and the signal
    is [SIG_USR], which the thread does not mask, or [SIG_KILL] from a
    caller with the TID of the thread's parent. *)
Theorem pending_at_most_one_KILL_and_USR vt k k' a t :
  threads k !! a = Some t →
  pending_signals t = [] →
  kill_reach vt k k' →
  ∃ l, pending_of k' a = Some l
       ∧ (count_sig SIG_KILL l ≤ 1)%nat ∧ (count_sig SIG_USR l ≤ 1)%nat
       ∧ (∀ cur c fuel ok tid_ sig k'',
            vt tid_ = Some a →
            sig = SIG_USR ∨ sig = SIG_KILL →
            threads k' !! cur = Some c →
            kill vt fuel ok (set_running k' cur) tid_ sig = Ret (k'', 0) →
            pending_of k'' a
            = Some (if bool_decide (count_sig sig l = 0%nat)
                    then l ++ [mk_signal sig (tid c)]
                    else resend sig (tid c) <$> l))
       ∧ (∀ cur c fuel tid_ sig,
            vt tid_ = Some a →
            threads k' !! cur = Some c →
            sig = SIG_USR ∧ Z.land (sigmask t) 8 = 0
            ∨ sig = SIG_KILL
              ∧ (∃ pt, threads k' !! parent_thread t = Some pt
                       ∧ tid pt = tid c) →
            ∃ k'', kill vt (S fuel) true (set_running k' cur) tid_ sig
                   = Ret (k'', 0)).
Proof.
  intros Ht Hnil Hreach.
  assert (Hinv : ∃ l, pending_of k' a = Some l ∧ at_most_one l).
  { induction Hreach as [|k1 k2 cur fuel ok tid_ sig r _ IH Hstep].
    - exists []. unfold pending_of. rewrite Ht. simpl. rewrite Hnil.
      repeat split; unfold count_sig; simpl; lia.
    - destruct IH as (l & Hl & Hinv).
      eapply (kill_at_most_one _ _ _ _ _ _ _ _ a l) in Hstep; eauto. }
  destruct Hinv as (l & Hl & Hk & Hu). exists l.
  destruct (kill_reach_keeps_fields _ _ _ _ _ Hreach Ht) as (ta & Ea & _ & _ & Hmask & Hpar).
  unfold pending_of in Hl. rewrite Ea in Hl. simpl in Hl.
  inversion Hl; subst l.
  split; [by unfold pending_of; rewrite Ea|].
  split; [exact Hk|]. split; [exact Hu|]. split.
  - intros cur c fuel ok tid_ sig k'' Hv Hsig Hc Hkill.
    eapply kill_accepted_enqueues in Hkill;
      [ | exact Hv | exact Hsig | exact Ea | exact Hc].
    eapply enqueue_pending; [|exact Hkill].
    destruct Hsig as [-> | ->]; assumption.
  - intros cur c fuel tid_ sig Hv Hc Hsig.
    apply (kill_accepted vt fuel (set_running k' cur) tid_ sig a ta c);
      [exact Hv | exact Ea | exact Hc |].
    rewrite Hmask, Hpar. exact Hsig.
Qed.

Lemma run_kills_reach vt script k0 k :
  kill_reach vt k0 k → kill_reach vt k0 (run_kills vt script k).
Proof.
  revert k. induction script as [|[[cur tid_] sig] rest IH]; simpl; intros k Hk.
  - exact Hk.
  - destruct (kill vt 8 true (set_running k cur) tid_ sig) as [[k' r]|e] eqn:E.
    + apply IH. eapply kill_reach_step; eauto.
    + exact Hk.
Qed.

Example kill_script_pending :
  pending_of (run_kills two_tids kill_script (two_threads child_tcb)) child_tcb
  = Some [mk_signal SIG_USR 3; mk_signal SIG_KILL 1].
Proof. vm_compute. reflexivity. Qed.


Lemma pending_at_most_one_KILL_and_USR_witness :
  threads (two_threads child_tcb) !! child_tcb = Some child_thread
  ∧ pending_signals child_thread = []
  ∧ kill_reach two_tids (two_threads child_tcb)
      (run_kills two_tids kill_script (two_threads child_tcb))
  ∧ ∃ l, pending_of (run_kills two_tids kill_script (two_threads child_tcb))
           child_tcb = Some l
         ∧ (count_sig SIG_KILL l ≤ 1)%nat ∧ (count_sig SIG_USR l ≤ 1)%nat
         ∧ (∀ cur c fuel ok tid_ sig k'',
             two_tids tid_ = Some child_tcb →
             sig = SIG_USR ∨ sig = SIG_KILL →
             threads (run_kills two_tids kill_script (two_threads child_tcb))
               !! cur = Some c →
             kill two_tids fuel ok
               (set_running
                  (run_kills two_tids kill_script (two_threads child_tcb)) cur)
               tid_ sig = Ret (k'', 0) →
             pending_of k'' child_tcb
             = Some (if bool_decide (count_sig sig l = 0%nat)
                     then l ++ [mk_signal sig (tid c)]
                     else resend sig (tid c) <$> l))
         ∧ (∀ cur c fuel tid_ sig,
              two_tids tid_ = Some child_tcb →
              threads (run_kills two_tids kill_script (two_threads child_tcb))
                !! cur = Some c →
              sig = SIG_USR ∧ Z.land (sigmask child_thread) 8 = 0
              ∨ sig = SIG_KILL
                ∧ (∃ pt, threads
                           (run_kills two_tids kill_script
                              (two_threads child_tcb))
                         !! parent_thread child_thread = Some pt
                         ∧ tid pt = tid c) →
              ∃ k'', kill two_tids (S fuel) true
                       (set_running
                          (run_kills two_tids kill_script
                             (two_threads child_tcb)) cur)
                       tid_ sig
                     = Ret (k'', 0)).
Proof.
  assert (H1 : threads (two_threads child_tcb) !! child_tcb = Some child_thread)
    by reflexivity.
  assert (H2 : pending_signals child_thread = []) by reflexivity.
  assert (H3 : kill_reach two_tids (two_threads child_tcb)
                 (run_kills two_tids kill_script (two_threads child_tcb)))
    by apply run_kills_reach, kill_reach_refl.
  split; [exact H1|]. split; [exact H2|]. split; [exact H3|].
  exact (pending_at_most_one_KILL_and_USR two_tids _ _ child_tcb child_thread
           H1 H2 H3).
Defined.

(** After the script, with [SIG_USR] of thread 3 and [SIG_KILL] of thread 1
    pending, a [kill (3, SIG_USR)] of thread 1 rewrites the sender of the
    [SIG_USR] record where it stands. *)
Example kill_script_then_USR :
  (λ r : kernel * Z, (pending_of r.1 child_tcb, r.2))
  <$> (match kill two_tids 8 true
               (set_running
                  (run_kills two_tids kill_script (two_threads child_tcb))
                  main_tcb) 3 SIG_USR with
       | Ret r => Some r
       | Abort _ => None
       end)
  = Some (Some [mk_signal SIG_USR 1; mk_signal SIG_KILL 1], 0).
Proof. vm_compute. reflexivity. Qed.

(** A [kill] that finds a matching record keeps the length of the list
    and the signal numbers in it. *)
Lemma overwrite_sender_signums sig from l l' :
  overwrite_sender sig from l = Some l' → signum <$> l' = signum <$> l.
Proof.
  revert l'. induction l as [|s l IH]; simpl; intros l' H; [done|].
  destruct (signum s =? sig).
  - by inversion H.
  - destruct (overwrite_sender sig from l) as [l0|]; [|done].
    inversion H; subst. rewrite !fmap_cons. f_equal. by apply IH.
Qed.

(** ** [sigprocmask] *)

Lemma wrap16_small x : 0 ≤ x < 2 ^ 16 → wrap16 x = x.
Proof. intros H. unfold wrap16. by apply Z.mod_small. Qed.

Lemma lor_bound16 a b : 0 ≤ a < 2 ^ 16 → 0 ≤ b < 2 ^ 16 → 0 ≤ Z.lor a b < 2 ^ 16.
Proof.
  intros Ha Hb. split.
  - apply Z.lor_nonneg. lia.
  - destruct (Z.eq_dec (Z.lor a b) 0) as [->|Hne]; [lia|].
    apply Z.log2_lt_pow2.
    + assert (0 ≤ Z.lor a b) by (apply Z.lor_nonneg; lia). lia.
    + rewrite Z.log2_lor by lia.
      apply Z.max_lub_lt.
      * destruct (Z.eq_dec a 0) as [->|]; [simpl; lia|]. apply Z.log2_lt_pow2; lia.
      * destruct (Z.eq_dec b 0) as [->|]; [simpl; lia|]. apply Z.log2_lt_pow2; lia.
Qed.

Lemma enqueue_existing ok k target t sig from l' :
  overwrite_sender sig from (pending_signals t) = Some l' →
  enqueue ok k target t sig from = Ret (set_thread k target (set_pending t l'))
  ∧ length l' = length (pending_signals t)
  ∧ signum <$> l' = signum <$> pending_signals t.
Proof.
  intros H. unfold enqueue. rewrite H. split; [done|]. split.
  - by eapply overwrite_sender_length.
  - by eapply overwrite_sender_signums.
Qed.

(** C8 (amended): [sigprocmask (SIG_BLOCK, set, old)] with current mask
    [m] and [*set = s] stores [m] in [*old] when [old] is not null and
    then sets the mask to [m | s] when [old] is null or names another
    object than [set]; when [old] and [set] are the same object the store
    comes first and the mask stays [m].  In both cases the mask read
    afterwards is the union of what [*old] and [*set] hold after the
    call. *)
Theorem sigprocmask_SIG_BLOCK k t set oldset s :
  threads k !! running k = Some t →
  set ≠ 0 →
  sigsets k !! set = Some s →
  oldset = 0 ∨ is_Some (sigsets k !! oldset) →
  0 ≤ sigmask t < 2 ^ 16 →
  0 ≤ s < 2 ^ 16 →
  ∃ k',
    sigprocmask k SIG_BLOCK set oldset = Ret (k', 0)
    ∧ (oldset ≠ 0 → sigsets k' !! oldset = Some (sigmask t))
    ∧ sigmask_of k' (running k')
      = Some (if bool_decide (oldset = set) then sigmask t
              else Z.lor (sigmask t) s)
    ∧ (oldset ≠ 0 →
       ∃ o s', sigsets k' !! oldset = Some o ∧ sigsets k' !! set = Some s'
               ∧ sigmask_of k' (running k') = Some (Z.lor o s')).
Proof.
  intros Ht Hset Hs Hold Hm Hsr.
  assert (Hne : (set =? 0) = false) by (by apply Z.eqb_neq).
  unfold sigprocmask, thread_current. rewrite (deref_Some _ _ _ Ht). simpl.
  destruct (oldset =? 0) eqn:Eo; simpl.
  - apply Z.eqb_eq in Eo. subst oldset.
    unfold load_set. rewrite Hne, Hs. simpl.
    eexists. split; [reflexivity|]. split; [done|]. split; [|done].
    unfold sigmask_of, set_thread. simpl. rewrite lookup_insert_eq. simpl.
    rewrite bool_decide_eq_false_2 by congruence.
    by rewrite wrap16_small by (by apply lor_bound16).
  - apply Z.eqb_neq in Eo.
    destruct Hold as [?|[o Ho]]; [done|].
    unfold store_set.
    replace (oldset =? 0) with false by (symmetry; by apply Z.eqb_neq).
    rewrite Ho. simpl. rewrite (wrap16_small (sigmask t)) by done.
    unfold load_set. simpl. rewrite Hne.
    destruct (decide (oldset = set)) as [->|Hd].
    + rewrite lookup_insert_eq. simpl.
      eexists. split; [reflexivity|]. simpl.
      rewrite bool_decide_eq_true_2 by done.
      assert (Hmm : wrap16 (Z.lor (sigmask t) (sigmask t)) = sigmask t).
      { rewrite Z.lor_diag. by apply wrap16_small. }
      split; [intros _; by rewrite lookup_insert_eq|].
      split.
      * unfold sigmask_of. simpl. rewrite lookup_insert_eq. simpl. by rewrite Hmm.
      * intros _. exists (sigmask t), (sigmask t).
        rewrite lookup_insert_eq. split; [done|]. split; [done|].
        unfold sigmask_of. simpl. rewrite lookup_insert_eq. simpl.
        by rewrite Hmm, Z.lor_diag.
    + rewrite lookup_insert_ne by done. rewrite Hs. simpl.
      eexists. split; [reflexivity|]. simpl.
      rewrite bool_decide_eq_false_2 by done.
      assert (Hmm : wrap16 (Z.lor (sigmask t) s) = Z.lor (sigmask t) s).
      { by apply wrap16_small, lor_bound16. }
      split; [intros _; by rewrite lookup_insert_eq|].
      split.
      * unfold sigmask_of. simpl. rewrite lookup_insert_eq. simpl. by rewrite Hmm.
      * intros _. exists (sigmask t), s.
        rewrite lookup_insert_eq, lookup_insert_ne by done.
        split; [done|]. split; [done|].
        unfold sigmask_of. simpl. rewrite lookup_insert_eq. simpl. by rewrite Hmm.
Qed.

(** C8, as stated, fails when [set] and [old] are the same object: with
    mask 1 and [*set = 8] the mask afterwards is 1, not [1 | 8 = 9]. *)
Lemma sigprocmask_block_aliased_keeps_mask :
  sigmask_of (two_threads child_tcb) child_tcb = Some 1
  ∧ sigsets (two_threads child_tcb) !! 0x1000 = Some 8
  ∧ ∃ k', sigprocmask (two_threads child_tcb) SIG_BLOCK 0x1000 0x1000 = Ret (k', 0)
          ∧ sigmask_of k' child_tcb = Some 1
          ∧ Z.lor 1 8 = 9.
Proof.
  split; [reflexivity|]. split; [reflexivity|].
  eexists. split; [reflexivity|]. split; reflexivity.
Qed.

Lemma sigprocmask_SIG_BLOCK_witness :
  threads (two_threads child_tcb) !! running (two_threads child_tcb)
  = Some child_thread
  ∧ 0x1000 ≠ 0
  ∧ sigsets (two_threads child_tcb) !! 0x1000 = Some 8
  ∧ (0x1002 = 0 ∨ is_Some (sigsets (two_threads child_tcb) !! 0x1002))
  ∧ 0 ≤ sigmask child_thread < 2 ^ 16
  ∧ 0 ≤ 8 < 2 ^ 16
  ∧ ∃ k',
      sigprocmask (two_threads child_tcb) SIG_BLOCK 0x1000 0x1002 = Ret (k', 0)
      ∧ (0x1002 ≠ 0 → sigsets k' !! 0x1002 = Some (sigmask child_thread))
      ∧ sigmask_of k' (running k')
        = Some (if bool_decide (0x1002 = 0x1000) then sigmask child_thread
                else Z.lor (sigmask child_thread) 8)
      ∧ (0x1002 ≠ 0 →
         ∃ o s', sigsets k' !! 0x1002 = Some o ∧ sigsets k' !! 0x1000 = Some s'
                 ∧ sigmask_of k' (running k') = Some (Z.lor o s')).
Proof.
  assert (H1 : threads (two_threads child_tcb) !! running (two_threads child_tcb)
               = Some child_thread) by reflexivity.
  assert (H2 : 0x1000 ≠ 0) by lia.
  assert (H3 : sigsets (two_threads child_tcb) !! 0x1000 = Some 8) by reflexivity.
  assert (H4 : 0x1002 = 0 ∨ is_Some (sigsets (two_threads child_tcb) !! 0x1002))
    by (right; eexists; reflexivity).
  assert (H5 : 0 ≤ sigmask child_thread < 2 ^ 16) by (simpl; lia).
  assert (H6 : 0 ≤ 8 < 2 ^ 16) by lia.
  repeat (split; [assumption|]).
  exact (sigprocmask_SIG_BLOCK (two_threads child_tcb) child_thread
           0x1000 0x1002 8 H1 H2 H3 H4 H5 H6).
Defined.
(** * The allocator: properties *)

(** ** Memory *)

Lemma byte_of_range i v : 0 ≤ byte_of i v < 256.
Proof. unfold byte_of. apply Z.mod_pos_bound. lia. Qed.

Lemma load32_range m a : 0 ≤ load32 m a < 2 ^ 32.
Proof.
  unfold load32.
  pose proof (Z.mod_pos_bound (m a) 256).
  pose proof (Z.mod_pos_bound (m (a + 1)) 256).
  pose proof (Z.mod_pos_bound (m (a + 2)) 256).
  pose proof (Z.mod_pos_bound (m (a + 3)) 256).
  lia.
Qed.

Lemma load32_store32_eq m a v : load32 (store32 m a v) a = wrap v.
Proof.
  unfold load32, store32, wrap, SIZE_MOD, byte_of.
  rewrite Z.eqb_refl.
  replace (a + 1 =? a) with false by (symmetry; apply Z.eqb_neq; lia).
  replace (a + 2 =? a) with false by (symmetry; apply Z.eqb_neq; lia).
  replace (a + 3 =? a) with false by (symmetry; apply Z.eqb_neq; lia).
  replace (a + 2 =? a + 1) with false by (symmetry; apply Z.eqb_neq; lia).
  replace (a + 3 =? a + 1) with false by (symmetry; apply Z.eqb_neq; lia).
  replace (a + 3 =? a + 2) with false by (symmetry; apply Z.eqb_neq; lia).
  rewrite !Z.eqb_refl.
  rewrite !Z.mod_mod by lia.
  change (2 ^ (8 * 0)) with 1. change (2 ^ (8 * 1)) with 256.
  change (2 ^ (8 * 2)) with 65536. change (2 ^ (8 * 3)) with 16777216.
  change (2 ^ 8) with 256. change (2 ^ 16) with 65536.
  change (2 ^ 24) with 16777216. change (2 ^ 32) with 4294967296.
  Z.div_mod_to_equations. lia.
Qed.

Lemma load32_store32_ne m a b v :
  a + 4 ≤ b ∨ b + 4 ≤ a → load32 (store32 m a v) b = load32 m b.
Proof.
  intros H. unfold load32, store32.
  repeat match goal with
  | |- context [?x =? ?y] =>
      replace (x =? y) with false by (symmetry; apply Z.eqb_neq; lia)
  end.
  reflexivity.
Qed.

Lemma memset_inside m dst c n x : dst ≤ x < dst + n → memset m dst c n x = c mod 256.
Proof.
  intros H. unfold memset.
  replace (dst <=? x) with true by (symmetry; apply Z.leb_le; lia).
  replace (x <? dst + n) with true by (symmetry; apply Z.ltb_lt; lia).
  reflexivity.
Qed.

(** ** Inversion of monadic code *)

Lemma bind_Ret_inv {A B} (m : result A) (f : A → result B) (r : B) :
  (m ≫= f) = Ret r → ∃ a, m = Ret a ∧ f a = Ret r.
Proof. destruct m as [a|e]; simpl; [eauto|done]. Qed.

Lemma assert_Ret_inv b u : assert b = Ret u → b = true.
Proof. by destruct b. Qed.

Ltac inv_bind H :=
  let a := fresh "x" in
  let Ha := fresh "E" in
  apply bind_Ret_inv in H; destruct H as (a & Ha & H).

(** ** Positive free lists *)

Section Positive.

Variable L : layout.
Hypothesis sizeof_arena_nonneg : 0 ≤ sizeof_arena L.

Lemma desc_at_elem h i d : desc_at h i = Ret d → d ∈ descs h.
Proof.
  unfold desc_at. destruct (i <? 0); [done|].
  destruct (descs h !! Z.to_nat i) eqn:E; simpl; [|done].
  intros [= <-]. by eapply list_elem_of_lookup_2.
Qed.

Lemma desc_at_positive h i d :
  free_lists_positive h → desc_at h i = Ret d → Forall (λ b, 0 < b) (free_list d).
Proof.
  intros Hp Hd. apply desc_at_elem in Hd.
  unfold free_lists_positive in Hp. rewrite Forall_forall in Hp. by apply Hp.
Qed.

Lemma set_free_list_positive h i l h' :
  free_lists_positive h → Forall (λ b, 0 < b) l →
  set_free_list h i l = Ret h' → free_lists_positive h'.
Proof.
  intros Hp Hl H. unfold set_free_list in H. inv_bind H.
  injection H as <-. unfold free_lists_positive, set_descs; simpl.
  by apply Forall_insert.
Qed.

Lemma set_block_size_positive h b v :
  free_lists_positive h → free_lists_positive (set_block_size L h b v).
Proof. done. Qed.

Lemma push_back_positive h i b h' :
  free_lists_positive h → 0 < b → push_back h i b = Ret h' → free_lists_positive h'.
Proof.
  intros Hp Hb H. unfold push_back in H. inv_bind H.
  eapply set_free_list_positive; [done| |exact H].
  apply Forall_app. split; [by eapply desc_at_positive|by constructor].
Qed.

Lemma pop_front_positive h i h' b :
  free_lists_positive h → pop_front h i = Ret (h', b) →
  free_lists_positive h' ∧ 0 < b.
Proof.
  intros Hp H. unfold pop_front in H. inv_bind H.
  pose proof (desc_at_positive _ _ _ Hp E) as Hd.
  destruct (free_list x) as [|b0 rest]; [done|].
  inv_bind H. injection H as <- <-.
  inversion Hd; subst. split; [|done].
  by eapply set_free_list_positive.
Qed.

Lemma arena_to_block_value h a idx d b :
  arena_to_block L h a idx d = Ret b →
  a ≠ 0 ∧ b = a + sizeof_arena L + wrap (idx * block_size d).
Proof.
  unfold arena_to_block. intros H. inv_bind H. inv_bind H.
  apply assert_Ret_inv, negb_true_iff, Z.eqb_neq in E.
  by injection H as <-.
Qed.

Lemma wrap_nonneg x : 0 ≤ wrap x.
Proof. unfold wrap, SIZE_MOD. apply Z.mod_pos_bound. lia. Qed.

Lemma arena_to_block_positive h a idx d b :
  0 < a → arena_to_block L h a idx d = Ret b → 0 < b.
Proof.
  intros Ha H. apply arena_to_block_value in H as [_ ->].
  pose proof (wrap_nonneg (idx * block_size d)). lia.
Qed.

Lemma block_to_arena_positive h b size a :
  0 < b → block_to_arena L h b size = Ret a → 0 < a.
Proof.
  intros Hb H. unfold block_to_arena in H. inv_bind H.
  apply assert_Ret_inv, negb_true_iff, Z.eqb_neq in E.
  do 3 inv_bind H. injection H as <-.
  assert (0 ≤ pg_round_down L b); [|lia].
  unfold pg_round_down. apply Z.land_nonneg. lia.
Qed.

Lemma split_positive fuel : ∀ h a d bc idx h' bc',
  free_lists_positive h → 0 < a →
  split L fuel h a d bc idx = Ret (h', bc') → free_lists_positive h'.
Proof.
  induction fuel as [|fuel IH]; intros h a d bc idx h' bc' Hp Ha H;
    simpl in H; do 2 inv_bind H;
    (destruct (_ >? _) in H; [|by injection H as <- _]);
    inv_bind H;
    match goal with
    | x : (heap * Z)%type |- _ => destruct x as [h1 block_obj]
    end;
    match goal with
    | E : pop_front _ _ = _ |- _ =>
        apply (pop_front_positive _ _ _ _ Hp) in E as [Hp1 _]
    end;
    do 3 inv_bind H;
    match goal with
    | E : arena_to_block _ _ _ _ _ = Ret ?b |- _ =>
        apply (arena_to_block_positive _ _ _ _ _ Ha) in E;
        rename E into Hb2
    end;
    do 2 inv_bind H;
    match goal with
    | E : arena_to_block _ _ _ _ _ = Ret ?b |- _ =>
        apply (arena_to_block_positive _ _ _ _ _ Ha) in E;
        rename E into Hb1
    end;
    inv_bind H;
    match goal with
    | E : push_back _ _ _ = _ |- _ =>
        eapply push_back_positive in E; [|exact Hp1|exact Hb1];
        rename E into Hp4
    end;
    inv_bind H;
    match goal with
    | E : push_back _ _ _ = _ |- _ =>
        eapply push_back_positive in E; [|exact Hp4|exact Hb2];
        rename E into Hp5
    end;
    do 2 inv_bind H;
    (destruct (_ <=? _) in H; [by injection H as <- _|]).
  - done.
  - eapply IH; [exact Hp5|exact Ha|exact H].
Qed.

Lemma malloc_reuse_nonnull h d bc h' p :
  free_lists_positive h → malloc_reuse L h d bc = Ret (h', p) → 0 < p.
Proof.
  intros Hp H. unfold malloc_reuse in H. do 2 inv_bind H.
  pose proof (desc_at_positive _ _ _ Hp E0) as Hd.
  inv_bind H. inv_bind H. inv_bind H.
  destruct (bc =? d).
  - by apply (pop_front_positive _ _ _ _ Hp) in H as [_ ?].
  - inv_bind H. destruct x4 as [h1 bc1].
    assert (0 < x2) as Ha.
    { eapply block_to_arena_positive; [|exact E2].
      destruct (free_list x0) as [|b0 rest]; [done|].
      injection E1 as <-. by inversion Hd. }
    apply (split_positive _ _ _ _ _ _ _ _ Hp Ha) in E4.
    by apply (pop_front_positive _ _ _ _ E4) in H as [_ ?].
Qed.

End Positive.

(** ** A failed allocation changes nothing *)

Section Failure.

Variable L : layout.
Hypothesis sizeof_arena_nonneg : 0 ≤ sizeof_arena L.

Lemma palloc_get_multiple_answer h n h1 a :
  Forall (λ a, 0 ≤ a) (palloc_supply h) →
  palloc_get_multiple h n = (h1, a) →
  0 ≤ a ∧ (a = 0 → only_failed_get h h1).
Proof.
  intros Hs [= <- <-]. split.
  - destruct (palloc_supply h) as [|a0 rest]; simpl; [lia|]. by inversion Hs.
  - intros Ha. unfold only_failed_get; simpl. rewrite Ha. eauto 10.
Qed.

Lemma malloc_big_null h size h' :
  Forall (λ a, 0 ≤ a) (palloc_supply h) →
  malloc_big L h size = Ret (h', 0) → only_failed_get h h'.
Proof.
  intros Hs H. unfold malloc_big in H.
  destruct (palloc_get_multiple h _) as [h1 a] eqn:Eg.
  apply (palloc_get_multiple_answer _ _ _ _ Hs) in Eg as [Ha Hnull].
  destruct (a =? 0) eqn:Ea.
  - apply Z.eqb_eq in Ea. injection H as <-. auto.
  - apply Z.eqb_neq in Ea. injection H as _ H. lia.
Qed.

Lemma malloc_fresh_null h d h' :
  Forall (λ a, 0 ≤ a) (palloc_supply h) →
  malloc_fresh L h d = Ret (h', 0) → only_failed_get h h'.
Proof.
  intros Hs H. unfold malloc_fresh in H.
  destruct (palloc_get_multiple h 1) as [h1 a] eqn:Eg.
  apply (palloc_get_multiple_answer _ _ _ _ Hs) in Eg as [Ha Hnull].
  destruct (a =? 0) eqn:Ea.
  - apply Z.eqb_eq in Ea. injection H as <-. auto.
  - apply Z.eqb_neq in Ea. exfalso.
    inv_bind H. destruct x as [h3 j]. do 5 inv_bind H.
    match goal with
    | E : arena_to_block _ _ _ 0 _ = Ret ?b |- _ =>
        apply arena_to_block_value in E as [_ Hb]
    end.
    injection H as _ H. subst.
    match goal with
    | Hx : context [wrap ?e] |- _ => pose proof (wrap_nonneg e)
    end. lia.
Qed.

Lemma malloc_null h size h' :
  free_lists_positive h →
  Forall (λ a, 0 ≤ a) (palloc_supply h) →
  size ≠ 0 →
  malloc L h size = Ret (h', 0) → only_failed_get h h'.
Proof.
  intros Hp Hs Hsize H. unfold malloc in H.
  replace (size =? 0) with false in H by (symmetry; by apply Z.eqb_neq).
  inv_bind H. destruct x as [d bc].
  destruct (d =? desc_cnt h); [by eapply malloc_big_null|].
  destruct (bc =? desc_cnt h); [by eapply malloc_fresh_null|].
  apply (malloc_reuse_nonnull L sizeof_arena_nonneg _ _ _ _ _ Hp) in H. lia.
Qed.

(** C9: for a non-null [p] and [n > 0], when the [malloc (n)] inside
    [realloc (p, n)] returns null, [realloc] returns null, does not free
    [p] and copies nothing: memory, free lists, descriptors and the arena
    list are as before, and the only call to the page allocator is the
    request that was answered with null. *)
Theorem realloc_failure_keeps_old_block h p n h' :
  free_lists_positive h →
  Forall (λ a, 0 ≤ a) (palloc_supply h) →
  p ≠ 0 →
  0 < n →
  malloc L h n = Ret (h', 0) →
  realloc L h p n = Ret (h', 0)
  ∧ mem h' = mem h
  ∧ descs h' = descs h
  ∧ desc_cnt h' = desc_cnt h
  ∧ arena_list h' = arena_list h
  ∧ ∃ page_cnt, palloc_log h' = palloc_log h ++ [PallocGet page_cnt 0].
Proof.
  intros Hp Hs Hnull Hn Hm. split.
  - unfold realloc.
    replace (n =? 0) with false by (symmetry; apply Z.eqb_neq; lia).
    rewrite Hm. simpl. by rewrite andb_false_r.
  - apply malloc_null in Hm; [exact Hm|done|done|lia].
Qed.

End Failure.


Lemma realloc_failure_keeps_old_block_witness :
  0 ≤ sizeof_arena i386
  ∧ free_lists_positive one_big_block
  ∧ Forall (λ a, 0 ≤ a) (palloc_supply one_big_block)
  ∧ page0 + 24 ≠ 0
  ∧ 0 < 5000
  ∧ malloc i386 one_big_block 5000
    = Ret ((palloc_get_multiple one_big_block 2).1, 0)
  ∧ (realloc i386 one_big_block (page0 + 24) 5000
     = Ret ((palloc_get_multiple one_big_block 2).1, 0)
     ∧ mem (palloc_get_multiple one_big_block 2).1 = mem one_big_block
     ∧ descs (palloc_get_multiple one_big_block 2).1 = descs one_big_block
     ∧ desc_cnt (palloc_get_multiple one_big_block 2).1 = desc_cnt one_big_block
     ∧ arena_list (palloc_get_multiple one_big_block 2).1
       = arena_list one_big_block
     ∧ ∃ page_cnt,
         palloc_log (palloc_get_multiple one_big_block 2).1
         = palloc_log one_big_block ++ [PallocGet page_cnt 0]).
Proof.
  assert (H0 : 0 ≤ sizeof_arena i386) by (simpl; lia).
  assert (H1 : free_lists_positive one_big_block)
    by (unfold free_lists_positive; vm_compute; repeat constructor).
  assert (H2 : Forall (λ a, 0 ≤ a) (palloc_supply one_big_block))
    by (vm_compute; constructor).
  assert (H3 : page0 + 24 ≠ 0) by (unfold page0; lia).
  assert (H4 : 0 < 5000) by lia.
  assert (H5 : malloc i386 one_big_block 5000
               = Ret ((palloc_get_multiple one_big_block 2).1, 0))
    by (vm_compute; reflexivity).
  split; [exact H0|]. split; [exact H1|]. split; [exact H2|].
  split; [exact H3|]. split; [exact H4|]. split; [exact H5|].
  exact (realloc_failure_keeps_old_block i386 H0 one_big_block (page0 + 24)
           5000 _ H1 H2 H3 H4 H5).
Defined.
(** ** The bounds on the loops are never reached *)

Lemma in_time_Ret {A} (a : A) : in_time (Ret a).
Proof. done. Qed.

Lemma in_time_bind {A B} (m : result A) (f : A → result B) :
  in_time m → (∀ a, m = Ret a → in_time (f a)) → in_time (m ≫= f).
Proof.
  intros Hm Hf. destruct m as [a|e]; simpl; [by apply Hf|].
  intros [= ->]. by apply Hm.
Qed.

Lemma in_time_assert b : in_time (assert b).
Proof. by destruct b. Qed.

Lemma in_time_desc_at h i : in_time (desc_at h i).
Proof.
  unfold desc_at. destruct (i <? 0); [done|].
  by destruct (descs h !! Z.to_nat i).
Qed.

Lemma in_time_set_free_list h i l : in_time (set_free_list h i l).
Proof.
  unfold set_free_list. apply in_time_bind; [apply in_time_desc_at|done].
Qed.

Lemma in_time_push_back h i b : in_time (push_back h i b).
Proof.
  unfold push_back. apply in_time_bind; [apply in_time_desc_at|].
  intros. apply in_time_set_free_list.
Qed.

Lemma in_time_pop_front h i : in_time (pop_front h i).
Proof.
  unfold pop_front. apply in_time_bind; [apply in_time_desc_at|].
  intros d _. destruct (free_list d); [done|].
  apply in_time_bind; [apply in_time_set_free_list|done].
Qed.

Lemma in_time_udiv x y : in_time (udiv x y).
Proof. unfold udiv. by destruct (y =? 0). Qed.

Lemma in_time_umod x y : in_time (umod x y).
Proof. unfold umod. by destruct (y =? 0). Qed.

Lemma in_time_arena_to_block L h a idx d : in_time (arena_to_block L h a idx d).
Proof.
  unfold arena_to_block.
  apply in_time_bind; [apply in_time_assert|intros ? _].
  apply in_time_bind; [apply in_time_assert|done].
Qed.

Lemma in_time_block_to_arena L h b size : in_time (block_to_arena L h b size).
Proof.
  unfold block_to_arena.
  apply in_time_bind; [apply in_time_assert|intros ? _].
  apply in_time_bind; [apply in_time_assert|intros ? _].
  apply in_time_bind; [apply in_time_umod|intros ? _].
  apply in_time_bind; [apply in_time_assert|done].
Qed.

Lemma desc_at_Ret_range h i d :
  desc_at h i = Ret d → 0 ≤ i < Z.of_nat (length (descs h)).
Proof.
  unfold desc_at. destruct (i <? 0) eqn:E; [done|].
  apply Z.ltb_ge in E.
  destruct (descs h !! Z.to_nat i) eqn:El; [|done]. intros _.
  apply lookup_lt_Some in El. lia.
Qed.

Lemma set_free_list_frame h i l h' :
  set_free_list h i l = Ret h' →
  desc_cnt h' = desc_cnt h ∧ length (descs h') = length (descs h)
  ∧ mem h' = mem h.
Proof.
  unfold set_free_list. destruct (desc_at h i); simpl; [|done].
  intros [= <-]. simpl. by rewrite length_insert.
Qed.

Lemma push_back_frame h i b h' :
  push_back h i b = Ret h' →
  desc_cnt h' = desc_cnt h ∧ length (descs h') = length (descs h)
  ∧ mem h' = mem h.
Proof.
  unfold push_back. destruct (desc_at h i); simpl; [|done].
  apply set_free_list_frame.
Qed.

Lemma pop_front_frame h i h' b :
  pop_front h i = Ret (h', b) →
  desc_cnt h' = desc_cnt h ∧ length (descs h') = length (descs h)
  ∧ mem h' = mem h.
Proof.
  unfold pop_front. destruct (desc_at h i) as [d|]; simpl; [|done].
  destruct (free_list d); [done|].
  destruct (set_free_list h i l) as [h1|] eqn:E; simpl; [|done].
  intros [= <- _]. by apply set_free_list_frame in E.
Qed.

Section InTime.

Variable L : layout.

Lemma in_time_malloc_init_loop fuel : ∀ h bs,
  11 - desc_cnt h ≤ Z.of_nat fuel → 1 ≤ Z.of_nat fuel →
  in_time (malloc_init_loop L fuel h bs).
Proof.
  induction fuel as [|fuel IH]; intros h bs H1 H2; [lia|]. simpl.
  destruct (bs <? PGSIZE L / 2); [|done].
  destruct (desc_cnt h + 1 <=? 10) eqn:E; simpl; [|done].
  apply Z.leb_le in E.
  apply in_time_bind; [apply in_time_desc_at|intros d _].
  apply IH; simpl; lia.
Qed.

Lemma in_time_malloc_init h : in_time (malloc_init L h).
Proof. unfold malloc_init. apply in_time_malloc_init_loop; simpl; lia. Qed.

Lemma in_time_first_nonempty fuel : ∀ h bc,
  desc_cnt h - bc ≤ Z.of_nat fuel → in_time (first_nonempty fuel h bc).
Proof.
  induction fuel as [|fuel IH]; intros h bc Hf; simpl;
    (apply in_time_bind; [apply in_time_desc_at|intros d _]);
    destruct (bool_decide (free_list d = [])); simpl; try done;
    destruct (bc <? desc_cnt h) eqn:E; try done; apply Z.ltb_lt in E.
  - lia.
  - apply IH. lia.
Qed.

Lemma in_time_find_desc fuel : ∀ h size i,
  desc_cnt h - i ≤ Z.of_nat fuel → in_time (find_desc fuel h size i).
Proof.
  induction fuel as [|fuel IH]; intros h size i Hf; simpl;
    (destruct (i <? desc_cnt h) eqn:E; [apply Z.ltb_lt in E|done]);
    (apply in_time_bind; [apply in_time_desc_at|intros d _]);
    (destruct (block_size d >=? size);
     [apply in_time_bind; [apply in_time_first_nonempty; lia|done]|]).
  - lia.
  - apply IH. lia.
Qed.

Lemma in_time_carve fuel : ∀ h a d j,
  desc_cnt h - j ≤ Z.of_nat fuel → in_time (carve L fuel h a d j).
Proof.
  induction fuel as [|fuel IH]; intros h a d j Hf; simpl;
    (apply in_time_bind; [apply in_time_desc_at|intros dj _]);
    (apply in_time_bind; [apply in_time_desc_at|intros dt _]);
    (destruct (block_size dj >? block_size dt); [|done]);
    (apply in_time_bind; [apply in_time_arena_to_block|intros tmp _]);
    (apply in_time_bind; [apply in_time_push_back|intros h2 Hp]);
    apply push_back_frame in Hp as (Hc & _ & _); simpl in Hc;
    (apply in_time_bind; [apply in_time_desc_at|intros dj' Hd]);
    apply desc_at_Ret_range in Hd;
    (apply in_time_bind; [apply in_time_desc_at|intros dt' _]);
    (destruct (block_size dj' <=? block_size dt'); [done|]).
  - lia.
  - apply IH. lia.
Qed.

Lemma in_time_find_idx fuel : ∀ h bc idx,
  desc_cnt h - idx < Z.of_nat fuel → in_time (find_idx fuel h bc idx).
Proof.
  induction fuel as [|fuel IH]; intros h bc idx Hf; simpl;
    (apply in_time_bind; [apply in_time_desc_at|intros di Hd]);
    apply desc_at_Ret_range in Hd;
    (apply in_time_bind; [apply in_time_desc_at|intros db _]);
    (destruct (negb (block_size di <=? block_size db)); [|done]).
  - lia.
  - apply IH. lia.
Qed.

Lemma find_idx_ge fuel : ∀ h bc idx idx',
  find_idx fuel h bc idx = Ret idx' → idx ≤ idx'.
Proof.
  induction fuel as [|fuel IH]; intros h bc idx idx'; simpl;
    (destruct (desc_at h (desc_cnt h - idx)) as [di|]; simpl; [|done]);
    (destruct (desc_at h bc) as [db|]; simpl; [|done]);
    (destruct (negb (block_size di <=? block_size db));
     [|intros [= <-]; lia]).
  - done.
  - intros H. apply IH in H. lia.
Qed.

Lemma in_time_split fuel : ∀ h a d bc idx,
  desc_cnt h - idx ≤ Z.of_nat fuel → in_time (split L fuel h a d bc idx).
Proof.
  induction fuel as [|fuel IH]; intros h a d bc idx Hf; simpl;
    (apply in_time_bind; [apply in_time_desc_at|intros di _]);
    (apply in_time_bind; [apply in_time_desc_at|intros dt _]);
    (destruct (block_size di >? block_size dt); [|done]);
    (apply in_time_bind; [apply in_time_pop_front|intros [h1 b] Hp]);
    apply pop_front_frame in Hp as (Hc1 & _ & _);
    (apply in_time_bind; [apply in_time_udiv|intros q _]);
    (apply in_time_bind; [apply in_time_desc_at|intros di' Hd]);
    apply desc_at_Ret_range in Hd;
    (apply in_time_bind; [apply in_time_arena_to_block|intros b2 _]);
    (apply in_time_bind; [apply in_time_desc_at|intros di2 _]);
    (apply in_time_bind; [apply in_time_arena_to_block|intros b1 _]);
    (apply in_time_bind; [apply in_time_push_back|intros h4 Hp4]);
    apply push_back_frame in Hp4 as (Hc4 & _ & _); simpl in Hc4;
    (apply in_time_bind; [apply in_time_push_back|intros h5 Hp5]);
    apply push_back_frame in Hp5 as (Hc5 & _ & _);
    (apply in_time_bind; [apply in_time_desc_at|intros di5 _]);
    (apply in_time_bind; [apply in_time_desc_at|intros dt5 _]);
    (destruct (block_size di5 <=? block_size dt5); [done|]).
  - lia.
  - apply IH. lia.
Qed.

Lemma in_time_class_index fuel : ∀ h b i,
  Z.of_nat (length (descs h)) - i ≤ Z.of_nat fuel →
  in_time (class_index L fuel h b i).
Proof.
  induction fuel as [|fuel IH]; intros h b i Hf; simpl;
    (apply in_time_bind; [apply in_time_desc_at|intros d Hd]);
    apply desc_at_Ret_range in Hd;
    (destruct (block_size d <? block_size_of L h b); [|done]).
  - lia.
  - apply IH. lia.
Qed.

Lemma in_time_coalesce fuel : ∀ h fa b i,
  desc_cnt h - i ≤ Z.of_nat fuel → in_time (coalesce L fuel h fa b i).
Proof.
  induction fuel as [|fuel IH]; intros h fa b i Hf; simpl;
    (destruct (i <? desc_cnt h) eqn:E; [apply Z.ltb_lt in E|done]);
    (apply in_time_bind; [apply in_time_udiv|intros q _]);
    (apply in_time_bind; [apply in_time_desc_at|intros d _]);
    (apply in_time_bind; [apply in_time_arena_to_block|intros buddy _]);
    (destruct (mem_list buddy (free_list d));
     [|apply in_time_bind; [apply in_time_push_back|done]]);
    (apply in_time_bind; [apply in_time_set_free_list|intros h1 Hs]);
    apply set_free_list_frame in Hs as (Hc & _ & _).
  - lia.
  - destruct (negb (Z.land (to_int q) 1 =? 0)); apply IH; simpl; lia.
Qed.

(** [malloc], [calloc], [free] and [realloc] return or stop the kernel;
    the bounds of the model are not what ends their loops. *)
Lemma in_time_malloc h size : in_time (malloc L h size).
Proof.
  unfold malloc. destruct (size =? 0); [done|].
  apply in_time_bind; [apply in_time_find_desc; lia|intros [d bc] _].
  destruct (d =? desc_cnt h).
  { unfold malloc_big. destruct (palloc_get_multiple h _) as [h1 a].
    by destruct (a =? 0). }
  destruct (bc =? desc_cnt h).
  { unfold malloc_fresh. destruct (palloc_get_multiple h 1) as [h1 a] eqn:Eg.
    destruct (a =? 0); [done|].
    apply in_time_bind; [apply in_time_carve; simpl; lia|intros [h3 j] _].
    apply in_time_bind; [apply in_time_desc_at|intros dj _].
    apply in_time_bind; [apply in_time_arena_to_block|intros buddy _].
    apply in_time_bind; [apply in_time_push_back|intros h5 _].
    apply in_time_bind; [apply in_time_desc_at|intros dj5 _].
    apply in_time_bind; [apply in_time_arena_to_block|done]. }
  unfold malloc_reuse.
  apply in_time_bind; [apply in_time_desc_at|intros dtop Hd].
  apply desc_at_Ret_range in Hd.
  apply in_time_bind; [apply in_time_desc_at|intros db _].
  apply in_time_bind; [by destruct (head (free_list db))|intros b _].
  apply in_time_bind; [apply in_time_block_to_arena|intros a _].
  apply in_time_bind; [apply in_time_find_idx; lia|intros idx Hi].
  apply find_idx_ge in Hi.
  destruct (bc =? d); [apply in_time_pop_front|].
  apply in_time_bind; [apply in_time_split; lia|intros [h1 bc1] _].
  apply in_time_pop_front.
Qed.

Lemma in_time_calloc h a b : in_time (calloc L h a b).
Proof.
  unfold calloc. destruct (_ || _); [done|].
  apply in_time_bind; [apply in_time_malloc|intros [h1 p] _].
  by destruct (negb (p =? 0)).
Qed.

Lemma class_index_nonneg fuel : ∀ h b i i',
  class_index L fuel h b i = Ret i' → 0 ≤ i'.
Proof.
  induction fuel as [|fuel IH]; intros h b i i'; simpl;
    (destruct (desc_at h i) as [d|] eqn:Ed; simpl; [|done]);
    apply desc_at_Ret_range in Ed;
    (destruct (block_size d <? block_size_of L h b); [|intros [= <-]; lia]).
  - done.
  - apply IH.
Qed.

Lemma in_time_free h p :
  (length (descs h) ≤ 10)%nat → in_time (free L h p).
Proof.
  intros Hlen. unfold free. destruct (p =? 0); [done|].
  destruct (_ >? 0); [done|].
  apply in_time_bind; [apply in_time_block_to_arena|intros fa _].
  apply in_time_bind; [apply in_time_class_index; lia|intros i Hi].
  apply class_index_nonneg in Hi.
  apply in_time_bind; [|intros [h1 i1] _; by destruct (i1 =? desc_cnt h1)].
  apply in_time_coalesce. lia.
Qed.

(** [malloc] keeps the array [descs] at its length. *)
Lemma carve_length fuel : ∀ h a d j h' j',
  carve L fuel h a d j = Ret (h', j') → length (descs h') = length (descs h).
Proof.
  induction fuel as [|fuel IH]; intros h a d j h' j' H; simpl in H;
    do 2 inv_bind H;
    (destruct (_ >? _) in H; [|by injection H as <- _]);
    do 2 inv_bind H;
    match goal with
    | E : push_back _ _ _ = _ |- _ => apply push_back_frame in E as (_ & Hl & _)
    end;
    do 2 inv_bind H;
    (destruct (_ <=? _) in H; [by injection H as <- _|]).
  - done.
  - apply IH in H. by rewrite H.
Qed.

Lemma split_length fuel : ∀ h a d bc idx h' bc',
  split L fuel h a d bc idx = Ret (h', bc') →
  length (descs h') = length (descs h).
Proof.
  induction fuel as [|fuel IH]; intros h a d bc idx h' bc' H; simpl in H;
    do 2 inv_bind H;
    (destruct (_ >? _) in H; [|by injection H as <- _]);
    inv_bind H;
    match goal with
    | x : (heap * Z)%type |- _ => destruct x as [h1 block_obj]
    end;
    match goal with
    | E : pop_front _ _ = _ |- _ => apply pop_front_frame in E as (_ & Hl1 & _)
    end;
    do 6 inv_bind H;
    match goal with
    | E : push_back _ _ _ = _ |- _ =>
        apply push_back_frame in E as (_ & Hl4 & _); simpl in Hl4
    end;
    inv_bind H;
    match goal with
    | E : push_back _ _ _ = _ |- _ => apply push_back_frame in E as (_ & Hl5 & _)
    end;
    do 2 inv_bind H;
    (destruct (_ <=? _) in H; [injection H as <- _; congruence|]).
  - done.
  - apply IH in H. congruence.
Qed.

Lemma malloc_length h size h' p :
  malloc L h size = Ret (h', p) → length (descs h') = length (descs h).
Proof.
  unfold malloc. destruct (size =? 0); [by intros [= <- _]|].
  intros H. inv_bind H. destruct x as [d bc].
  destruct (d =? desc_cnt h).
  { unfold malloc_big in H. destruct (palloc_get_multiple h _) as [h1 a] eqn:Eg.
    injection Eg as <- <-. by destruct (_ =? 0); injection H as <- _. }
  destruct (bc =? desc_cnt h).
  { unfold malloc_fresh in H.
    destruct (palloc_get_multiple h 1) as [h1 a] eqn:Eg.
    injection Eg as <- <-. destruct (_ =? 0); [by injection H as <- _|].
    inv_bind H. destruct x as [h3 j].
    match goal with
    | E : carve _ _ _ _ _ _ = _ |- _ => apply carve_length in E; simpl in E
    end.
    do 3 inv_bind H.
    match goal with
    | E : push_back _ _ _ = _ |- _ =>
        apply push_back_frame in E as (_ & Hl & _); simpl in Hl
    end.
    do 2 inv_bind H. injection H as <- _. simpl. congruence. }
  unfold malloc_reuse in H. do 5 inv_bind H.
  destruct (bc =? d).
  - by apply pop_front_frame in H as (_ & Hl & _).
  - inv_bind H. destruct x4 as [h1 bc1].
    match goal with
    | E : split _ _ _ _ _ _ _ = _ |- _ => apply split_length in E
    end.
    apply pop_front_frame in H as (_ & Hl & _). congruence.
Qed.

Lemma in_time_realloc h p n :
  (length (descs h) ≤ 10)%nat → in_time (realloc L h p n).
Proof.
  intros Hlen. unfold realloc. destruct (n =? 0).
  { apply in_time_bind; [by apply in_time_free|done]. }
  apply in_time_bind; [apply in_time_malloc|intros [h1 q] Hm].
  apply malloc_length in Hm.
  destruct (_ && _); [|done].
  apply in_time_bind; [|done]. apply in_time_free. simpl. lia.
Qed.

End InTime.

(** ** Positive free lists are kept by [malloc] and [free] *)

Section Kept.

Variable L : layout.
Hypothesis sizeof_arena_nonneg : 0 ≤ sizeof_arena L.

Lemma carve_positive fuel : ∀ h a d j h' j',
  free_lists_positive h → 0 < a →
  carve L fuel h a d j = Ret (h', j') → free_lists_positive h'.
Proof.
  induction fuel as [|fuel IH]; intros h a d j h' j' Hp Ha H; simpl in H;
    do 2 inv_bind H;
    (destruct (_ >? _) in H; [|by injection H as <- _]);
    inv_bind H;
    match goal with
    | E : arena_to_block _ _ _ _ _ = Ret ?b |- _ =>
        apply (arena_to_block_positive L sizeof_arena_nonneg _ _ _ _ _ Ha) in E;
        rename E into Hb
    end;
    inv_bind H;
    match goal with
    | E : push_back _ _ _ = _ |- _ =>
        eapply push_back_positive in E; [|exact Hp|exact Hb];
        rename E into Hp2
    end;
    do 2 inv_bind H;
    (destruct (_ <=? _) in H; [by injection H as <- _|]).
  - done.
  - eapply IH; [exact Hp2|exact Ha|exact H].
Qed.

Lemma remove_first_Forall (P : Z → Prop) b l :
  Forall P l → Forall P (remove_first b l).
Proof.
  induction 1 as [|x l Hx Hl IH]; simpl; [constructor|].
  destruct (x =? b); [done|by constructor].
Qed.

Lemma coalesce_positive fuel : ∀ h fa b i h' i',
  free_lists_positive h → 0 < fa → 0 < b →
  coalesce L fuel h fa b i = Ret (h', i') → free_lists_positive h'.
Proof.
  induction fuel as [|fuel IH]; intros h fa b i h' i' Hp Hfa Hb H; simpl in H;
    (destruct (i <? desc_cnt h); [|by injection H as <- _]);
    inv_bind H; inv_bind H;
    match goal with
    | E : desc_at _ _ = Ret ?d |- _ =>
        pose proof (desc_at_positive _ _ _ Hp E) as Hd
    end;
    inv_bind H;
    match goal with
    | E : arena_to_block _ _ _ _ _ = Ret ?x |- _ =>
        apply (arena_to_block_positive L sizeof_arena_nonneg _ _ _ _ _ Hfa) in E;
        rename E into Hbuddy
    end;
    (destruct (mem_list _ _) in H;
     [|inv_bind H; injection H as <- _;
       match goal with
       | E : push_back _ _ _ = _ |- _ =>
           exact (push_back_positive _ _ _ _ Hp Hb E)
       end]);
    inv_bind H;
    match goal with
    | E : set_free_list _ _ _ = _ |- _ =>
        eapply set_free_list_positive in E;
        [|exact Hp|by apply remove_first_Forall];
        rename E into Hp1
    end.
  - by destruct (negb _).
  - destruct (negb _); eapply IH; try exact H; done.
Qed.

Lemma malloc_positive h size h' p :
  free_lists_positive h →
  Forall (λ a, 0 ≤ a) (palloc_supply h) →
  malloc L h size = Ret (h', p) →
  free_lists_positive h'.
Proof.
  intros Hp Hs. unfold malloc. destruct (size =? 0); [by intros [= <- _]|].
  intros H. inv_bind H. destruct x as [d bc].
  assert (Hhd : 0 ≤ hd 0 (palloc_supply h)).
  { destruct (palloc_supply h); simpl; [lia|]. by inversion Hs. }
  destruct (d =? desc_cnt h).
  { unfold malloc_big, palloc_get_multiple in H.
    by destruct (_ =? 0); injection H as <- _. }
  destruct (bc =? desc_cnt h).
  { unfold malloc_fresh, palloc_get_multiple in H.
    destruct (hd 0 (palloc_supply h) =? 0) eqn:Ea; [by injection H as <- _|].
    apply Z.eqb_neq in Ea.
    assert (Ha : 0 < hd 0 (palloc_supply h)) by lia.
    inv_bind H. destruct x as [h3 j].
    match goal with
    | E : carve _ _ _ _ _ _ = Ret _ |- _ =>
        apply carve_positive in E; [|exact Hp|exact Ha]; rename E into Hp3
    end.
    inv_bind H. inv_bind H.
    match goal with
    | E : arena_to_block _ _ _ _ _ = Ret ?x |- _ =>
        apply (arena_to_block_positive L sizeof_arena_nonneg _ _ _ _ _ Ha) in E;
        rename E into Hbuddy
    end.
    inv_bind H.
    match goal with
    | E : push_back _ _ _ = Ret ?x |- _ =>
        eapply push_back_positive in E; [|exact Hp3|exact Hbuddy];
        rename E into Hp5
    end.
    do 2 inv_bind H. by injection H as <- _. }
  unfold malloc_reuse in H. do 2 inv_bind H.
  match goal with
  | E : desc_at _ bc = Ret ?x |- _ =>
      pose proof (desc_at_positive _ _ _ Hp E) as Hd
  end.
  inv_bind H.
  match goal with
  | E : from_option _ (head (free_list ?x)) = Ret ?b |- _ =>
      assert (0 < b) as Hb
        by (destruct (free_list x); [done|];
            injection E as <-; by inversion Hd)
  end.
  inv_bind H.
  match goal with
  | E : block_to_arena _ _ _ _ = Ret ?a |- _ =>
      apply (block_to_arena_positive L _ _ _ _ Hb) in E; rename E into Ha
  end.
  inv_bind H. destruct (bc =? d).
  - by apply (pop_front_positive _ _ _ _ Hp) in H as [? _].
  - inv_bind H.
    match goal with
    | x : (heap * Z)%type |- _ => destruct x as [h1 bc1]
    end.
    match goal with
    | E : split _ _ _ _ _ _ _ = Ret _ |- _ =>
        apply (split_positive L sizeof_arena_nonneg _ _ _ _ _ _ _ _ Hp Ha) in E;
        rename E into Hp1
    end.
    by apply (pop_front_positive _ _ _ _ Hp1) in H as [? _].
Qed.

Lemma free_positive h p h' :
  free_lists_positive h → 0 < p →
  free L h p = Ret h' → free_lists_positive h'.
Proof.
  intros Hp Hpos. unfold free. destruct (p =? 0); [by intros [= <-]|].
  destruct (_ >? 0); [by intros [= <-]|].
  intros H. inv_bind H.
  match goal with
  | E : block_to_arena _ _ _ _ = Ret ?a |- _ =>
      apply (block_to_arena_positive L _ _ _ _ Hpos) in E; rename E into Ha
  end.
  inv_bind H. inv_bind H.
  match goal with
  | x : (heap * Z)%type |- _ => destruct x as [h1 i1]
  end.
  match goal with
  | E : coalesce _ _ _ _ _ _ = Ret _ |- _ =>
      apply coalesce_positive in E; [|exact Hp|exact Ha|exact Hpos];
      rename E into Hp1
  end.
  by destruct (_ =? _); injection H as <-.
Qed.

End Kept.

Lemma boot_positive m supply : free_lists_positive (boot m supply).
Proof. unfold free_lists_positive. simpl. repeat constructor. Qed.

Lemma malloc_init_loop_positive L fuel : ∀ h bs h',
  free_lists_positive h →
  malloc_init_loop L fuel h bs = Ret h' → free_lists_positive h'.
Proof.
  induction fuel as [|fuel IH]; intros h bs h' Hp H; simpl in H;
    (destruct (bs <? PGSIZE L / 2); [|by injection H as <-]); [done|].
  do 2 inv_bind H. eapply IH; [|exact H].
  unfold free_lists_positive. simpl. apply Forall_insert; [exact Hp|].
  simpl. constructor.
Qed.

Lemma malloc_init_positive L h h' :
  free_lists_positive h → malloc_init L h = Ret h' → free_lists_positive h'.
Proof. intros Hp H. by eapply malloc_init_loop_positive; [|exact H]. Qed.

(** ** [malloc_init] *)

Lemma PGSIZE_pow2 L : 0 ≤ PGBITS L → PGSIZE L = 2 ^ PGBITS L.
Proof. intros H. unfold PGSIZE. by rewrite Z.shiftl_1_l. Qed.

Lemma half_PGSIZE L : 1 ≤ PGBITS L → PGSIZE L / 2 = 2 ^ (PGBITS L - 1).
Proof.
  intros H. rewrite PGSIZE_pow2 by lia.
  replace (PGBITS L) with (1 + (PGBITS L - 1)) at 1 by lia.
  rewrite Z.pow_add_r by lia. change (2 ^ 1) with 2.
  rewrite Z.mul_comm. apply Z.div_mul. lia.
Qed.

(** The powers of two from 16 to below [PGSIZE / 2], in a list. *)
Lemma elem_of_pow2_classes L b :
  0 ≤ PGBITS L →
  b ∈ (λ i, 2 ^ (4 + i)) <$> seqZ 0 (PGBITS L - 5)
  ↔ power_of_two b ∧ 16 ≤ b ∧ b < PGSIZE L / 2.
Proof.
  intros Hk. rewrite list_elem_of_fmap. split.
  - intros (i & -> & Hi). apply elem_of_seqZ in Hi.
    rewrite half_PGSIZE by lia. split; [exists (4 + i); split; [lia|reflexivity]|]. split.
    + change 16 with (2 ^ 4). apply Z.pow_le_mono_r; lia.
    + apply Z.pow_lt_mono_r; lia.
  - intros ((e & He & ->) & Hlo & Hhi).
    assert (1 ≤ PGBITS L) as Hk1.
    { destruct (Z.eq_dec (PGBITS L) 0) as [E0|]; [|lia].
      rewrite PGSIZE_pow2, E0 in Hhi by lia.
      change (2 ^ 0 `div` 2) with 0 in Hhi. lia. }
    rewrite half_PGSIZE in Hhi by lia.
    change 16 with (2 ^ 4) in Hlo.
    apply (Z.pow_le_mono_r_iff 2) in Hlo; [|lia..].
    apply (Z.pow_lt_mono_r_iff 2) in Hhi; [|lia..].
    exists (e - 4). split; [f_equal; lia|]. apply elem_of_seqZ. lia.
Qed.

Lemma malloc_init_computed L m supply :
  0 ≤ PGBITS L ≤ 15 →
  ∃ h, malloc_init L (boot m supply) = Ret h
       ∧ class_sizes h = (λ i, 2 ^ (4 + i)) <$> seqZ 0 (PGBITS L - 5)
       ∧ (6 ≤ PGBITS L →
          head (class_sizes h) = Some 16
          ∧ last (class_sizes h) = Some (PGSIZE L / 4))
       ∧ Forall (λ d, blocks_per_arena d = 0 ∧ free_list d = []) (classes h)
       ∧ mem h = m ∧ arena_list h = [] ∧ palloc_supply h = supply
       ∧ palloc_log h = [].
Proof.
  destruct L as [k sa onp os]. simpl. intros Hk.
  assert (Hc : k = 0 ∨ k = 1 ∨ k = 2 ∨ k = 3 ∨ k = 4 ∨ k = 5 ∨ k = 6 ∨ k = 7
               ∨ k = 8 ∨ k = 9 ∨ k = 10 ∨ k = 11 ∨ k = 12 ∨ k = 13 ∨ k = 14
               ∨ k = 15) by lia.
  repeat (destruct Hc as [->|Hc]); try subst k;
    (eexists; split; [vm_compute; reflexivity|];
     split; [reflexivity|];
     split; [intros ?; first [lia|split; reflexivity]|];
     split; [repeat constructor|repeat split]).
Qed.

(** C5 (amended): after [malloc_init] on the boot state, for a page of
    [2 ^ PGBITS] bytes with [PGBITS <= 15], the descriptor table holds
    exactly one descriptor for each power of two from 16 to below
    [PGSIZE / 2] (the first is 16 and the last is [PGSIZE / 4] when
    [PGBITS >= 6]), each with an empty free list; [blocks_per_arena] is
    not assigned and keeps its initial value 0. *)
Theorem malloc_init_classes L m supply :
  0 ≤ PGBITS L ≤ 15 →
  ∃ h, malloc_init L (boot m supply) = Ret h
       ∧ NoDup (class_sizes h)
       ∧ (∀ b, b ∈ class_sizes h ↔ power_of_two b ∧ 16 ≤ b ∧ b < PGSIZE L / 2)
       ∧ (6 ≤ PGBITS L →
          head (class_sizes h) = Some 16
          ∧ last (class_sizes h) = Some (PGSIZE L / 4))
       ∧ Forall (λ d, blocks_per_arena d = 0 ∧ free_list d = []) (classes h).
Proof.
  intros Hk.
  destruct (malloc_init_computed L m supply Hk) as (h & Hh & Hs & Hends & Hz & _).
  exists h. split; [exact Hh|]. split; [|split; [|split; [exact Hends|exact Hz]]].
  - rewrite Hs. apply NoDup_fmap_2_strong; [|apply NoDup_seqZ].
    intros i j Hi Hj Heq. apply elem_of_seqZ in Hi, Hj.
    apply (Z.pow_inj_r 2) in Heq; lia.
  - intros b. rewrite Hs. apply elem_of_pow2_classes. lia.
Qed.

Lemma malloc_init_classes_witness :
  0 ≤ PGBITS i386 ≤ 15
  ∧ ∃ h, malloc_init i386 (boot zero_memory [page0]) = Ret h
         ∧ NoDup (class_sizes h)
         ∧ (∀ b, b ∈ class_sizes h
                 ↔ power_of_two b ∧ 16 ≤ b ∧ b < PGSIZE i386 / 2)
         ∧ (6 ≤ PGBITS i386 →
            head (class_sizes h) = Some 16
            ∧ last (class_sizes h) = Some (PGSIZE i386 / 4))
         ∧ Forall (λ d, blocks_per_arena d = 0 ∧ free_list d = []) (classes h).
Proof.
  assert (H : 0 ≤ PGBITS i386 ≤ 15) by (simpl; lia).
  split; [exact H|].
  exact (malloc_init_classes i386 zero_memory [page0] H).
Defined.

(** C5, as stated, fails: on i386 with pages of 4096 bytes every
    [blocks_per_arena] is 0 after [malloc_init], while
    [(PGSIZE - sizeof (struct arena)) / block_size] is 254 for the class
    of 16 bytes. *)
Lemma malloc_init_blocks_per_arena_unset :
  ∃ h, malloc_init i386 (boot zero_memory [page0]) = Ret h
       ∧ class_sizes h = [16; 32; 64; 128; 256; 512; 1024]
       ∧ blocks_per_arena <$> classes h = [0; 0; 0; 0; 0; 0; 0]
       ∧ (PGSIZE i386 - sizeof_arena i386) / 16 = 254.
Proof. eexists. split; [vm_compute; reflexivity|]. repeat split. Qed.

(** ** [calloc] *)

Lemma calloc_detected_overflow L h a b :
  wrap (a * b) < a ∨ wrap (a * b) < b → calloc L h a b = Ret (h, 0).
Proof.
  intros H. unfold calloc.
  destruct (wrap (a * b) <? a) eqn:E1; [done|].
  destruct (wrap (a * b) <? b) eqn:E2; [done|]. lia.
Qed.

Lemma calloc_zeroed L h a b h' p :
  calloc L h a b = Ret (h', p) → p ≠ 0 →
  ∀ x, p ≤ x < p + wrap (a * b) → mem h' x = 0.
Proof.
  intros H Hp x Hx. unfold calloc in H.
  destruct (_ || _) in H; [injection H as _ H; congruence|].
  inv_bind H. destruct x0 as [h1 q].
  destruct (q =? 0) eqn:Eq; simpl in H.
  - apply Z.eqb_eq in Eq. injection H as _ H. congruence.
  - injection H as <- <-. simpl. by rewrite memset_inside.
Qed.

(** When the overflow test passes [calloc] is [malloc] followed by
    [memset]. *)
Lemma calloc_of_malloc L h a b h1 p :
  ¬ wrap (a * b) < a → ¬ wrap (a * b) < b →
  malloc L h (wrap (a * b)) = Ret (h1, p) → p ≠ 0 →
  calloc L h a b
  = Ret (set_mem h1 (memset (mem h1) p 0 (wrap (a * b))), p).
Proof.
  intros Ha Hb Hm Hp. unfold calloc.
  replace (wrap (a * b) <? a) with false by (symmetry; apply Z.ltb_ge; lia).
  replace (wrap (a * b) <? b) with false by (symmetry; apply Z.ltb_ge; lia).
  simpl. rewrite Hm. simpl.
  by replace (p =? 0) with false by (symmetry; by apply Z.eqb_neq).
Qed.

Lemma calloc_65537_passes_check L h :
  SIZE_MAX < 65537 * 65537
  ∧ calloc L h 65537 65537
    = '(h1, p) ← malloc L h 131073;
      if negb (p =? 0) then Ret (set_mem h1 (memset (mem h1) p 0 131073), p)
      else Ret (h1, p).
Proof. split; reflexivity. Qed.

(** C2 (the code departs from the claim): [65537 * 65537] overflows the
    32-bit [size_t] to 131073, which is below neither factor, so the test
    [size < a || size < b] passes and [calloc (65537, 65537)] returns a
    block (of 131073 bytes, in 33 pages) instead of null.  The rest of
    the claim holds: a detected overflow returns null
    ([calloc_detected_overflow]) and the region returned is zeroed
    ([calloc_zeroed]). *)
Theorem calloc_overflow_returns_block :
  ∃ h1,
    malloc_init i386 (boot zero_memory [page0]) = Ret (started [page0])
    ∧ SIZE_MAX < 65537 * 65537
    ∧ wrap (65537 * 65537) = 131073
    ∧ malloc i386 (started [page0]) 131073 = Ret (h1, page0 + 24)
    ∧ palloc_log h1 = [PallocGet 33 page0]
    ∧ calloc i386 (started [page0]) 65537 65537
      = Ret (set_mem h1 (memset (mem h1) (page0 + 24) 0 131073), page0 + 24).
Proof.
  eexists. split; [vm_compute; reflexivity|].
  split; [reflexivity|]. split; [reflexivity|].
  split; [vm_compute; reflexivity|]. split; [reflexivity|].
  apply (calloc_of_malloc i386 (started [page0]) 65537 65537).
  - vm_compute. discriminate.
  - vm_compute. discriminate.
  - vm_compute. reflexivity.
  - vm_compute. discriminate.
Qed.

(** ** [free] *)

(** The dispatch of [free]: a non-zero word at
    [p - sizeof (struct arena) + offsetof (num_pages)] sends [p] to
    [palloc_free_multiple] in one call, whatever [magic] holds. *)
Lemma free_dispatch_unchecked L h p :
  p ≠ 0 →
  0 < load32 (mem h) (p - sizeof_arena L + ofs_num_pages L) →
  free L h p
  = Ret (palloc_free_multiple h (p - sizeof_arena L)
           (load32 (mem h) (p - sizeof_arena L + ofs_num_pages L))).
Proof.
  intros Hp Hn. unfold free.
  replace (p =? 0) with false by (symmetry; by apply Z.eqb_neq).
  replace (_ >? 0) with true by (symmetry; apply Z.gtb_lt; lia).
  reflexivity.
Qed.

(** A block obtained on the big path is given back to the page
    allocator whole, in one call. *)
Lemma free_big_arena L h size h1 p :
  malloc_big L h size = Ret (h1, p) → p ≠ 0 →
  0 < DIV_ROUND_UP (wrap (size + sizeof_arena L)) (PGSIZE L) < SIZE_MOD →
  free L h1 p
  = Ret (palloc_free_multiple h1 (p - sizeof_arena L)
           (DIV_ROUND_UP (wrap (size + sizeof_arena L)) (PGSIZE L))).
Proof.
  intros H Hp Hcnt. unfold malloc_big in H.
  destruct (palloc_get_multiple h _) as [h0 a].
  destruct (a =? 0); [injection H as _ H; congruence|].
  injection H as <- <-.
  assert (Hl : load32 (mem (set_mem h0
                  (store32 (store32 (mem h0) a ARENA_MAGIC) (a + ofs_num_pages L)
                     (DIV_ROUND_UP (wrap (size + sizeof_arena L)) (PGSIZE L)))))
                 (a + sizeof_arena L - sizeof_arena L + ofs_num_pages L)
               = DIV_ROUND_UP (wrap (size + sizeof_arena L)) (PGSIZE L)).
  { cbn [mem set_mem].
    replace (a + sizeof_arena L - sizeof_arena L) with a by lia.
    rewrite load32_store32_eq. unfold wrap. apply Z.mod_small.
    split; [apply Z.lt_le_incl|]; apply Hcnt. }
  rewrite free_dispatch_unchecked; [by rewrite Hl|done|rewrite Hl; lia].
Qed.

(** C1 (the code departs from the claim): [free] decides between big
    and small before any rounding or check of [magic], on the word at
    [p - sizeof (struct arena) + offsetof (num_pages)].  For the second
    block of 16 bytes of a small arena on i386 that word is the [size]
    field of the first block: [free (b)] takes the big-block path and
    hands [palloc_free_multiple] the address [page + 16], which is no
    page, with a count of 16, although the arena of [b] is [page], its
    [magic] is intact and its [num_pages] is 0. *)
Theorem free_second_block_dispatches_on_neighbour :
  ∃ h0 h1 h2 h3 a b,
    malloc_init i386 (boot zero_memory [page0]) = Ret h0
    ∧ malloc i386 h0 16 = Ret (h1, a)
    ∧ malloc i386 h1 16 = Ret (h2, b)
    ∧ a = page0 + 24 ∧ b = page0 + 40
    ∧ pg_round_down i386 b = page0
    ∧ load32 (mem h2) page0 = ARENA_MAGIC
    ∧ load32 (mem h2) (page0 + ofs_num_pages i386) = 0
    ∧ b - sizeof_arena i386 + ofs_num_pages i386 = a + ofs_size i386
    ∧ block_size_of i386 h2 a = 16
    ∧ free i386 h2 b = Ret h3
    ∧ palloc_log h3 = [PallocGet 1 page0; PallocFree (page0 + 16) 16]
    ∧ arena_list h3 = [page0]
    ∧ free_lists h3 = free_lists h2.
Proof.
  eexists _, _, _, _, _, _.
  split; [vm_compute; reflexivity|].
  split; [vm_compute; reflexivity|].
  split; [vm_compute; reflexivity|].
  split; [reflexivity|]. split; [reflexivity|].
  split; [reflexivity|]. split; [reflexivity|]. split; [reflexivity|].
  split; [reflexivity|]. split; [reflexivity|].
  split; [vm_compute; reflexivity|].
  split; [reflexivity|]. split; reflexivity.
Qed.

(** ** Page arithmetic *)

Lemma pg_ofs_mod L va : 0 ≤ PGBITS L → pg_ofs L va = va mod PGSIZE L.
Proof.
  intros H. unfold pg_ofs, PGMASK, PGSIZE.
  rewrite Z.shiftl_1_l, Z.sub_1_r, <- Z.ones_equiv. by apply Z.land_ones.
Qed.

Lemma pg_round_down_mod L va :
  0 ≤ PGBITS L → pg_round_down L va = va - va mod PGSIZE L.
Proof.
  intros H. unfold pg_round_down, PGMASK, PGSIZE.
  rewrite Z.shiftl_1_l, Z.sub_1_r, <- Z.ones_equiv, <- Z.ldiff_land.
  rewrite Z.ldiff_ones_r by done.
  rewrite Z.shiftr_div_pow2, Z.shiftl_mul_pow2 by done.
  pose proof (Z.div_mod va (2 ^ PGBITS L)) as Hdm.
  assert (2 ^ PGBITS L ≠ 0) by (apply Z.pow_nonzero; lia).
  specialize (Hdm ltac:(done)). lia.
Qed.

Lemma pg_ofs_in_page L a c :
  0 ≤ PGBITS L → a mod PGSIZE L = 0 → 0 ≤ c < PGSIZE L → pg_ofs L (a + c) = c.
Proof.
  intros Hk Ha Hc. rewrite pg_ofs_mod by done.
  rewrite Z.add_mod by lia. rewrite Ha, Z.add_0_l, Z.mod_mod by lia.
  by apply Z.mod_small.
Qed.

Lemma pg_round_down_in_page L a c :
  0 ≤ PGBITS L → a mod PGSIZE L = 0 → 0 ≤ c < PGSIZE L →
  pg_round_down L (a + c) = a.
Proof.
  intros Hk Ha Hc. rewrite pg_round_down_mod, <- pg_ofs_mod by done.
  rewrite pg_ofs_in_page by done. lia.
Qed.

Lemma arena_to_block_ok L h a idx d :
  a ≠ 0 → load32 (mem h) a = ARENA_MAGIC →
  arena_to_block L h a idx d = Ret (a + sizeof_arena L + wrap (idx * block_size d)).
Proof.
  intros Ha Hm. unfold arena_to_block.
  replace (a =? 0) with false by (symmetry; by apply Z.eqb_neq).
  by rewrite Hm.
Qed.

Lemma block_to_arena_ok L h b size :
  pg_round_down L b ≠ 0 →
  load32 (mem h) (pg_round_down L b) = ARENA_MAGIC →
  size ≠ 0 →
  wrap (pg_ofs L b - sizeof_arena L) mod size = 0 →
  block_to_arena L h b size = Ret (pg_round_down L b).
Proof.
  intros Ha Hm Hs Hr. unfold block_to_arena, umod.
  replace (pg_round_down L b =? 0) with false by (symmetry; by apply Z.eqb_neq).
  rewrite Hm. simpl.
  replace (size =? 0) with false by (symmetry; by apply Z.eqb_neq).
  simpl. by rewrite Hr.
Qed.

(** ** The loops of [malloc] and [free], one turn at a time *)

Section Steps.

Variable L : layout.

(** [malloc] when no free block is found at or above the class. *)
Lemma malloc_fresh_path h size d :
  size ≠ 0 →
  find_desc (Z.to_nat (desc_cnt h)) h size 0 = Ret (d, desc_cnt h) →
  d ≠ desc_cnt h →
  malloc L h size = malloc_fresh L h d.
Proof.
  intros Hs Hf Hd. unfold malloc.
  replace (size =? 0) with false by (symmetry; by apply Z.eqb_neq).
  rewrite Hf. simpl.
  replace (d =? desc_cnt h) with false by (symmetry; by apply Z.eqb_neq).
  by rewrite Z.eqb_refl.
Qed.

(** One turn of the loop of lines 160-172. *)
Lemma carve_step fuel h a d j dj dt h2 dj' dt' :
  desc_at h (desc_cnt h - j) = Ret dj →
  desc_at h d = Ret dt →
  block_size dt < block_size dj →
  a ≠ 0 →
  load32 (mem h) a = ARENA_MAGIC →
  push_back (set_block_size L h (a + sizeof_arena L + wrap (1 * block_size dj))
               (block_size dj))
            (desc_cnt h - j) (a + sizeof_arena L + wrap (1 * block_size dj))
  = Ret h2 →
  desc_at h2 (desc_cnt h2 - (j + 1)) = Ret dj' →
  desc_at h2 d = Ret dt' →
  carve L (S fuel) h a d j
  = if block_size dj' <=? block_size dt' then Ret (h2, j + 1)
    else carve L fuel h2 a d (j + 1).
Proof.
  intros Hdj Hdt Hlt Ha Hm Hp Hdj' Hdt'. simpl.
  rewrite Hdj, Hdt. simpl.
  replace (block_size dj >? block_size dt) with true
    by (symmetry; apply Z.gtb_lt; lia).
  rewrite arena_to_block_ok by done. simpl.
  change (desc_cnt (set_block_size L h _ _)) with (desc_cnt h).
  rewrite Hp. simpl. rewrite Hdj', Hdt'. simpl.
  by destruct (block_size dj' <=? block_size dt').
Qed.

(** Lines 146-184 once the page allocator has answered. *)
Lemma malloc_fresh_eq h d a rest h3 j dj h5 dj5 :
  palloc_supply h = a :: rest →
  a ≠ 0 →
  carve L (Z.to_nat (desc_cnt h))
    {| mem := store32 (store32 (mem h) a ARENA_MAGIC) (a + ofs_num_pages L) 0;
       descs := descs h; desc_cnt := desc_cnt h; arena_list := arena_list h;
       palloc_supply := rest;
       palloc_log := palloc_log h ++ [PallocGet 1 a] |} a d 1
  = Ret (h3, j) →
  desc_at h3 (desc_cnt h3 - j) = Ret dj →
  load32 (mem h3) a = ARENA_MAGIC →
  push_back (set_block_size L h3 (a + sizeof_arena L + wrap (1 * block_size dj))
               (block_size dj))
            d (a + sizeof_arena L + wrap (1 * block_size dj))
  = Ret h5 →
  desc_at h5 (desc_cnt h5 - j) = Ret dj5 →
  load32 (mem h5) a = ARENA_MAGIC →
  malloc_fresh L h d
  = Ret (set_arena_list
           (set_block_size L h5 (a + sizeof_arena L + wrap (0 * block_size dj5))
              (block_size dj5))
           (arena_list h5 ++ [a]),
         a + sizeof_arena L + wrap (0 * block_size dj5)).
Proof.
  intros Hsup Ha Hc Hdj Hm3 Hp Hdj5 Hm5.
  unfold malloc_fresh, palloc_get_multiple. rewrite Hsup. simpl.
  replace (a =? 0) with false by (symmetry; by apply Z.eqb_neq).
  unfold set_mem at 1. simpl. rewrite Hc. simpl.
  rewrite Hdj. simpl. rewrite arena_to_block_ok by done. simpl.
  rewrite Hp. simpl. rewrite Hdj5. simpl.
  rewrite arena_to_block_ok by done. reflexivity.
Qed.

(** [free] of a block whose dispatch word is zero. *)
Lemma free_small_eq h p fa i h1 i1 :
  p ≠ 0 →
  load32 (mem h) (p - sizeof_arena L + ofs_num_pages L) = 0 →
  block_to_arena L h p (block_size_of L h p) = Ret fa →
  class_index L 10 h p 0 = Ret i →
  coalesce L (S (Z.to_nat (desc_cnt h))) h fa p i = Ret (h1, i1) →
  free L h p
  = if i1 =? desc_cnt h1
    then Ret (palloc_free_multiple
                (set_arena_list h1 (remove_first fa (arena_list h1))) fa 1)
    else Ret h1.
Proof.
  intros Hp Hn Hb Hi Hc. unfold free.
  replace (p =? 0) with false by (symmetry; by apply Z.eqb_neq).
  rewrite Hn. change (0 >? 0) with false. cbv iota.
  rewrite Hb. cbn [mbind result_bind]. rewrite Hi. cbn [mbind result_bind].
  rewrite Hc. reflexivity.
Qed.

(** The loop of lines 318-319. *)
Lemma class_index_next fuel h b i d :
  desc_at h i = Ret d →
  block_size d < block_size_of L h b →
  class_index L (S fuel) h b i = class_index L fuel h b (i + 1).
Proof.
  intros Hd Hlt. simpl. rewrite Hd. simpl.
  by replace (block_size d <? block_size_of L h b) with true
    by (symmetry; apply Z.ltb_lt; lia).
Qed.

Lemma class_index_stop fuel h b i d :
  desc_at h i = Ret d →
  block_size_of L h b ≤ block_size d →
  class_index L fuel h b i = Ret i.
Proof.
  intros Hd Hle. destruct fuel; simpl; rewrite Hd; simpl;
    by replace (block_size d <? block_size_of L h b) with false
      by (symmetry; apply Z.ltb_ge; lia).
Qed.

(** One turn of the loop of lines 321-365 for a block with an even index
    whose buddy is on the free list of the class. *)
Lemma coalesce_merge_even fuel h fa b i d h1 :
  i < desc_cnt h →
  block_size_of L h b ≠ 0 →
  Z.land (to_int (wrap (pg_ofs L b - sizeof_arena L) / block_size_of L h b)) 1
  = 0 →
  desc_at h i = Ret d →
  fa ≠ 0 →
  load32 (mem h) fa = ARENA_MAGIC →
  let buddy_block :=
    fa + sizeof_arena L
    + wrap (wrap (to_int
                    (to_int (wrap (pg_ofs L b - sizeof_arena L)
                             / block_size_of L h b) + 1))
            * block_size d) in
  mem_list buddy_block (free_list d) = true →
  set_free_list h i (remove_first buddy_block (free_list d)) = Ret h1 →
  coalesce L (S fuel) h fa b i
  = coalesce L fuel
      (set_block_size L h1 b (wrap (block_size_of L h1 b * 2))) fa b (i + 1).
Proof.
  intros Hi Hs Heven Hd Hfa Hm buddy_block Hin Hset. simpl.
  replace (i <? desc_cnt h) with true by (symmetry; apply Z.ltb_lt; lia).
  unfold udiv.
  replace (block_size_of L h b =? 0) with false
    by (symmetry; by apply Z.eqb_neq).
  simpl. rewrite Heven. simpl. rewrite Hd. simpl.
  rewrite arena_to_block_ok by done. simpl.
  fold buddy_block. rewrite Hin, Hset. reflexivity.
Qed.

(** The same turn when the buddy is not free: the block goes on the free
    list of its class and the loop ends. *)
Lemma coalesce_push fuel h fa b i d h1 :
  i < desc_cnt h →
  block_size_of L h b ≠ 0 →
  desc_at h i = Ret d →
  fa ≠ 0 →
  load32 (mem h) fa = ARENA_MAGIC →
  let arena_index :=
    to_int (wrap (pg_ofs L b - sizeof_arena L) / block_size_of L h b) in
  let buddy_block :=
    fa + sizeof_arena L
    + wrap (wrap (if Z.land arena_index 1 =? 0 then to_int (arena_index + 1)
                  else to_int (arena_index - 1))
            * block_size d) in
  mem_list buddy_block (free_list d) = false →
  push_back h i b = Ret h1 →
  coalesce L fuel h fa b i = Ret (h1, i).
Proof.
  intros Hi Hs Hd Hfa Hm arena_index buddy_block Hin Hpush.
  destruct fuel; simpl;
    (replace (i <? desc_cnt h) with true by (symmetry; apply Z.ltb_lt; lia));
    unfold udiv;
    (replace (block_size_of L h b =? 0) with false
       by (symmetry; by apply Z.eqb_neq));
    simpl; rewrite Hd; simpl;
    rewrite arena_to_block_ok by done; simpl;
    fold arena_index; fold buddy_block; rewrite Hin, Hpush; reflexivity.
Qed.

Lemma coalesce_end fuel h fa b i :
  desc_cnt h ≤ i → coalesce L fuel h fa b i = Ret (h, i).
Proof.
  intros Hi. destruct fuel; simpl;
    by replace (i <? desc_cnt h) with false by (symmetry; apply Z.ltb_ge; lia).
Qed.

End Steps.

(** ** [malloc_init] called again *)

(** X14: [malloc_init] starts from the [desc_cnt] it finds.  With pages
    of up to 1024 bytes a second call returns, with the classes of the
    first call entered a second time behind them; with larger pages (at
    most 32768 bytes) the second call runs out of the ten descriptors and
    stops the kernel on its [ASSERT]. *)
Theorem malloc_init_twice L m supply :
  0 ≤ PGBITS L ≤ 15 →
  ∃ h, malloc_init L (boot m supply) = Ret h
       ∧ if PGBITS L <=? 10
         then ∃ h', malloc_init L h = Ret h'
                    ∧ desc_cnt h' = 2 * desc_cnt h
                    ∧ class_sizes h' = class_sizes h ++ class_sizes h
         else malloc_init L h = Abort AssertFailed.
Proof.
  destruct L as [k sa onp os]. simpl. intros Hk.
  assert (Hc : k = 0 ∨ k = 1 ∨ k = 2 ∨ k = 3 ∨ k = 4 ∨ k = 5 ∨ k = 6 ∨ k = 7
               ∨ k = 8 ∨ k = 9 ∨ k = 10 ∨ k = 11 ∨ k = 12 ∨ k = 13 ∨ k = 14
               ∨ k = 15) by lia.
  repeat (destruct Hc as [->|Hc]); try subst k;
    (eexists; split; [vm_compute; reflexivity|]);
    cbv beta iota delta [Z.leb Z.compare Pos.compare Pos.compare_cont];
    first [ eexists; split; [vm_compute; reflexivity|]; split; reflexivity
          | vm_compute; reflexivity ].
Qed.

Lemma malloc_init_twice_witness :
  0 ≤ PGBITS i386 ≤ 15
  ∧ ∃ h, malloc_init i386 (boot zero_memory [page0]) = Ret h
         ∧ if PGBITS i386 <=? 10
           then ∃ h', malloc_init i386 h = Ret h'
                      ∧ desc_cnt h' = 2 * desc_cnt h
                      ∧ class_sizes h' = class_sizes h ++ class_sizes h
           else malloc_init i386 h = Abort AssertFailed.
Proof.
  assert (H1 : 0 ≤ PGBITS i386 ≤ 15) by (simpl; lia).
  split; [exact H1|].
  exact (malloc_init_twice i386 zero_memory [page0] H1).
Defined.

(** ** What the calls leave alone *)

Lemma same_frame_refl h : same_frame h h.
Proof. by unfold same_frame. Qed.

Lemma same_frame_trans h1 h2 h3 :
  same_frame h1 h2 → same_frame h2 h3 → same_frame h1 h3.
Proof.
  unfold same_frame. intros (?&?&?&?&?) (?&?&?&?&?). repeat split; congruence.
Qed.

Lemma class_table_insert (ds : list desc) (i : nat) d l :
  ds !! i = Some d →
  (λ d, (block_size d, blocks_per_arena d))
    <$> <[i := mk_desc (block_size d) (blocks_per_arena d) l]> ds
  = (λ d, (block_size d, blocks_per_arena d)) <$> ds.
Proof.
  intros H. rewrite list_fmap_insert. simpl.
  apply list_insert_id. by rewrite list_lookup_fmap, H.
Qed.

Lemma desc_at_lookup h i d : desc_at h i = Ret d → descs h !! Z.to_nat i = Some d.
Proof.
  unfold desc_at. destruct (i <? 0); [done|].
  by destruct (descs h !! Z.to_nat i); intros [= ->].
Qed.

Lemma set_free_list_same h i l h' : set_free_list h i l = Ret h' → same_frame h h'.
Proof.
  unfold set_free_list. intros H. inv_bind H. injection H as <-.
  unfold same_frame, class_table. simpl. split; [done|]. split; [|done].
  apply class_table_insert. by apply desc_at_lookup.
Qed.

Lemma push_back_same h i b h' : push_back h i b = Ret h' → same_frame h h'.
Proof. unfold push_back. intros H. inv_bind H. by apply set_free_list_same in H. Qed.

Lemma pop_front_same h i h' b : pop_front h i = Ret (h', b) → same_frame h h'.
Proof.
  unfold pop_front. intros H. inv_bind H. destruct (free_list x); [done|].
  inv_bind H. injection H as <- _. by apply set_free_list_same in E0.
Qed.

Lemma set_block_size_same L h b v : same_frame h (set_block_size L h b v).
Proof. by unfold same_frame. Qed.

Section Frame.

Variable L : layout.

Lemma carve_same fuel : ∀ h a d j h' j',
  carve L fuel h a d j = Ret (h', j') → same_frame h h'.
Proof.
  induction fuel as [|fuel IH]; intros h a d j h' j' H; simpl in H;
    do 2 inv_bind H;
    (destruct (_ >? _) in H; [|injection H as <- _; apply same_frame_refl]);
    do 2 inv_bind H;
    match goal with
    | E : push_back _ _ _ = _ |- _ => apply push_back_same in E
    end;
    do 2 inv_bind H;
    (destruct (_ <=? _) in H;
     [injection H as <- _;
      by eapply same_frame_trans; [apply (set_block_size_same L)|]|]).
  - done.
  - apply IH in H.
    eapply same_frame_trans; [apply (set_block_size_same L)|].
    by eapply same_frame_trans.
Qed.

Lemma split_same fuel : ∀ h a d bc idx h' bc',
  split L fuel h a d bc idx = Ret (h', bc') → same_frame h h'.
Proof.
  induction fuel as [|fuel IH]; intros h a d bc idx h' bc' H; simpl in H;
    do 2 inv_bind H;
    (destruct (_ >? _) in H; [|injection H as <- _; apply same_frame_refl]);
    inv_bind H;
    match goal with
    | x : (heap * Z)%type |- _ => destruct x as [h1 block_obj]
    end;
    match goal with
    | E : pop_front _ _ = _ |- _ => apply pop_front_same in E; rename E into S1
    end;
    do 6 inv_bind H;
    match goal with
    | E : push_back _ _ _ = _ |- _ => apply push_back_same in E; rename E into S2
    end;
    inv_bind H;
    match goal with
    | E : push_back _ _ _ = _ |- _ => apply push_back_same in E; rename E into S3
    end;
    do 2 inv_bind H;
    match type of S3 with
    | same_frame _ ?hf =>
        assert (S4 : same_frame h hf)
          by (eapply same_frame_trans; [exact S1|];
              eapply same_frame_trans; [apply (set_block_size_same L)|];
              eapply same_frame_trans; [apply (set_block_size_same L)|];
              eapply same_frame_trans; [exact S2|exact S3])
    end;
    (destruct (_ <=? _) in H; [by injection H as <- _|]).
  - done.
  - apply IH in H. by eapply same_frame_trans.
Qed.

Lemma coalesce_same fuel : ∀ h fa b i h' i',
  coalesce L fuel h fa b i = Ret (h', i') → same_frame h h'.
Proof.
  induction fuel as [|fuel IH]; intros h fa b i h' i' H; simpl in H;
    (destruct (_ <? _) in H; [|injection H as <- _; apply same_frame_refl]);
    do 3 inv_bind H;
    (destruct (mem_list _ _) in H;
     [|inv_bind H; injection H as <- _; by eapply push_back_same]);
    inv_bind H;
    match goal with
    | E : set_free_list _ _ _ = _ |- _ => apply set_free_list_same in E
    end.
  - by destruct (negb _).
  - destruct (negb _); apply IH in H;
      (eapply same_frame_trans; [eassumption|]);
      (eapply same_frame_trans; [apply (set_block_size_same L)|]); exact H.
Qed.

Lemma malloc_frame h size h' p :
  malloc L h size = Ret (h', p) →
  desc_cnt h' = desc_cnt h ∧ class_table h' = class_table h
  ∧ (palloc_log h' = palloc_log h ∧ palloc_supply h' = palloc_supply h
     ∧ arena_list h' = arena_list h
     ∨ ∃ n, palloc_log h'
            = palloc_log h ++ [PallocGet n (hd 0 (palloc_supply h))]
          ∧ palloc_supply h' = tl (palloc_supply h)
          ∧ (arena_list h' = arena_list h
             ∨ n = 1
               ∧ arena_list h' = arena_list h ++ [hd 0 (palloc_supply h)])).
Proof.
  unfold malloc.
  destruct (size =? 0).
  { intros [= <- _]. split; [done|]. split; [done|]. by left. }
  intros H. inv_bind H. destruct x as [d bc].
  destruct (d =? desc_cnt h).
  { unfold malloc_big in H. destruct (palloc_get_multiple h _) as [h1 a] eqn:Eg.
    injection Eg as <- <-.
    destruct (_ =? 0); injection H as <- _; simpl;
      (split; [done|]); (split; [done|]); right; eexists; eauto. }
  destruct (bc =? desc_cnt h).
  { unfold malloc_fresh in H.
    destruct (palloc_get_multiple h 1) as [h1 a] eqn:Eg.
    injection Eg as <- <-.
    destruct (_ =? 0) eqn:Ea.
    { injection H as <- _; simpl.
      (split; [done|]); (split; [done|]); right; eexists; eauto. }
    inv_bind H. destruct x as [h3 j].
    match goal with
    | E : carve _ _ _ _ _ _ = _ |- _ =>
        apply carve_same in E as (C1 & C2 & C3 & C4 & C5); simpl in *
    end.
    do 3 inv_bind H.
    match goal with
    | E : push_back _ _ _ = _ |- _ =>
        apply push_back_same in E as (P1 & P2 & P3 & P4 & P5); simpl in *
    end.
    do 2 inv_bind H. injection H as <- _. simpl.
    split; [congruence|]. split; [unfold class_table in *; simpl in *; congruence|].
    right. exists 1. split; [congruence|]. split; [congruence|].
    right. split; [done|congruence]. }
  unfold malloc_reuse in H. do 5 inv_bind H.
  destruct (bc =? d).
  - apply pop_front_same in H as (P1 & P2 & P3 & P4 & P5). auto 10.
  - inv_bind H. destruct x4 as [h1 bc1].
    match goal with
    | E : split _ _ _ _ _ _ _ = _ |- _ =>
        apply split_same in E as (C1 & C2 & C3 & C4 & C5)
    end.
    apply pop_front_same in H as (P1 & P2 & P3 & P4 & P5).
    split; [congruence|]. split; [congruence|]. left.
    split; [congruence|]. split; congruence.
Qed.

Lemma free_frame h p h' :
  free L h p = Ret h' →
  desc_cnt h' = desc_cnt h ∧ class_table h' = class_table h
  ∧ palloc_supply h' = palloc_supply h
  ∧ (palloc_log h' = palloc_log h ∧ arena_list h' = arena_list h
     ∨ ∃ a n, palloc_log h' = palloc_log h ++ [PallocFree a n]
              ∧ (arena_list h' = arena_list h
                 ∨ n = 1 ∧ arena_list h' = remove_first a (arena_list h))).
Proof.
  unfold free.
  destruct (p =? 0).
  { intros [= <-]. split; [done|]. split; [done|]. split; [done|]. by left. }
  cbv zeta. destruct (_ >? 0).
  { intros [= <-]. simpl. split; [done|]. split; [done|]. split; [done|].
    right. eauto. }
  intros H. do 3 inv_bind H. destruct x1 as [h1 i1].
  match goal with
  | E : coalesce _ _ _ _ _ _ = _ |- _ =>
      apply coalesce_same in E as (C1 & C2 & C3 & C4 & C5)
  end.
  destruct (i1 =? desc_cnt h1); injection H as <-; simpl.
  - split; [done|]. split; [done|]. split; [done|]. right.
    exists x, 1. split; [congruence|]. right. split; [done|congruence].
  - split; [done|]. split; [done|]. split; [done|]. by left.
Qed.

Lemma calloc_frame h a b h' p :
  calloc L h a b = Ret (h', p) →
  (h' = h ∧ p = 0)
  ∨ ∃ h1, malloc L h (wrap (a * b)) = Ret (h1, p) ∧ same_frame h1 h'.
Proof.
  unfold calloc. cbv zeta. destruct (_ || _); [intros [= <- <-]; by left|].
  intros H. inv_bind H. destruct x as [h1 q].
  right. exists h1. destruct (negb _); injection H as <- <-; by split.
Qed.

End Frame.

(** X15: no call of [malloc], [calloc], [realloc] or [free] that returns
    changes the number of descriptors, the block size of a descriptor or
    its [blocks_per_arena]: on every heap reachable by such calls the
    table is the one the calls started from. *)
Theorem calls_keep_the_class_table L h h' :
  heap_reach L h h' →
  desc_cnt h' = desc_cnt h ∧ class_table h' = class_table h.
Proof.
  induction 1 as [|h1 h2 c r _ [IH1 IH2] Hstep]; [done|].
  enough (desc_cnt h2 = desc_cnt h1 ∧ class_table h2 = class_table h1)
    as [? ?] by (split; congruence).
  destruct c as [size|a b|old new_size|p]; simpl in Hstep.
  - by apply malloc_frame in Hstep as (? & ? & _).
  - apply calloc_frame in Hstep as [[-> _]|[h3 [Hm (S1 & S2 & _)]]]; [done|].
    apply malloc_frame in Hm as (? & ? & _). split; congruence.
  - unfold realloc in Hstep. destruct (new_size =? 0).
    + inv_bind Hstep. injection Hstep as <- _.
      by apply free_frame in E as (? & ? & _).
    + inv_bind Hstep. destruct x as [h3 q].
      apply malloc_frame in E as (M1 & M2 & _).
      destruct (_ && _).
      * inv_bind Hstep. injection Hstep as <- _.
        apply free_frame in E as (F1 & F2 & _). simpl in *.
        unfold class_table in *. simpl in *. split; congruence.
      * by injection Hstep as <- _.
  - inv_bind Hstep. injection Hstep as <- _.
    by apply free_frame in E as (? & ? & _).
Qed.

Lemma run_calls_reach L cs h0 h :
  heap_reach L h0 h → heap_reach L h0 (run_calls L cs h).
Proof.
  revert h. induction cs as [|c rest IH]; simpl; intros h Hh; [done|].
  destruct (run_call L h c) as [[h' r]|e] eqn:E; [|done].
  apply IH. by eapply heap_reach_step.
Qed.

Lemma calls_keep_the_class_table_witness :
  heap_reach i386 (started [page0])
    (run_calls i386 [Malloc 40; Calloc 3 100; Realloc (page0 + 24) 200;
                     Free (page0 + 24 + 256)]
       (started [page0]))
  ∧ desc_cnt (run_calls i386 [Malloc 40; Calloc 3 100; Realloc (page0 + 24) 200;
                              Free (page0 + 24 + 256)]
                (started [page0]))
    = desc_cnt (started [page0])
  ∧ class_table (run_calls i386 [Malloc 40; Calloc 3 100;
                                 Realloc (page0 + 24) 200;
                                 Free (page0 + 24 + 256)]
                   (started [page0]))
    = class_table (started [page0]).
Proof.
  assert (H1 : heap_reach i386 (started [page0])
                 (run_calls i386 [Malloc 40; Calloc 3 100;
                                  Realloc (page0 + 24) 200;
                                  Free (page0 + 24 + 256)]
                    (started [page0])))
    by apply run_calls_reach, heap_reach_refl.
  split; [exact H1|].
  exact (calls_keep_the_class_table i386 _ _ H1).
Defined.

(** X16: a call of [malloc] that returns has asked the page allocator
    for pages once at most, with the answer next in line, and has given
    none back; the arena list is unchanged, or it has grown by the page
    of a request for one page. *)
Theorem malloc_asks_for_pages_at_most_once L h size h' p :
  malloc L h size = Ret (h', p) →
  (palloc_log h' = palloc_log h ∧ palloc_supply h' = palloc_supply h
   ∧ arena_list h' = arena_list h)
  ∨ ∃ n, palloc_log h' = palloc_log h ++ [PallocGet n (hd 0 (palloc_supply h))]
         ∧ palloc_supply h' = tl (palloc_supply h)
         ∧ (arena_list h' = arena_list h
            ∨ n = 1 ∧ arena_list h' = arena_list h ++ [hd 0 (palloc_supply h)]).
Proof. intros H. by apply malloc_frame in H as (_ & _ & ?). Qed.

Lemma malloc_asks_for_pages_at_most_once_witness :
  malloc i386 (started [page0]) 3000 = Ret (one_big_block, page0 + 24)
  ∧ ((palloc_log one_big_block = palloc_log (started [page0])
      ∧ palloc_supply one_big_block = palloc_supply (started [page0])
      ∧ arena_list one_big_block = arena_list (started [page0]))
     ∨ ∃ n, palloc_log one_big_block
            = palloc_log (started [page0])
              ++ [PallocGet n (hd 0 (palloc_supply (started [page0])))]
            ∧ palloc_supply one_big_block = tl (palloc_supply (started [page0]))
            ∧ (arena_list one_big_block = arena_list (started [page0])
               ∨ n = 1
                 ∧ arena_list one_big_block
                   = arena_list (started [page0])
                     ++ [hd 0 (palloc_supply (started [page0]))])).
Proof.
  assert (H1 : malloc i386 (started [page0]) 3000
               = Ret (one_big_block, page0 + 24)) by (vm_compute; reflexivity).
  split; [exact H1|].
  exact (malloc_asks_for_pages_at_most_once i386 (started [page0]) 3000
           one_big_block (page0 + 24) H1).
Defined.

(** X17: a call of [free] that returns has asked the page allocator for
    nothing and has given pages back once at most; the arena list is
    unchanged, or it has lost the page of a release of one page. *)
Theorem free_returns_pages_at_most_once L h p h' :
  free L h p = Ret h' →
  palloc_supply h' = palloc_supply h
  ∧ (palloc_log h' = palloc_log h ∧ arena_list h' = arena_list h
     ∨ ∃ a n, palloc_log h' = palloc_log h ++ [PallocFree a n]
              ∧ (arena_list h' = arena_list h
                 ∨ n = 1 ∧ arena_list h' = remove_first a (arena_list h))).
Proof. intros H. by apply free_frame in H as (_ & _ & ? & ?). Qed.

Lemma free_returns_pages_at_most_once_witness :
  free i386 one_big_block (page0 + 24)
  = Ret (palloc_free_multiple one_big_block page0 1)
  ∧ palloc_supply (palloc_free_multiple one_big_block page0 1)
    = palloc_supply one_big_block
  ∧ (palloc_log (palloc_free_multiple one_big_block page0 1)
     = palloc_log one_big_block
     ∧ arena_list (palloc_free_multiple one_big_block page0 1)
       = arena_list one_big_block
     ∨ ∃ a n, palloc_log (palloc_free_multiple one_big_block page0 1)
              = palloc_log one_big_block ++ [PallocFree a n]
              ∧ (arena_list (palloc_free_multiple one_big_block page0 1)
                 = arena_list one_big_block
                 ∨ n = 1
                   ∧ arena_list (palloc_free_multiple one_big_block page0 1)
                     = remove_first a (arena_list one_big_block))).
Proof.
  assert (H1 : free i386 one_big_block (page0 + 24)
               = Ret (palloc_free_multiple one_big_block page0 1))
    by (vm_compute; reflexivity).
  split; [exact H1|].
  exact (free_returns_pages_at_most_once i386 one_big_block (page0 + 24) _ H1).
Defined.

(** ** Requests above the largest class *)

Lemma desc_at_classes h i :
  0 ≤ i < desc_cnt h → (Z.to_nat (desc_cnt h) ≤ length (descs h))%nat →
  ∃ d, desc_at h i = Ret d ∧ d ∈ classes h.
Proof.
  intros Hi Hl. unfold desc_at, classes.
  replace (i <? 0) with false by (symmetry; apply Z.ltb_ge; lia).
  destruct (descs h !! Z.to_nat i) as [d|] eqn:E.
  - exists d. split; [done|].
    apply (list_elem_of_lookup_2 _ (Z.to_nat i)).
    rewrite lookup_take_lt by lia. done.
  - apply lookup_ge_None in E. lia.
Qed.

(** A request above every class runs through the whole table. *)
Lemma find_desc_too_big fuel : ∀ h size i,
  (Z.to_nat (desc_cnt h) ≤ length (descs h))%nat →
  Forall (λ d, block_size d < size) (classes h) →
  0 ≤ i ≤ desc_cnt h →
  desc_cnt h - i ≤ Z.of_nat fuel →
  find_desc fuel h size i = Ret (desc_cnt h, desc_cnt h).
Proof.
  induction fuel as [|fuel IH]; intros h size i Hl Hall Hi Hf.
  - assert (i = desc_cnt h) as -> by lia. simpl.
    by rewrite Z.ltb_irrefl.
  - simpl. destruct (i <? desc_cnt h) eqn:E.
    + apply Z.ltb_lt in E.
      destruct (desc_at_classes h i ltac:(lia) Hl) as (d & -> & Hd). simpl.
      pose proof (proj1 (Forall_forall _ _) Hall d Hd) as Hlt. simpl in Hlt.
      replace (block_size d >=? size) with false
        by (symmetry; rewrite Z.geb_leb; apply Z.leb_gt; lia).
      apply IH; [done|done|lia|lia].
    + apply Z.ltb_ge in E. by assert (i = desc_cnt h) as -> by lia.
Qed.

Section Big.

Variable L : layout.

Lemma malloc_too_big h size :
  (Z.to_nat (desc_cnt h) ≤ length (descs h))%nat →
  0 ≤ desc_cnt h →
  Forall (λ d, block_size d < size) (classes h) →
  size ≠ 0 →
  malloc L h size = malloc_big L h size.
Proof.
  intros Hl Hc Hall Hs. unfold malloc.
  replace (size =? 0) with false by (symmetry; by apply Z.eqb_neq).
  rewrite find_desc_too_big; [|done|done|lia|lia]. simpl.
  by rewrite Z.eqb_refl.
Qed.

Lemma malloc_big_eq h size a rest :
  palloc_supply h = a :: rest → a ≠ 0 →
  malloc_big L h size
  = Ret (set_mem (palloc_get_multiple h
                    (DIV_ROUND_UP (wrap (size + sizeof_arena L)) (PGSIZE L))).1
           (store32 (store32 (mem h) a ARENA_MAGIC) (a + ofs_num_pages L)
              (DIV_ROUND_UP (wrap (size + sizeof_arena L)) (PGSIZE L))),
         a + sizeof_arena L).
Proof.
  intros Hs Ha. unfold malloc_big, palloc_get_multiple. rewrite Hs. simpl.
  by replace (a =? 0) with false by (symmetry; by apply Z.eqb_neq).
Qed.

Lemma PGSIZE_pos : 0 ≤ PGBITS L → 0 < PGSIZE L.
Proof. intros H. rewrite PGSIZE_pow2 by done. by apply Z.pow_pos_nonneg. Qed.

Lemma pages_for size :
  0 < PGSIZE L → 0 ≤ sizeof_arena L → 0 < size →
  size + sizeof_arena L + PGSIZE L ≤ SIZE_MOD →
  let n := DIV_ROUND_UP (wrap (size + sizeof_arena L)) (PGSIZE L) in
  size + sizeof_arena L ≤ n * PGSIZE L < size + sizeof_arena L + PGSIZE L
  ∧ 0 < n < SIZE_MOD.
Proof.
  intros HP HH Hs Hfit n.
  assert (Hn : n = (size + sizeof_arena L + PGSIZE L - 1) / PGSIZE L).
  { unfold n, DIV_ROUND_UP, wrap, SIZE_MOD in *.
    rewrite (Z.mod_small (size + sizeof_arena L)) by lia.
    rewrite Z.mod_small by lia. done. }
  assert (Hb : size + sizeof_arena L ≤ n * PGSIZE L
               < size + sizeof_arena L + PGSIZE L).
  { rewrite Hn.
    pose proof (Z.div_mod (size + sizeof_arena L + PGSIZE L - 1) (PGSIZE L)
                  ltac:(lia)).
    pose proof (Z.mod_pos_bound (size + sizeof_arena L + PGSIZE L - 1)
                  (PGSIZE L) HP). nia. }
  split; [exact Hb|]. unfold SIZE_MOD in *. nia.
Qed.

(** X18: a request above every class, on a heap whose page allocator
    answers with [a], gets the address behind the arena header at [a].
    The pages asked for, in one request, are the fewest that hold the
    header and [size] bytes, provided the sum does not come within a page
    of the range of [size_t]; the header carries the magic number and,
    in [num_pages], that page count; descriptors and arena list are not
    touched. *)
Theorem malloc_big_block_fits h size a rest :
  0 ≤ PGBITS L →
  0 ≤ sizeof_arena L → 4 ≤ ofs_num_pages L →
  (Z.to_nat (desc_cnt h) ≤ length (descs h))%nat → 0 ≤ desc_cnt h →
  Forall (λ d, block_size d < size) (classes h) →
  0 < size → size + sizeof_arena L + PGSIZE L ≤ SIZE_MOD →
  palloc_supply h = a :: rest → a ≠ 0 →
  ∃ h1 page_cnt,
    malloc L h size = Ret (h1, a + sizeof_arena L)
    ∧ palloc_log h1 = palloc_log h ++ [PallocGet page_cnt a]
    ∧ size + sizeof_arena L ≤ page_cnt * PGSIZE L < size + sizeof_arena L + PGSIZE L
    ∧ load32 (mem h1) a = ARENA_MAGIC
    ∧ load32 (mem h1) (a + ofs_num_pages L) = page_cnt
    ∧ descs h1 = descs h ∧ arena_list h1 = arena_list h.
Proof.
  intros Hk HH HN Hl Hc Hall Hs Hfit Hsup Ha.
  pose proof (PGSIZE_pos Hk) as HP.
  rewrite malloc_too_big by (done || lia).
  rewrite (malloc_big_eq _ _ a rest) by done.
  destruct (pages_for size HP HH Hs Hfit) as [Hb Hn].
  set (n := DIV_ROUND_UP (wrap (size + sizeof_arena L)) (PGSIZE L)) in *.
  eexists _, n. split; [reflexivity|]. simpl. rewrite Hsup. simpl.
  split; [done|]. split; [exact Hb|].
  split.
  { rewrite load32_store32_ne by lia. rewrite load32_store32_eq. reflexivity. }
  split; [|done].
  rewrite load32_store32_eq. unfold wrap. apply Z.mod_small. lia.
Qed.

(** X19: [free] of the pointer such a request has returned gives back, in
    one call, the pages the request had taken, at the address the page
    allocator had answered with; free lists and arena list are as before
    the request. *)
Theorem malloc_big_then_free h size a rest :
  0 ≤ PGBITS L →
  0 ≤ sizeof_arena L →
  (Z.to_nat (desc_cnt h) ≤ length (descs h))%nat → 0 ≤ desc_cnt h →
  Forall (λ d, block_size d < size) (classes h) →
  0 < size → size + sizeof_arena L + PGSIZE L ≤ SIZE_MOD →
  palloc_supply h = a :: rest → a ≠ 0 → a + sizeof_arena L ≠ 0 →
  ∃ h1 h2 page_cnt,
    malloc L h size = Ret (h1, a + sizeof_arena L)
    ∧ free L h1 (a + sizeof_arena L) = Ret h2
    ∧ palloc_log h2
      = palloc_log h ++ [PallocGet page_cnt a; PallocFree a page_cnt]
    ∧ 0 < page_cnt
    ∧ descs h2 = descs h ∧ arena_list h2 = arena_list h.
Proof.
  intros Hk HH Hl Hc Hall Hs Hfit Hsup Ha Hp.
  pose proof (PGSIZE_pos Hk) as HP.
  rewrite malloc_too_big by (done || lia).
  rewrite (malloc_big_eq _ _ a rest) by done.
  destruct (pages_for size HP HH Hs Hfit) as [Hb Hn].
  set (n := DIV_ROUND_UP (wrap (size + sizeof_arena L)) (PGSIZE L)) in *.
  eexists _, _, n. split; [reflexivity|].
  rewrite free_dispatch_unchecked; [| done |].
  - split; [reflexivity|]. simpl. rewrite Hsup. simpl.
    replace (a + sizeof_arena L - sizeof_arena L) with a by lia.
    rewrite load32_store32_eq. unfold wrap at 1. rewrite Z.mod_small by lia.
    rewrite <- app_assoc. simpl. repeat split; lia.
  - simpl. replace (a + sizeof_arena L - sizeof_arena L) with a by lia.
    rewrite load32_store32_eq. unfold wrap at 1. rewrite Z.mod_small by lia. lia.
Qed.

(** X20: [malloc] adds the size of the arena header to the request
    without a test for overflow.  For a request within [sizeof (struct
    arena)] of the top of the range of [size_t] the sum wraps around to
    less than a page: [malloc] asks for one page and returns a pointer
    into it, although the request is larger than the page. *)
Theorem malloc_header_overflow h size a rest :
  0 ≤ PGBITS L ≤ 31 →
  0 < sizeof_arena L ≤ PGSIZE L →
  (Z.to_nat (desc_cnt h) ≤ length (descs h))%nat → 0 ≤ desc_cnt h →
  Forall (λ d, block_size d < size) (classes h) →
  SIZE_MOD - sizeof_arena L < size < SIZE_MOD →
  palloc_supply h = a :: rest → a ≠ 0 →
  ∃ h1,
    malloc L h size = Ret (h1, a + sizeof_arena L)
    ∧ palloc_log h1 = palloc_log h ++ [PallocGet 1 a]
    ∧ 1 * PGSIZE L < size.
Proof.
  intros Hk HH Hl Hc Hall Hs Hsup Ha.
  pose proof (PGSIZE_pos (proj1 Hk)) as HP.
  assert (HP2 : PGSIZE L ≤ 2 ^ 31).
  { rewrite PGSIZE_pow2 by lia. apply Z.pow_le_mono_r; lia. }
  unfold SIZE_MOD in *.
  rewrite malloc_too_big by (done || lia).
  rewrite (malloc_big_eq _ _ a rest) by done.
  assert (Hn : DIV_ROUND_UP (wrap (size + sizeof_arena L)) (PGSIZE L) = 1).
  { unfold DIV_ROUND_UP, wrap, SIZE_MOD.
    replace ((size + sizeof_arena L) `mod` 2 ^ 32)
      with (size + sizeof_arena L - 2 ^ 32).
    2:{ apply Z.mod_unique with 1; lia. }
    rewrite Z.mod_small by lia.
    symmetry. apply Z.div_unique with (size + sizeof_arena L - 2 ^ 32 - 1); lia. }
  rewrite Hn. eexists. split; [reflexivity|]. simpl. rewrite Hsup. simpl.
  split; [done|]. lia.
Qed.

End Big.

Lemma started_classes_below size :
  1024 < size → Forall (λ d, block_size d < size) (classes (started [page0])).
Proof. intros H. vm_compute classes. repeat constructor; simpl; lia. Qed.

Lemma malloc_big_block_fits_witness :
  0 ≤ PGBITS i386
  ∧ 0 ≤ sizeof_arena i386
  ∧ 4 ≤ ofs_num_pages i386
  ∧ (Z.to_nat (desc_cnt (started [page0])) ≤ length (descs (started [page0])))%nat
  ∧ 0 ≤ desc_cnt (started [page0])
  ∧ Forall (λ d, block_size d < 5000) (classes (started [page0]))
  ∧ 0 < 5000
  ∧ 5000 + sizeof_arena i386 + PGSIZE i386 ≤ SIZE_MOD
  ∧ palloc_supply (started [page0]) = page0 :: []
  ∧ page0 ≠ 0
  ∧ ∃ h1 page_cnt,
      malloc i386 (started [page0]) 5000 = Ret (h1, page0 + sizeof_arena i386)
      ∧ palloc_log h1 = palloc_log (started [page0]) ++ [PallocGet page_cnt page0]
      ∧ 5000 + sizeof_arena i386 ≤ page_cnt * PGSIZE i386
        < 5000 + sizeof_arena i386 + PGSIZE i386
      ∧ load32 (mem h1) page0 = ARENA_MAGIC
      ∧ load32 (mem h1) (page0 + ofs_num_pages i386) = page_cnt
      ∧ descs h1 = descs (started [page0])
      ∧ arena_list h1 = arena_list (started [page0]).
Proof.
  assert (H1 : 0 ≤ PGBITS i386) by (simpl; lia).
  assert (H2 : 0 ≤ sizeof_arena i386) by (simpl; lia).
  assert (H3 : 4 ≤ ofs_num_pages i386) by (simpl; lia).
  assert (H4 : (Z.to_nat (desc_cnt (started [page0]))
                ≤ length (descs (started [page0])))%nat)
    by (vm_compute; lia).
  assert (H5 : 0 ≤ desc_cnt (started [page0])) by (vm_compute; discriminate).
  assert (H6 : Forall (λ d, block_size d < 5000) (classes (started [page0])))
    by (apply started_classes_below; lia).
  assert (H7 : 0 < 5000) by lia.
  assert (H8 : 5000 + sizeof_arena i386 + PGSIZE i386 ≤ SIZE_MOD)
    by (vm_compute; discriminate).
  assert (H9 : palloc_supply (started [page0]) = page0 :: []) by reflexivity.
  assert (H10 : page0 ≠ 0) by (unfold page0; lia).
  split; [exact H1|]. split; [exact H2|]. split; [exact H3|]. split; [exact H4|].
  split; [exact H5|]. split; [exact H6|]. split; [exact H7|]. split; [exact H8|].
  split; [exact H9|]. split; [exact H10|].
  exact (malloc_big_block_fits i386 (started [page0]) 5000 page0 []
           H1 H2 H3 H4 H5 H6 H7 H8 H9 H10).
Defined.

Lemma malloc_big_then_free_witness :
  0 ≤ PGBITS i386
  ∧ 0 ≤ sizeof_arena i386
  ∧ (Z.to_nat (desc_cnt (started [page0])) ≤ length (descs (started [page0])))%nat
  ∧ 0 ≤ desc_cnt (started [page0])
  ∧ Forall (λ d, block_size d < 5000) (classes (started [page0]))
  ∧ 0 < 5000
  ∧ 5000 + sizeof_arena i386 + PGSIZE i386 ≤ SIZE_MOD
  ∧ palloc_supply (started [page0]) = page0 :: []
  ∧ page0 ≠ 0
  ∧ page0 + sizeof_arena i386 ≠ 0
  ∧ ∃ h1 h2 page_cnt,
      malloc i386 (started [page0]) 5000 = Ret (h1, page0 + sizeof_arena i386)
      ∧ free i386 h1 (page0 + sizeof_arena i386) = Ret h2
      ∧ palloc_log h2
        = palloc_log (started [page0])
          ++ [PallocGet page_cnt page0; PallocFree page0 page_cnt]
      ∧ 0 < page_cnt
      ∧ descs h2 = descs (started [page0])
      ∧ arena_list h2 = arena_list (started [page0]).
Proof.
  assert (H1 : 0 ≤ PGBITS i386) by (simpl; lia).
  assert (H2 : 0 ≤ sizeof_arena i386) by (simpl; lia).
  assert (H4 : (Z.to_nat (desc_cnt (started [page0]))
                ≤ length (descs (started [page0])))%nat)
    by (vm_compute; lia).
  assert (H5 : 0 ≤ desc_cnt (started [page0])) by (vm_compute; discriminate).
  assert (H6 : Forall (λ d, block_size d < 5000) (classes (started [page0])))
    by (apply started_classes_below; lia).
  assert (H7 : 0 < 5000) by lia.
  assert (H8 : 5000 + sizeof_arena i386 + PGSIZE i386 ≤ SIZE_MOD)
    by (vm_compute; discriminate).
  assert (H9 : palloc_supply (started [page0]) = page0 :: []) by reflexivity.
  assert (H10 : page0 ≠ 0) by (unfold page0; lia).
  assert (H11 : page0 + sizeof_arena i386 ≠ 0) by (unfold page0; simpl; lia).
  split; [exact H1|]. split; [exact H2|]. split; [exact H4|].
  split; [exact H5|]. split; [exact H6|]. split; [exact H7|]. split; [exact H8|].
  split; [exact H9|]. split; [exact H10|]. split; [exact H11|].
  exact (malloc_big_then_free i386 (started [page0]) 5000 page0 []
           H1 H2 H4 H5 H6 H7 H8 H9 H10 H11).
Defined.

Lemma malloc_header_overflow_witness :
  0 ≤ PGBITS i386 ≤ 31
  ∧ 0 < sizeof_arena i386 ≤ PGSIZE i386
  ∧ (Z.to_nat (desc_cnt (started [page0])) ≤ length (descs (started [page0])))%nat
  ∧ 0 ≤ desc_cnt (started [page0])
  ∧ Forall (λ d, block_size d < SIZE_MAX) (classes (started [page0]))
  ∧ SIZE_MOD - sizeof_arena i386 < SIZE_MAX < SIZE_MOD
  ∧ palloc_supply (started [page0]) = page0 :: []
  ∧ page0 ≠ 0
  ∧ ∃ h1,
      malloc i386 (started [page0]) SIZE_MAX = Ret (h1, page0 + sizeof_arena i386)
      ∧ palloc_log h1 = palloc_log (started [page0]) ++ [PallocGet 1 page0]
      ∧ 1 * PGSIZE i386 < SIZE_MAX.
Proof.
  assert (H1 : 0 ≤ PGBITS i386 ≤ 31) by (simpl; lia).
  assert (H2 : 0 < sizeof_arena i386 ≤ PGSIZE i386)
    by (change (PGSIZE i386) with 4096; simpl; lia).
  assert (H4 : (Z.to_nat (desc_cnt (started [page0]))
                ≤ length (descs (started [page0])))%nat)
    by (vm_compute; lia).
  assert (H5 : 0 ≤ desc_cnt (started [page0])) by (vm_compute; discriminate).
  assert (H6 : Forall (λ d, block_size d < SIZE_MAX) (classes (started [page0])))
    by (apply started_classes_below; unfold SIZE_MAX, SIZE_MOD; lia).
  assert (H7 : SIZE_MOD - sizeof_arena i386 < SIZE_MAX < SIZE_MOD)
    by (unfold SIZE_MAX, SIZE_MOD; simpl; lia).
  assert (H9 : palloc_supply (started [page0]) = page0 :: []) by reflexivity.
  assert (H10 : page0 ≠ 0) by (unfold page0; lia).
  split; [exact H1|]. split; [exact H2|]. split; [exact H4|].
  split; [exact H5|]. split; [exact H6|]. split; [exact H7|].
  split; [exact H9|]. split; [exact H10|].
  exact (malloc_header_overflow i386 (started [page0]) SIZE_MAX page0 []
           H1 H2 H4 H5 H6 H7 H9 H10).
Defined.

(** ** A zeroed block above the classes *)

Section BigZeroed.

Variable L : layout.

(** X21: [calloc] of a block above every class, whose size with the
    header does not come within a page of the range of [size_t].  The
    fill with zeroes stays inside the pages the request has obtained: the
    [a * b] bytes behind the header read zero, nothing before the header
    or behind the block changes, and the header keeps the magic number
    and the page count.  The dispatch word of such a block lies in the
    header, not among the bytes zeroed, so [free] of the pointer gives the
    pages back in one call. *)
Theorem calloc_big_block_then_free h a b pa rest :
  0 ≤ PGBITS L →
  4 ≤ ofs_num_pages L → ofs_num_pages L + 4 ≤ sizeof_arena L →
  (Z.to_nat (desc_cnt h) ≤ length (descs h))%nat → 0 ≤ desc_cnt h →
  0 < a → 0 < b →
  Forall (λ d, block_size d < a * b) (classes h) →
  a * b + sizeof_arena L + PGSIZE L ≤ SIZE_MOD →
  palloc_supply h = pa :: rest → pa ≠ 0 → pa + sizeof_arena L ≠ 0 →
  ∃ h1 h2 page_cnt,
    let p := pa + sizeof_arena L in
    calloc L h a b = Ret (h1, p)
    ∧ palloc_log h1 = palloc_log h ++ [PallocGet page_cnt pa]
    ∧ p + a * b ≤ pa + page_cnt * PGSIZE L
    ∧ (∀ i, 0 ≤ i < a * b → mem h1 (p + i) = 0)
    ∧ (∀ x, x < pa ∨ p + a * b ≤ x → mem h1 x = mem h x)
    ∧ load32 (mem h1) pa = ARENA_MAGIC
    ∧ load32 (mem h1) (pa + ofs_num_pages L) = page_cnt
    ∧ free L h1 p = Ret h2
    ∧ palloc_log h2
      = palloc_log h ++ [PallocGet page_cnt pa; PallocFree pa page_cnt]
    ∧ descs h2 = descs h ∧ arena_list h2 = arena_list h.
Proof.
  intros Hk HN HN2 Hl Hc Ha Hb Hall Hfit Hsup Hpa Hp.
  pose proof (PGSIZE_pos L Hk) as HP.
  assert (HH : 0 ≤ sizeof_arena L) by lia.
  assert (Hs : 0 < a * b) by nia.
  assert (Hw : wrap (a * b) = a * b).
  { unfold wrap, SIZE_MOD in *. apply Z.mod_small. lia. }
  destruct (pages_for L (a * b) HP HH Hs Hfit) as [Hb' Hn].
  set (n := DIV_ROUND_UP (wrap (a * b + sizeof_arena L)) (PGSIZE L)) in *.
  assert (Hm : malloc L h (wrap (a * b))
               = Ret (set_mem (palloc_get_multiple h n).1
                        (store32 (store32 (mem h) pa ARENA_MAGIC)
                           (pa + ofs_num_pages L) n),
                      pa + sizeof_arena L)).
  { rewrite Hw. rewrite malloc_too_big by (done || lia).
    by rewrite (malloc_big_eq _ _ _ pa rest). }
  eexists _, _, n. cbv zeta.
  split.
  { eapply calloc_of_malloc; [rewrite Hw; nia | rewrite Hw; nia | exact Hm | exact Hp]. }
  rewrite Hw. simpl. rewrite Hsup. simpl.
  split; [done|]. split; [lia|].
  split. { intros i Hi. rewrite memset_inside by lia. reflexivity. }
  assert (Hout : ∀ x, x + 4 ≤ pa + sizeof_arena L →
            load32 (memset (store32 (store32 (mem h) pa ARENA_MAGIC)
                              (pa + ofs_num_pages L) n)
                      (pa + sizeof_arena L) 0 (a * b)) x
            = load32 (store32 (store32 (mem h) pa ARENA_MAGIC)
                        (pa + ofs_num_pages L) n) x).
  { intros x Hx. unfold load32, memset.
    repeat match goal with
    | |- context [(?d <=? ?y) && _] =>
        replace (d <=? y) with false by (symmetry; apply Z.leb_gt; lia)
    end. reflexivity. }
  split.
  { intros x Hx. unfold memset, store32.
    destruct Hx as [Hx|Hx].
    - replace (pa + sizeof_arena L <=? x) with false
        by (symmetry; apply Z.leb_gt; lia). simpl.
      repeat match goal with
      | |- context [x =? ?y] =>
          replace (x =? y) with false by (symmetry; apply Z.eqb_neq; lia)
      end. reflexivity.
    - replace (x <? pa + sizeof_arena L + a * b) with false
        by (symmetry; apply Z.ltb_ge; lia).
      rewrite andb_false_r.
      repeat match goal with
      | |- context [x =? ?y] =>
          replace (x =? y) with false by (symmetry; apply Z.eqb_neq; lia)
      end. reflexivity. }
  split.
  { rewrite Hout by lia. rewrite load32_store32_ne by lia.
    rewrite load32_store32_eq. reflexivity. }
  assert (Hnp : load32 (memset (store32 (store32 (mem h) pa ARENA_MAGIC)
                              (pa + ofs_num_pages L) n)
                      (pa + sizeof_arena L) 0 (a * b)) (pa + ofs_num_pages L) = n).
  { rewrite Hout by lia. rewrite load32_store32_eq.
    unfold wrap. apply Z.mod_small. lia. }
  split; [exact Hnp|].
  rewrite free_dispatch_unchecked; [| done |].
  - split; [reflexivity|]. simpl.
    replace (pa + sizeof_arena L - sizeof_arena L) with pa by lia.
    rewrite Hnp. rewrite <- app_assoc. simpl. done.
  - simpl. replace (pa + sizeof_arena L - sizeof_arena L) with pa by lia.
    rewrite Hnp. lia.
Qed.

End BigZeroed.

Lemma calloc_big_block_then_free_witness :
  0 ≤ PGBITS i386
  ∧ 4 ≤ ofs_num_pages i386
  ∧ ofs_num_pages i386 + 4 ≤ sizeof_arena i386
  ∧ (Z.to_nat (desc_cnt (started [page0])) ≤ length (descs (started [page0])))%nat
  ∧ 0 ≤ desc_cnt (started [page0])
  ∧ 0 < 50 ∧ 0 < 100
  ∧ Forall (λ d, block_size d < 50 * 100) (classes (started [page0]))
  ∧ 50 * 100 + sizeof_arena i386 + PGSIZE i386 ≤ SIZE_MOD
  ∧ palloc_supply (started [page0]) = page0 :: []
  ∧ page0 ≠ 0
  ∧ page0 + sizeof_arena i386 ≠ 0
  ∧ ∃ h1 h2 page_cnt,
      let p := page0 + sizeof_arena i386 in
      calloc i386 (started [page0]) 50 100 = Ret (h1, p)
      ∧ palloc_log h1 = palloc_log (started [page0]) ++ [PallocGet page_cnt page0]
      ∧ p + 50 * 100 ≤ page0 + page_cnt * PGSIZE i386
      ∧ (∀ i, 0 ≤ i < 50 * 100 → mem h1 (p + i) = 0)
      ∧ (∀ x, x < page0 ∨ p + 50 * 100 ≤ x → mem h1 x = mem (started [page0]) x)
      ∧ load32 (mem h1) page0 = ARENA_MAGIC
      ∧ load32 (mem h1) (page0 + ofs_num_pages i386) = page_cnt
      ∧ free i386 h1 p = Ret h2
      ∧ palloc_log h2
        = palloc_log (started [page0])
          ++ [PallocGet page_cnt page0; PallocFree page0 page_cnt]
      ∧ descs h2 = descs (started [page0])
      ∧ arena_list h2 = arena_list (started [page0]).
Proof.
  assert (H1 : 0 ≤ PGBITS i386) by (simpl; lia).
  assert (H2 : 4 ≤ ofs_num_pages i386) by (simpl; lia).
  assert (H3 : ofs_num_pages i386 + 4 ≤ sizeof_arena i386) by (simpl; lia).
  assert (H4 : (Z.to_nat (desc_cnt (started [page0]))
                ≤ length (descs (started [page0])))%nat)
    by (vm_compute; lia).
  assert (H5 : 0 ≤ desc_cnt (started [page0])) by (vm_compute; discriminate).
  assert (H6 : 0 < 50) by lia.
  assert (H7 : 0 < 100) by lia.
  assert (H8 : Forall (λ d, block_size d < 50 * 100) (classes (started [page0])))
    by (apply started_classes_below; lia).
  assert (H9 : 50 * 100 + sizeof_arena i386 + PGSIZE i386 ≤ SIZE_MOD)
    by (vm_compute; discriminate).
  assert (H10 : palloc_supply (started [page0]) = page0 :: []) by reflexivity.
  assert (H11 : page0 ≠ 0) by (unfold page0; lia).
  assert (H12 : page0 + sizeof_arena i386 ≠ 0) by (unfold page0; simpl; lia).
  split; [exact H1|]. split; [exact H2|]. split; [exact H3|]. split; [exact H4|].
  split; [exact H5|]. split; [exact H6|]. split; [exact H7|]. split; [exact H8|].
  split; [exact H9|]. split; [exact H10|]. split; [exact H11|].
  split; [exact H12|].
  exact (calloc_big_block_then_free i386 (started [page0]) 50 100 page0 []
           H1 H2 H3 H4 H5 H6 H7 H8 H9 H10 H11 H12).
Defined.

(** ** The size word of a block *)

Section Edge.

Variable L : layout.

(** The class search of [free] with a size above every descriptor. *)
Lemma class_index_runs_off fuel : ∀ h b i,
  Forall (λ d, block_size d < block_size_of L h b) (descs h) →
  0 ≤ i → Z.of_nat (length (descs h)) - i ≤ Z.of_nat fuel →
  class_index L fuel h b i = Abort BadAccess.
Proof.
  induction fuel as [|fuel IH]; intros h b i Hall Hi Hf;
    simpl; unfold desc_at;
    (replace (i <? 0) with false by (symmetry; apply Z.ltb_ge; lia));
    (destruct (descs h !! Z.to_nat i) as [d|] eqn:E; simpl; [|done]);
    apply lookup_lt_Some in E as Hlt; [lia|].
  assert (Hd : block_size d < block_size_of L h b).
  { rewrite Forall_forall in Hall. apply Hall.
    by apply (list_elem_of_lookup_2 _ (Z.to_nat i)). }
  apply Z.ltb_lt in Hd. rewrite Hd.
  apply IH; [done|lia|lia].
Qed.

(** X22: the size of a block is kept in the block itself, at the address
    [malloc] returns plus the offset of [size], and [calloc] zeroes it
    with the rest.  [free] of a block that [calloc] has returned, of
    enough bytes to cover that word, whose dispatch word is zero and whose
    page carries the magic number (a block of a class, at the start of
    its arena), divides by its size, which is zero: the kernel stops. *)
Theorem free_after_calloc_divides_by_zero h a b h' p :
  calloc L h a b = Ret (h', p) →
  p ≠ 0 →
  0 ≤ ofs_size L → ofs_size L + 4 ≤ wrap (a * b) →
  load32 (mem h') (p - sizeof_arena L + ofs_num_pages L) = 0 →
  pg_round_down L p ≠ 0 →
  load32 (mem h') (pg_round_down L p) = ARENA_MAGIC →
  block_size_of L h' p = 0 ∧ free L h' p = Abort DivByZero.
Proof.
  intros Hc Hp HS1 HS2 Hn Hpage Hmagic.
  assert (Hz : block_size_of L h' p = 0).
  { unfold block_size_of, load32.
    rewrite !(calloc_zeroed L h a b h' p Hc Hp) by lia. reflexivity. }
  split; [exact Hz|]. unfold free.
  replace (p =? 0) with false by (symmetry; by apply Z.eqb_neq).
  cbv zeta. rewrite Hn. change (0 >? 0) with false. cbv iota.
  rewrite Hz. unfold block_to_arena.
  replace (pg_round_down L p =? 0) with false by (symmetry; by apply Z.eqb_neq).
  rewrite Hmagic. simpl. reflexivity.
Qed.

(** X23: the search of [free] for the class of a block has no bound.
    When the size word of the block is above the block size of every
    element of [descs], and the block passes the checks before the
    search, [free] reads past the end of the array. *)
Theorem free_size_above_every_class h p fa :
  p ≠ 0 →
  load32 (mem h) (p - sizeof_arena L + ofs_num_pages L) = 0 →
  block_to_arena L h p (block_size_of L h p) = Ret fa →
  (length (descs h) ≤ 10)%nat →
  Forall (λ d, block_size d < block_size_of L h p) (descs h) →
  free L h p = Abort BadAccess.
Proof.
  intros Hp Hn Hb Hl Hall. unfold free.
  replace (p =? 0) with false by (symmetry; by apply Z.eqb_neq).
  cbv zeta. rewrite Hn. change (0 >? 0) with false. cbv iota.
  rewrite Hb. cbn [mbind result_bind].
  rewrite class_index_runs_off; [done|done|lia|lia].
Qed.

(** X24: [realloc] of a block above the classes to a size above the
    classes.  The number of bytes copied is the smaller of the new size
    and the word at the offset of [size] in the old block, which for such
    a block is a word of the caller's data, not the size of the block.
    When that count stays inside the old block and the page allocator
    answers with pages apart from those of the old block, [realloc]
    returns the new block, whose first [count] bytes are those of the old
    one, inside the pages obtained; nothing before the new header or
    behind the bytes copied changes, and the pages of the old block go
    back to the page allocator in one call. *)
Theorem realloc_big_block_moves_bytes h p n pb rest :
  0 ≤ PGBITS L →
  4 ≤ ofs_num_pages L → ofs_num_pages L + 4 ≤ sizeof_arena L →
  (Z.to_nat (desc_cnt h) ≤ length (descs h))%nat → 0 ≤ desc_cnt h →
  Forall (λ d, block_size d < n) (classes h) →
  0 < n → n + sizeof_arena L + PGSIZE L ≤ SIZE_MOD →
  palloc_supply h = pb :: rest → pb ≠ 0 → pb + sizeof_arena L ≠ 0 →
  p ≠ 0 →
  let old_pages := load32 (mem h) (p - sizeof_arena L + ofs_num_pages L) in
  let count := Z.min n (block_size_of L h p) in
  0 < old_pages →
  0 ≤ ofs_size L → ofs_size L + 4 ≤ old_pages * PGSIZE L - sizeof_arena L →
  count ≤ old_pages * PGSIZE L - sizeof_arena L →
  pb + (n + sizeof_arena L + PGSIZE L) ≤ p - sizeof_arena L
  ∨ p - sizeof_arena L + old_pages * PGSIZE L ≤ pb →
  ∃ h3 page_cnt,
    let q := pb + sizeof_arena L in
    realloc L h p n = Ret (h3, q)
    ∧ q + count ≤ pb + page_cnt * PGSIZE L
    ∧ (∀ i, 0 ≤ i < count → mem h3 (q + i) = mem h (p + i))
    ∧ (∀ x, x < pb ∨ q + count ≤ x → mem h3 x = mem h x)
    ∧ palloc_log h3
      = palloc_log h
        ++ [PallocGet page_cnt pb; PallocFree (p - sizeof_arena L) old_pages]
    ∧ descs h3 = descs h ∧ arena_list h3 = arena_list h.
Proof.
  intros Hk HN HN2 Hl Hc Hall Hn Hfit Hsup Hpb Hq Hp old_pages count
    Hold HS HS2 Hsrc Hdisj.
  pose proof (PGSIZE_pos L Hk) as HP.
  assert (HH : 0 ≤ sizeof_arena L) by lia.
  destruct (pages_for L n HP HH Hn Hfit) as [Hb Hcnt].
  set (cnt := DIV_ROUND_UP (wrap (n + sizeof_arena L)) (PGSIZE L)) in *.
  set (m1 := store32 (store32 (mem h) pb ARENA_MAGIC) (pb + ofs_num_pages L) cnt).
  assert (Hm : malloc L h n
               = Ret (set_mem (palloc_get_multiple h cnt).1 m1,
                      pb + sizeof_arena L)).
  { rewrite malloc_too_big by (done || lia).
    by rewrite (malloc_big_eq _ _ _ pb rest). }
  (* the header of the new block lies outside the pages of the old one *)
  assert (Hm1 : ∀ x, p - sizeof_arena L ≤ x < p - sizeof_arena L + old_pages * PGSIZE L →
                     m1 x = mem h x).
  { intros x Hx. unfold m1, store32.
    repeat match goal with
    | |- context [x =? ?y] =>
        replace (x =? y) with false by (symmetry; apply Z.eqb_neq; lia)
    end. reflexivity. }
  assert (Hl1 : ∀ x, p - sizeof_arena L ≤ x →
                     x + 4 ≤ p - sizeof_arena L + old_pages * PGSIZE L →
                     load32 m1 x = load32 (mem h) x).
  { intros x Hx1 Hx2. unfold load32. rewrite !Hm1 by lia. reflexivity. }
  assert (Hsz : load32 m1 (p + ofs_size L) = block_size_of L h p).
  { unfold block_size_of. apply Hl1; lia. }
  assert (Hc0 : 0 ≤ count).
  { unfold count, block_size_of.
    pose proof (load32_range (mem h) (p + ofs_size L)). lia. }
  unfold realloc.
  replace (n =? 0) with false by (symmetry; apply Z.eqb_neq; lia).
  rewrite Hm. cbn [mbind result_bind].
  replace (p =? 0) with false by (symmetry; by apply Z.eqb_neq).
  replace (pb + sizeof_arena L =? 0) with false by (symmetry; by apply Z.eqb_neq).
  cbn [negb andb]. cbv zeta.
  unfold block_size_of at 1 2. cbn [mem set_mem]. rewrite Hsz.
  assert (Hmin : (if n <? block_size_of L h p then n else block_size_of L h p)
                 = count).
  { unfold count. destruct (n <? _) eqn:E.
    - apply Z.ltb_lt in E. lia.
    - apply Z.ltb_ge in E. lia. }
  rewrite Hmin.
  set (m2 := memcpy m1 (pb + sizeof_arena L) p count).
  assert (Hw : load32 m2 (p - sizeof_arena L + ofs_num_pages L) = old_pages).
  { unfold m2, load32, memcpy.
    repeat match goal with
    | |- context [(?x <=? ?y) && (?y <? ?z)] =>
        replace ((x <=? y) && (y <? z)) with false
          by (symmetry; apply andb_false_iff;
              rewrite Z.leb_gt, Z.ltb_ge; lia)
    end. rewrite !Hm1 by lia. reflexivity. }
  rewrite free_dispatch_unchecked; [ | done | ].
  2:{ cbn [mem set_mem]. fold m2. rewrite Hw. exact Hold. }
  cbn [mbind result_bind mem set_mem]. fold m2. rewrite Hw.
  eexists _, cnt. split; [reflexivity|].
  split; [lia|].
  split.
  { intros i Hi. simpl. unfold m2, memcpy.
    replace ((pb + sizeof_arena L <=? pb + sizeof_arena L + i)
             && (pb + sizeof_arena L + i <? pb + sizeof_arena L + count))
      with true
      by (symmetry; apply andb_true_iff; rewrite Z.leb_le, Z.ltb_lt; lia).
    replace (p + (pb + sizeof_arena L + i - (pb + sizeof_arena L)))
      with (p + i) by lia.
    apply Hm1. lia. }
  split.
  { intros x Hx. simpl. unfold m2, memcpy.
    replace ((pb + sizeof_arena L <=? x) && (x <? pb + sizeof_arena L + count))
      with false
      by (symmetry; apply andb_false_iff; rewrite Z.leb_gt, Z.ltb_ge; lia).
    unfold m1, store32.
    repeat match goal with
    | |- context [x =? ?y] =>
        replace (x =? y) with false by (symmetry; apply Z.eqb_neq; lia)
    end. reflexivity. }
  simpl. rewrite Hsup. simpl. rewrite <- app_assoc. done.
Qed.

End Edge.

Lemma free_after_calloc_divides_by_zero_witness :
  calloc i386 (started [page0]) 1 40
  = Ret (set_mem one_small_block
           (memset (mem one_small_block) (page0 + 24) 0 (wrap (1 * 40))),
         page0 + 24)
  ∧ page0 + 24 ≠ 0
  ∧ 0 ≤ ofs_size i386
  ∧ ofs_size i386 + 4 ≤ wrap (1 * 40)
  ∧ load32 (mem (set_mem one_small_block
                   (memset (mem one_small_block) (page0 + 24) 0 (wrap (1 * 40)))))
      (page0 + 24 - sizeof_arena i386 + ofs_num_pages i386) = 0
  ∧ pg_round_down i386 (page0 + 24) ≠ 0
  ∧ load32 (mem (set_mem one_small_block
                   (memset (mem one_small_block) (page0 + 24) 0 (wrap (1 * 40)))))
      (pg_round_down i386 (page0 + 24)) = ARENA_MAGIC
  ∧ block_size_of i386
      (set_mem one_small_block
         (memset (mem one_small_block) (page0 + 24) 0 (wrap (1 * 40))))
      (page0 + 24) = 0
  ∧ free i386
      (set_mem one_small_block
         (memset (mem one_small_block) (page0 + 24) 0 (wrap (1 * 40))))
      (page0 + 24) = Abort DivByZero.
Proof.
  assert (Hm : malloc i386 (started [page0]) (wrap (1 * 40))
               = Ret (one_small_block, page0 + 24)) by (vm_compute; reflexivity).
  assert (H2 : page0 + 24 ≠ 0) by (unfold page0; lia).
  assert (H1 : calloc i386 (started [page0]) 1 40
               = Ret (set_mem one_small_block
                        (memset (mem one_small_block) (page0 + 24) 0
                           (wrap (1 * 40))),
                      page0 + 24)).
  { apply calloc_of_malloc; [vm_compute; discriminate|vm_compute; discriminate
                            |exact Hm|exact H2]. }
  assert (H3 : 0 ≤ ofs_size i386) by (simpl; lia).
  assert (H4 : ofs_size i386 + 4 ≤ wrap (1 * 40)) by (vm_compute; discriminate).
  assert (H5 : load32 (mem (set_mem one_small_block
                   (memset (mem one_small_block) (page0 + 24) 0 (wrap (1 * 40)))))
      (page0 + 24 - sizeof_arena i386 + ofs_num_pages i386) = 0)
    by (vm_compute; reflexivity).
  assert (H6 : pg_round_down i386 (page0 + 24) ≠ 0) by (vm_compute; discriminate).
  assert (H7 : load32 (mem (set_mem one_small_block
                   (memset (mem one_small_block) (page0 + 24) 0 (wrap (1 * 40)))))
      (pg_round_down i386 (page0 + 24)) = ARENA_MAGIC)
    by (vm_compute; reflexivity).
  split; [exact H1|]. split; [exact H2|]. split; [exact H3|]. split; [exact H4|].
  split; [exact H5|]. split; [exact H6|]. split; [exact H7|].
  exact (free_after_calloc_divides_by_zero i386 (started [page0]) 1 40 _
           (page0 + 24) H1 H2 H3 H4 H5 H6 H7).
Defined.

Lemma free_size_above_every_class_witness :
  page0 + 24 ≠ 0
  ∧ load32 (mem (set_block_size i386 one_small_block (page0 + 24) 2048))
      (page0 + 24 - sizeof_arena i386 + ofs_num_pages i386) = 0
  ∧ block_to_arena i386 (set_block_size i386 one_small_block (page0 + 24) 2048)
      (page0 + 24)
      (block_size_of i386
         (set_block_size i386 one_small_block (page0 + 24) 2048) (page0 + 24))
    = Ret page0
  ∧ (length (descs (set_block_size i386 one_small_block (page0 + 24) 2048))
     ≤ 10)%nat
  ∧ Forall (λ d, block_size d
                 < block_size_of i386
                     (set_block_size i386 one_small_block (page0 + 24) 2048)
                     (page0 + 24))
      (descs (set_block_size i386 one_small_block (page0 + 24) 2048))
  ∧ free i386 (set_block_size i386 one_small_block (page0 + 24) 2048)
      (page0 + 24) = Abort BadAccess.
Proof.
  assert (H1 : page0 + 24 ≠ 0) by (unfold page0; lia).
  assert (H2 : load32 (mem (set_block_size i386 one_small_block (page0 + 24) 2048))
                 (page0 + 24 - sizeof_arena i386 + ofs_num_pages i386) = 0)
    by (vm_compute; reflexivity).
  assert (H3 : block_to_arena i386
                 (set_block_size i386 one_small_block (page0 + 24) 2048)
                 (page0 + 24)
                 (block_size_of i386
                    (set_block_size i386 one_small_block (page0 + 24) 2048)
                    (page0 + 24))
               = Ret page0) by (vm_compute; reflexivity).
  assert (H4 : (length (descs (set_block_size i386 one_small_block
                                 (page0 + 24) 2048)) ≤ 10)%nat)
    by (vm_compute; lia).
  assert (H5 : Forall (λ d, block_size d
                 < block_size_of i386
                     (set_block_size i386 one_small_block (page0 + 24) 2048)
                     (page0 + 24))
      (descs (set_block_size i386 one_small_block (page0 + 24) 2048))).
  { assert (E : block_size_of i386
                  (set_block_size i386 one_small_block (page0 + 24) 2048)
                  (page0 + 24) = 2048) by (vm_compute; reflexivity).
    rewrite E. vm_compute descs. repeat constructor; simpl; lia. }
  split; [exact H1|]. split; [exact H2|]. split; [exact H3|]. split; [exact H4|].
  split; [exact H5|].
  exact (free_size_above_every_class i386 _ (page0 + 24) page0
           H1 H2 H3 H4 H5).
Defined.

Lemma big_block_with_data_classes_below size :
  1024 < size → Forall (λ d, block_size d < size) (classes big_block_with_data).
Proof. intros H. vm_compute classes. repeat constructor; simpl; lia. Qed.

Lemma realloc_big_block_moves_bytes_witness :
  0 ≤ PGBITS i386
  ∧ 4 ≤ ofs_num_pages i386
  ∧ ofs_num_pages i386 + 4 ≤ sizeof_arena i386
  ∧ (Z.to_nat (desc_cnt big_block_with_data)
     ≤ length (descs big_block_with_data))%nat
  ∧ 0 ≤ desc_cnt big_block_with_data
  ∧ Forall (λ d, block_size d < 5000) (classes big_block_with_data)
  ∧ 0 < 5000
  ∧ 5000 + sizeof_arena i386 + PGSIZE i386 ≤ SIZE_MOD
  ∧ palloc_supply big_block_with_data = page1 :: []
  ∧ page1 ≠ 0
  ∧ page1 + sizeof_arena i386 ≠ 0
  ∧ page0 + 24 ≠ 0
  ∧ load32 (mem big_block_with_data)
      (page0 + 24 - sizeof_arena i386 + ofs_num_pages i386) = 1
  ∧ Z.min 5000 (block_size_of i386 big_block_with_data (page0 + 24)) = 100
  ∧ 0 ≤ ofs_size i386
  ∧ ofs_size i386 + 4 ≤ 1 * PGSIZE i386 - sizeof_arena i386
  ∧ 100 ≤ 1 * PGSIZE i386 - sizeof_arena i386
  ∧ page0 + 24 - sizeof_arena i386 + 1 * PGSIZE i386 ≤ page1
  ∧ ∃ h3 page_cnt,
      realloc i386 big_block_with_data (page0 + 24) 5000
      = Ret (h3, page1 + sizeof_arena i386)
      ∧ page1 + sizeof_arena i386 + 100 ≤ page1 + page_cnt * PGSIZE i386
      ∧ (∀ i, 0 ≤ i < 100 →
              mem h3 (page1 + sizeof_arena i386 + i)
              = mem big_block_with_data (page0 + 24 + i))
      ∧ (∀ x, x < page1 ∨ page1 + sizeof_arena i386 + 100 ≤ x →
              mem h3 x = mem big_block_with_data x)
      ∧ palloc_log h3
        = palloc_log big_block_with_data
          ++ [PallocGet page_cnt page1;
              PallocFree (page0 + 24 - sizeof_arena i386) 1]
      ∧ descs h3 = descs big_block_with_data
      ∧ arena_list h3 = arena_list big_block_with_data.
Proof.
  assert (H1 : 0 ≤ PGBITS i386) by (simpl; lia).
  assert (H2 : 4 ≤ ofs_num_pages i386) by (simpl; lia).
  assert (H3 : ofs_num_pages i386 + 4 ≤ sizeof_arena i386) by (simpl; lia).
  assert (H4 : (Z.to_nat (desc_cnt big_block_with_data)
                ≤ length (descs big_block_with_data))%nat)
    by (vm_compute; lia).
  assert (H5 : 0 ≤ desc_cnt big_block_with_data) by (vm_compute; discriminate).
  assert (H6 : Forall (λ d, block_size d < 5000) (classes big_block_with_data))
    by (apply big_block_with_data_classes_below; lia).
  assert (H7 : 0 < 5000) by lia.
  assert (H8 : 5000 + sizeof_arena i386 + PGSIZE i386 ≤ SIZE_MOD)
    by (vm_compute; discriminate).
  assert (H9 : palloc_supply big_block_with_data = page1 :: [])
    by (vm_compute; reflexivity).
  assert (H10 : page1 ≠ 0) by (unfold page1; lia).
  assert (H11 : page1 + sizeof_arena i386 ≠ 0) by (unfold page1; simpl; lia).
  assert (H12 : page0 + 24 ≠ 0) by (unfold page0; lia).
  assert (H13 : load32 (mem big_block_with_data)
                  (page0 + 24 - sizeof_arena i386 + ofs_num_pages i386) = 1)
    by (vm_compute; reflexivity).
  assert (H14 : Z.min 5000 (block_size_of i386 big_block_with_data (page0 + 24))
                = 100)
    by (vm_compute; reflexivity).
  assert (H15 : 0 ≤ ofs_size i386) by (simpl; lia).
  assert (H16 : ofs_size i386 + 4 ≤ 1 * PGSIZE i386 - sizeof_arena i386)
    by (vm_compute; discriminate).
  assert (H17 : 100 ≤ 1 * PGSIZE i386 - sizeof_arena i386)
    by (vm_compute; discriminate).
  assert (H18 : page0 + 24 - sizeof_arena i386 + 1 * PGSIZE i386 ≤ page1)
    by (vm_compute; discriminate).
  split; [exact H1|]. split; [exact H2|]. split; [exact H3|]. split; [exact H4|].
  split; [exact H5|]. split; [exact H6|]. split; [exact H7|]. split; [exact H8|].
  split; [exact H9|]. split; [exact H10|]. split; [exact H11|].
  split; [exact H12|]. split; [exact H13|]. split; [exact H14|].
  split; [exact H15|]. split; [exact H16|]. split; [exact H17|].
  split; [exact H18|].
  pose proof (realloc_big_block_moves_bytes i386 big_block_with_data (page0 + 24)
                5000 page1 [] H1 H2 H3 H4 H5 H6 H7 H8 H9 H10 H11 H12) as T.
  cbv zeta in T. rewrite H13, H14 in T.
  exact (T ltac:(lia) H15 H16 H17 (or_intror H18)).
Defined.

(** ** [printMemory] *)

Section Printing.

Variable L : layout.

Lemma print_blocks_filter h a l :
  Forall (λ b, block_to_arena L h b (block_size_of L h b)
               = Ret (pg_round_down L b)) l →
  print_blocks L h a l
  = Ret ((λ b, BlockAddress (to_int b))
           <$> filter (λ b, pg_round_down L b = a) l).
Proof.
  induction 1 as [|b l Hb _ IH]; [done|].
  simpl. rewrite Hb, IH. simpl. rewrite filter_cons.
  destruct (decide (pg_round_down L b = a)) as [->|Hne].
  - by rewrite Z.eqb_refl.
  - by replace (pg_round_down L b =? a) with false
      by (symmetry; by apply Z.eqb_neq).
Qed.

Lemma print_classes_lines fuel : ∀ h a j,
  (Z.to_nat (desc_cnt h) ≤ length (descs h))%nat →
  free_blocks_checked L h →
  0 ≤ j ≤ desc_cnt h →
  desc_cnt h - j ≤ Z.of_nat fuel →
  print_classes L fuel h a j
  = Ret (concat (class_line L a <$> drop (Z.to_nat j) (classes h))).
Proof.
  induction fuel as [|fuel IH]; intros h a j Hl Hok Hj Hf.
  - assert (j = desc_cnt h) as -> by lia. simpl. rewrite Z.ltb_irrefl.
    rewrite drop_ge; [done|]. unfold classes. rewrite length_take. lia.
  - simpl. destruct (j <? desc_cnt h) eqn:E.
    + apply Z.ltb_lt in E.
      destruct (desc_at_classes h j ltac:(lia) Hl) as (d & Hd & Hin).
      rewrite Hd. simpl.
      assert (Hlook : classes h !! Z.to_nat j = Some d).
      { unfold classes. rewrite lookup_take_lt by lia.
        by apply desc_at_lookup. }
      rewrite (print_blocks_filter h a (free_list d)).
      2:{ unfold free_blocks_checked in Hok. rewrite Forall_forall in Hok.
          by apply Hok. }
      simpl. rewrite (IH h a (j + 1)) by (done || lia). simpl.
      rewrite (drop_S _ _ _ Hlook). simpl.
      replace (Z.to_nat (j + 1)) with (S (Z.to_nat j)) by lia.
      unfold class_line at 2. simpl. by rewrite <- app_assoc.
    + apply Z.ltb_ge in E. assert (j = desc_cnt h) as -> by lia.
      rewrite drop_ge; [done|]. unfold classes. rewrite length_take. lia.
Qed.

Lemma print_pages_reports h : ∀ l n,
  (Z.to_nat (desc_cnt h) ≤ length (descs h))%nat →
  0 ≤ desc_cnt h →
  free_blocks_checked L h →
  print_pages L h n l = Ret (page_reports L h n l).
Proof.
  induction l as [|a rest IH]; intros n Hl Hc Hok; [done|].
  simpl. rewrite print_classes_lines by (done || lia). simpl.
  rewrite IH by done. simpl. by rewrite drop_0.
Qed.

(** X25: on a heap whose free blocks pass the checks of [block_to_arena],
    [printMemory] returns and writes the title and then, for each arena of
    the arena list in order, numbered from 0, the page number, the page
    address and one line for each class with the free blocks of the class
    that lie in the page of that arena, in the order of the free list;
    with an empty arena list it writes that there are no free blocks.  A
    free block in a page that is not on the arena list is not
    written. *)
Theorem printMemory_lists_free_blocks_by_page h :
  (Z.to_nat (desc_cnt h) ≤ length (descs h))%nat →
  0 ≤ desc_cnt h →
  free_blocks_checked L h →
  printMemory L h = Ret (report L h).
Proof.
  intros Hl Hc Hok. unfold printMemory, report.
  destruct (arena_list h) as [|a rest] eqn:E.
  - by rewrite bool_decide_eq_true_2.
  - rewrite bool_decide_eq_false_2 by done.
    by rewrite print_pages_reports.
Qed.

End Printing.

Lemma printMemory_lists_free_blocks_by_page_witness :
  (Z.to_nat (desc_cnt one_small_block) ≤ length (descs one_small_block))%nat
  ∧ 0 ≤ desc_cnt one_small_block
  ∧ free_blocks_checked i386 one_small_block
  ∧ printMemory i386 one_small_block = Ret (report i386 one_small_block)
  ∧ report i386 one_small_block
    = [Rule; Title; Rule;
       Rule; PageNumber 0; PageAddress page0; Rule;
       SizeLabel 16; EndOfLine;
       SizeLabel 32; EndOfLine;
       SizeLabel 64; BlockAddress (to_int (page0 + 24 + 64)); EndOfLine;
       SizeLabel 128; BlockAddress (to_int (page0 + 24 + 128)); EndOfLine;
       SizeLabel 256; BlockAddress (to_int (page0 + 24 + 256)); EndOfLine;
       SizeLabel 512; BlockAddress (to_int (page0 + 24 + 512)); EndOfLine;
       SizeLabel 1024; BlockAddress (to_int (page0 + 24 + 1024)); EndOfLine;
       Rule].
Proof.
  assert (H1 : (Z.to_nat (desc_cnt one_small_block)
                ≤ length (descs one_small_block))%nat) by (vm_compute; lia).
  assert (H2 : 0 ≤ desc_cnt one_small_block) by (vm_compute; discriminate).
  assert (H3 : free_blocks_checked i386 one_small_block).
  { unfold free_blocks_checked.
    assert (E : classes one_small_block
                = [mk_desc 16 0 []; mk_desc 32 0 [];
                   mk_desc 64 0 [page0 + 24 + 64];
                   mk_desc 128 0 [page0 + 24 + 128];
                   mk_desc 256 0 [page0 + 24 + 256];
                   mk_desc 512 0 [page0 + 24 + 512];
                   mk_desc 1024 0 [page0 + 24 + 1024]])
      by (vm_compute; reflexivity).
    rewrite E.
    repeat (constructor; [repeat (constructor; [vm_compute; reflexivity|])|]);
      try constructor. }
  split; [exact H1|]. split; [exact H2|]. split; [exact H3|].
  split; [|vm_compute; reflexivity].
  exact (printMemory_lists_free_blocks_by_page i386 one_small_block H1 H2 H3).
Defined.

(** ** More turns of the loops *)

Section MoreSteps.

Variable L : layout.

(** The scans of lines 115-124. *)
Lemma first_nonempty_next fuel h bc d :
  desc_at h bc = Ret d → free_list d = [] → bc < desc_cnt h →
  first_nonempty (S fuel) h bc = first_nonempty fuel h (bc + 1).
Proof.
  intros Hd He Hlt. simpl. rewrite Hd. simpl. rewrite He.
  rewrite bool_decide_eq_true_2 by done.
  by replace (bc <? desc_cnt h) with true by (symmetry; apply Z.ltb_lt; lia).
Qed.

Lemma first_nonempty_stop fuel h bc d :
  desc_at h bc = Ret d → free_list d ≠ [] ∨ desc_cnt h ≤ bc →
  first_nonempty fuel h bc = Ret bc.
Proof.
  intros Hd Hs. destruct fuel; simpl; rewrite Hd; simpl;
    (destruct Hs as [Hne|Hge];
     [ by rewrite bool_decide_eq_false_2
     | replace (bc <? desc_cnt h) with false by (symmetry; apply Z.ltb_ge; lia);
       by rewrite andb_false_r ]).
Qed.

Lemma find_desc_next fuel h size i d :
  desc_at h i = Ret d → i < desc_cnt h → block_size d < size →
  find_desc (S fuel) h size i = find_desc fuel h size (i + 1).
Proof.
  intros Hd Hlt Hs. simpl.
  replace (i <? desc_cnt h) with true by (symmetry; apply Z.ltb_lt; lia).
  rewrite Hd. simpl.
  by replace (block_size d >=? size) with false
    by (symmetry; rewrite Z.geb_leb; apply Z.leb_gt; lia).
Qed.

Lemma find_desc_hit fuel h size i d bc :
  desc_at h i = Ret d → i < desc_cnt h → size ≤ block_size d →
  first_nonempty (Z.to_nat (desc_cnt h - i)) h i = Ret bc →
  find_desc fuel h size i = Ret (i, bc).
Proof.
  intros Hd Hlt Hs Hf. destruct fuel; simpl;
    (replace (i <? desc_cnt h) with true by (symmetry; apply Z.ltb_lt; lia));
    rewrite Hd; simpl;
    (replace (block_size d >=? size) with true
       by (symmetry; rewrite Z.geb_leb; apply Z.leb_le; lia));
    by rewrite Hf.
Qed.

(** [malloc] when a free block is found at or above the class. *)
Lemma malloc_reuse_path h size d bc :
  size ≠ 0 →
  find_desc (Z.to_nat (desc_cnt h)) h size 0 = Ret (d, bc) →
  d ≠ desc_cnt h → bc ≠ desc_cnt h →
  malloc L h size = malloc_reuse L h d bc.
Proof.
  intros Hs Hf Hd Hbc. unfold malloc.
  replace (size =? 0) with false by (symmetry; by apply Z.eqb_neq).
  rewrite Hf. simpl.
  replace (d =? desc_cnt h) with false by (symmetry; by apply Z.eqb_neq).
  by replace (bc =? desc_cnt h) with false by (symmetry; by apply Z.eqb_neq).
Qed.

(** The loop of lines 196-197. *)
Lemma find_idx_next fuel h bc idx di db :
  desc_at h (desc_cnt h - idx) = Ret di → desc_at h bc = Ret db →
  block_size db < block_size di →
  find_idx (S fuel) h bc idx = find_idx fuel h bc (idx + 1).
Proof.
  intros Hi Hb Hlt. simpl. rewrite Hi, Hb. simpl.
  by replace (block_size di <=? block_size db) with false
    by (symmetry; apply Z.leb_gt; lia).
Qed.

Lemma find_idx_stop fuel h bc idx di db :
  desc_at h (desc_cnt h - idx) = Ret di → desc_at h bc = Ret db →
  block_size di ≤ block_size db →
  find_idx fuel h bc idx = Ret idx.
Proof.
  intros Hi Hb Hle. destruct fuel; simpl; rewrite Hi, Hb; simpl;
    by replace (block_size di <=? block_size db) with true
      by (symmetry; apply Z.leb_le; lia).
Qed.

(** Lines 187-205 up to the test of line 199. *)
Lemma malloc_reuse_eq h d bc dtop db b rest fa idx :
  desc_at h (desc_cnt h - 1) = Ret dtop →
  desc_at h bc = Ret db →
  free_list db = b :: rest →
  block_to_arena L h b (block_size_of L h b) = Ret fa →
  find_idx (Z.to_nat (desc_cnt h)) h bc 1 = Ret idx →
  malloc_reuse L h d bc
  = if bc =? d then pop_front h bc
    else '(h1, bc1) ← split L (Z.to_nat (desc_cnt h)) h fa d bc idx;
         pop_front h1 bc1.
Proof.
  intros Htop Hb Hl Ha Hi. unfold malloc_reuse.
  rewrite Htop. cbn [mbind result_bind]. rewrite Hb. cbn [mbind result_bind].
  rewrite Hl. cbn [head from_option mbind result_bind].
  rewrite Ha. cbn [mbind result_bind]. rewrite Hi. reflexivity.
Qed.

(** [list_pop_front] of a list that is not empty. *)
Lemma pop_front_eq h i d b rest :
  desc_at h i = Ret d → free_list d = b :: rest →
  pop_front h i
  = Ret (set_descs h (<[Z.to_nat i := mk_desc (block_size d) (blocks_per_arena d)
                                        rest]> (descs h)), b).
Proof.
  intros Hd Hl. unfold pop_front, set_free_list. rewrite Hd. simpl.
  rewrite Hl. reflexivity.
Qed.

(** One turn of the loop of lines 207-237. *)
Lemma split_step fuel h fa d bc idx di dt b rest di' h4 h5 di5 dt5 :
  desc_at h (desc_cnt h - idx) = Ret di →
  desc_at h d = Ret dt →
  block_size dt < block_size di →
  ∀ db, desc_at h bc = Ret db → free_list db = b :: rest →
  block_size di ≠ 0 →
  let h1 := set_descs h (<[Z.to_nat bc := mk_desc (block_size db)
                                            (blocks_per_arena db) rest]> (descs h)) in
  let block_index := to_int (wrap (pg_ofs L b - sizeof_arena L) / block_size di) in
  let buddy_one_index := to_int (2 * block_index) in
  let buddy_two_index := to_int (buddy_one_index + 1) in
  desc_at h1 (desc_cnt h1 - (idx + 1)) = Ret di' →
  fa ≠ 0 → load32 (mem h) fa = ARENA_MAGIC →
  let buddy_two := fa + sizeof_arena L + wrap (wrap buddy_two_index * block_size di') in
  let buddy_one := fa + sizeof_arena L + wrap (wrap buddy_one_index * block_size di') in
  load32 (mem (set_block_size L h1 buddy_two (block_size di'))) fa = ARENA_MAGIC →
  push_back (set_block_size L (set_block_size L h1 buddy_two (block_size di'))
               buddy_one (block_size di')) (bc - 1) buddy_one = Ret h4 →
  push_back h4 (bc - 1) buddy_two = Ret h5 →
  desc_at h5 (desc_cnt h5 - (idx + 1)) = Ret di5 →
  desc_at h5 d = Ret dt5 →
  split L (S fuel) h fa d bc idx
  = if block_size di5 <=? block_size dt5 then Ret (h5, bc - 1)
    else split L fuel h5 fa d (bc - 1) (idx + 1).
Proof.
  intros Hdi Hdt Hlt db Hdb Hl Hnz h1 block_index buddy_one_index
    buddy_two_index Hdi' Hfa Hm buddy_two buddy_one Hm2 Hp4 Hp5 Hdi5 Hdt5.
  simpl. rewrite Hdi, Hdt. simpl.
  replace (block_size di >? block_size dt) with true
    by (symmetry; apply Z.gtb_lt; lia).
  rewrite (pop_front_eq h bc db b rest Hdb Hl). cbn [mbind result_bind].
  fold h1. unfold udiv.
  replace (block_size di =? 0) with false by (symmetry; by apply Z.eqb_neq).
  cbn [mbind result_bind]. fold block_index. fold buddy_one_index.
  fold buddy_two_index. rewrite Hdi'. cbn [mbind result_bind].
  rewrite arena_to_block_ok by done. cbn [mbind result_bind].
  fold buddy_two.
  change (desc_cnt (set_block_size L h1 buddy_two (block_size di')))
    with (desc_cnt h1).
  change (desc_at (set_block_size L h1 buddy_two (block_size di'))
            (desc_cnt h1 - (idx + 1)))
    with (desc_at h1 (desc_cnt h1 - (idx + 1))).
  rewrite Hdi'. cbn [mbind result_bind].
  rewrite arena_to_block_ok by done. cbn [mbind result_bind].
  fold buddy_one. rewrite Hp4. cbn [mbind result_bind].
  rewrite Hp5. cbn [mbind result_bind]. rewrite Hdi5, Hdt5.
  cbn [mbind result_bind].
  by destruct (block_size di5 <=? block_size dt5).
Qed.

(** The loop of lines 160-172 when the top class is the class asked for. *)
Lemma carve_stop fuel h a d j dj dt :
  desc_at h (desc_cnt h - j) = Ret dj →
  desc_at h d = Ret dt →
  block_size dj ≤ block_size dt →
  carve L fuel h a d j = Ret (h, j).
Proof.
  intros Hdj Hdt Hle. destruct fuel; simpl; rewrite Hdj, Hdt; simpl;
    by replace (block_size dj >? block_size dt) with false
      by (symmetry; rewrite Z.gtb_ltb; apply Z.ltb_ge; lia).
Qed.

(** [realloc] to a size that is not zero, of a block that is not null,
    once [malloc] has found memory. *)
Lemma realloc_eq h p n h1 q :
  n ≠ 0 → p ≠ 0 → q ≠ 0 →
  malloc L h n = Ret (h1, q) →
  realloc L h p n
  = h3 ← free L (set_mem h1 (memcpy (mem h1) q p
                               (Z.min n (block_size_of L h1 p)))) p;
    Ret (h3, q).
Proof.
  intros Hn Hp Hq Hm. unfold realloc.
  replace (n =? 0) with false by (symmetry; by apply Z.eqb_neq).
  rewrite Hm. cbn [mbind result_bind].
  replace (p =? 0) with false by (symmetry; by apply Z.eqb_neq).
  replace (q =? 0) with false by (symmetry; by apply Z.eqb_neq).
  cbn [negb andb]. cbv zeta.
  replace (if n <? block_size_of L h1 p then n else block_size_of L h1 p)
    with (Z.min n (block_size_of L h1 p)); [done|].
  destruct (n <? _) eqn:E.
  - apply Z.ltb_lt in E. lia.
  - apply Z.ltb_ge in E. lia.
Qed.
End MoreSteps.

(** Loads from a memory that [memcpy] has written. *)
Lemma load32_memcpy_out m dst src n x :
  x + 4 ≤ dst ∨ dst + n ≤ x → load32 (memcpy m dst src n) x = load32 m x.
Proof.
  intros H. unfold load32, memcpy.
  repeat match goal with
  | |- context [(?a <=? ?b) && (?b <? ?c)] =>
      replace ((a <=? b) && (b <? c)) with false
        by (symmetry; apply andb_false_iff; rewrite Z.leb_gt, Z.ltb_ge; lia)
  end. reflexivity.
Qed.

Lemma load32_memcpy_in m dst src n x :
  dst ≤ x → x + 4 ≤ dst + n →
  load32 (memcpy m dst src n) x = load32 m (src + (x - dst)).
Proof.
  intros H1 H2. unfold load32, memcpy.
  repeat match goal with
  | |- context [(?a <=? ?b) && (?b <? ?c)] =>
      replace ((a <=? b) && (b <? c)) with true
        by (symmetry; apply andb_true_iff; rewrite Z.leb_le, Z.ltb_lt; lia)
  end.
  replace (src + (x + 1 - dst)) with (src + (x - dst) + 1) by lia.
  replace (src + (x + 2 - dst)) with (src + (x - dst) + 2) by lia.
  replace (src + (x + 3 - dst)) with (src + (x - dst) + 3) by lia.
  reflexivity.
Qed.


(** ** Scenario S1 *)

(** Tactics that run the model on a heap whose addresses are symbolic. *)
Ltac is_pos_lit p :=
  lazymatch p with
  | xH => idtac
  | xO ?q => is_pos_lit q
  | xI ?q => is_pos_lit q
  end.

Ltac is_Z_lit z :=
  lazymatch z with
  | Z0 => idtac
  | Zpos ?p => is_pos_lit p
  | Zneg ?p => is_pos_lit p
  end.

Ltac compute_lit t :=
  let v := eval vm_compute in t in
  change t with v.

(** Arithmetic on numerals, which [simpl] leaves alone under stdpp. *)
Ltac zlit :=
  repeat match goal with
  | |- context [Z.add ?x ?y] => is_Z_lit x; is_Z_lit y; compute_lit (Z.add x y)
  | |- context [Z.sub ?x ?y] => is_Z_lit x; is_Z_lit y; compute_lit (Z.sub x y)
  | |- context [Z.mul ?x ?y] => is_Z_lit x; is_Z_lit y; compute_lit (Z.mul x y)
  | |- context [Z.div ?x ?y] => is_Z_lit x; is_Z_lit y; compute_lit (Z.div x y)
  | |- context [Z.land ?x ?y] => is_Z_lit x; is_Z_lit y; compute_lit (Z.land x y)
  | |- context [wrap ?x] => is_Z_lit x; compute_lit (wrap x)
  | |- context [to_int ?x] => is_Z_lit x; compute_lit (to_int x)
  | |- context [Z.to_nat ?x] => is_Z_lit x; compute_lit (Z.to_nat x)
  | |- context [Z.gtb ?x ?y] => is_Z_lit x; is_Z_lit y; compute_lit (Z.gtb x y)
  | |- context [Z.ltb ?x ?y] => is_Z_lit x; is_Z_lit y; compute_lit (Z.ltb x y)
  | |- context [Z.leb ?x ?y] => is_Z_lit x; is_Z_lit y; compute_lit (Z.leb x y)
  | |- context [Z.eqb ?x ?y] => is_Z_lit x; is_Z_lit y; compute_lit (Z.eqb x y)
  end.

Ltac load_simpl :=
  repeat match goal with
  | |- context [load32 (store32 ?m ?x ?v) ?y] =>
      first [ rewrite (load32_store32_ne m x y v) by lia
            | replace y with x by lia; rewrite (load32_store32_eq m x v) ]
  end.

Ltac eqb_lia :=
  repeat match goal with
  | |- context [Z.eqb ?x ?y] =>
      first [ replace (Z.eqb x y) with false by (symmetry; apply Z.eqb_neq; lia)
            | replace (Z.eqb x y) with true by (symmetry; apply Z.eqb_eq; lia) ]
  end.

Lemma block_to_arena_in_page L h a c size :
  0 ≤ PGBITS L → a ≠ 0 → a mod PGSIZE L = 0 → 0 ≤ c < PGSIZE L →
  load32 (mem h) a = ARENA_MAGIC → size ≠ 0 →
  wrap (c - sizeof_arena L) mod size = 0 →
  block_to_arena L h (a + c) size = Ret a.
Proof.
  intros Hk Ha Hal Hc Hm Hs Hr.
  rewrite block_to_arena_ok; rewrite ?pg_round_down_in_page, ?pg_ofs_in_page by done;
    done.
Qed.

Local Arguments load32 : simpl never.
Local Arguments store32 : simpl never.
Local Arguments pg_ofs : simpl never.
Local Arguments pg_round_down : simpl never.
Local Arguments arena_to_block : simpl never.
Local Arguments block_to_arena : simpl never.
Local Arguments wrap : simpl never.
Local Arguments to_int : simpl never.
Local Arguments carve : simpl never.
Local Arguments coalesce : simpl never.
Local Arguments class_index : simpl never.
Local Arguments PGSIZE : simpl never.

Ltac page_ofs :=
  repeat match goal with
  | |- context [pg_ofs ?L (?a + ?c)] =>
      rewrite (pg_ofs_in_page L a c)
        by (first [ simpl; lia
                  | change (PGSIZE _) with 4096; first [assumption | lia] ])
  end.

Ltac crunch :=
  cbv zeta;
  unfold block_size_of, push_back, set_free_list, set_block_size, set_mem,
    set_descs, set_arena_list, palloc_free_multiple;
  repeat (progress (simpl; page_ofs; rewrite ?Z.sub_diag; load_simpl; zlit;
                    eqb_lia)).

Ltac side :=
  crunch;
  first [ reflexivity | lia | assumption
        | change (PGSIZE _) with 4096; first [assumption | lia] ].

(** C4: on an empty heap with pages of 4096 bytes, whatever page [a] the
    page allocator hands out and for every layout of the arena header,
    [malloc (40)] picks the class of 64 bytes, asks for exactly one page,
    leaves one block of that arena on the free list of each of the
    classes 1024, 512, 256 and 128 (and the buddy of the result on the
    list of class 64) and returns the block of 64 bytes that follows the
    header; [free] of that pointer then merges the buddies through every
    class, takes the arena off the arena list and returns the page to the
    page allocator. *)
Theorem alloc_40_then_free L m a supply :
  PGBITS L = 12 →
  4 ≤ ofs_num_pages L → ofs_num_pages L + 4 ≤ sizeof_arena L →
  0 ≤ ofs_size L → ofs_size L + 4 ≤ 16 →
  sizeof_arena L < PGSIZE L →
  0 < a → a mod PGSIZE L = 0 →
  ∃ h0 h1 h2,
    let p := a + sizeof_arena L in
    malloc_init L (boot m (a :: supply)) = Ret h0
    ∧ malloc L h0 40 = Ret (h1, p)
    ∧ block_size_of L h1 p = 64
    ∧ palloc_log h1 = [PallocGet 1 a]
    ∧ arena_list h1 = [a]
    ∧ free_lists h1
      = [[]; []; [p + 64]; [p + 128]; [p + 256]; [p + 512]; [p + 1024]]
    ∧ free L h1 p = Ret h2
    ∧ free_lists h2 = [[]; []; []; []; []; []; []]
    ∧ arena_list h2 = []
    ∧ palloc_log h2 = [PallocGet 1 a; PallocFree a 1].
Proof.
  destruct L as [k H N S]. simpl. intros -> HN1 HN2 HS1 HS2 HH Ha Hal.
  change (PGSIZE _) with 4096 in *.
  eexists _, _, _. split; [vm_compute; reflexivity|].
  split.
  { rewrite (malloc_fresh_path _ _ 40 2);
      [|lia|vm_compute; reflexivity|simpl; lia].
    erewrite malloc_fresh_eq; [ | side | side | .. ].
    2:{ simpl. zlit.
        do 4 (erewrite carve_step; [ | side..]; crunch).
        reflexivity. }
    2: side. 2: side. 2: side. 2: side. 2: side.
    crunch. replace (a + H + 0) with (a + H) by lia. reflexivity. }
  split. { crunch. reflexivity. }
  split; [reflexivity|]. split; [reflexivity|].
  split. { unfold free_lists, classes. simpl. reflexivity. }
  split.
  { erewrite free_small_eq; [ | side | side | .. ].
    2:{ crunch. apply block_to_arena_in_page; side. }
    2:{ do 2 (erewrite class_index_next; [ | side..]; crunch).
        erewrite class_index_stop; [ | side..]. reflexivity. }
    2:{ crunch.
        do 5 (erewrite coalesce_merge_even; [ | side..]; crunch).
        erewrite coalesce_end; [ | side..]. reflexivity. }
    crunch. reflexivity. }
  split. { unfold free_lists, classes. simpl. reflexivity. }
  split; reflexivity.
Qed.


Lemma alloc_40_then_free_witness :
  PGBITS i386 = 12
  ∧ 4 ≤ ofs_num_pages i386
  ∧ ofs_num_pages i386 + 4 ≤ sizeof_arena i386
  ∧ 0 ≤ ofs_size i386
  ∧ ofs_size i386 + 4 ≤ 16
  ∧ sizeof_arena i386 < PGSIZE i386
  ∧ 0 < page0
  ∧ page0 mod PGSIZE i386 = 0
  ∧ ∃ h0 h1 h2,
      let p := page0 + sizeof_arena i386 in
      malloc_init i386 (boot zero_memory [page0]) = Ret h0
      ∧ malloc i386 h0 40 = Ret (h1, p)
      ∧ block_size_of i386 h1 p = 64
      ∧ palloc_log h1 = [PallocGet 1 page0]
      ∧ arena_list h1 = [page0]
      ∧ free_lists h1
        = [[]; []; [p + 64]; [p + 128]; [p + 256]; [p + 512]; [p + 1024]]
      ∧ free i386 h1 p = Ret h2
      ∧ free_lists h2 = [[]; []; []; []; []; []; []]
      ∧ arena_list h2 = []
      ∧ palloc_log h2 = [PallocGet 1 page0; PallocFree page0 1].
Proof.
  assert (H1 : PGBITS i386 = 12) by reflexivity.
  assert (H2 : 4 ≤ ofs_num_pages i386) by (simpl; lia).
  assert (H3 : ofs_num_pages i386 + 4 ≤ sizeof_arena i386) by (simpl; lia).
  assert (H4 : 0 ≤ ofs_size i386) by (simpl; lia).
  assert (H5 : ofs_size i386 + 4 ≤ 16) by (simpl; lia).
  assert (H6 : sizeof_arena i386 < PGSIZE i386) by reflexivity.
  assert (H7 : 0 < page0) by reflexivity.
  assert (H8 : page0 mod PGSIZE i386 = 0) by reflexivity.
  split; [exact H1|]. split; [exact H2|]. split; [exact H3|].
  split; [exact H4|]. split; [exact H5|]. split; [exact H6|].
  split; [exact H7|]. split; [exact H8|].
  exact (alloc_40_then_free i386 zero_memory page0 [] H1 H2 H3 H4 H5 H6 H7 H8).
Defined.

(** * The first allocations on a fresh heap, for every size of a class *)

Local Arguments find_desc : simpl never.
Local Arguments first_nonempty : simpl never.
Local Arguments find_idx : simpl never.
Local Arguments split : simpl never.
Local Arguments pop_front : simpl never.

Lemma round_up_pow2_cases n :
  0 < n ≤ 1024 →
  (n ≤ 16 ∧ round_up_pow2 n = 16) ∨ (16 < n ≤ 32 ∧ round_up_pow2 n = 32)
  ∨ (32 < n ≤ 64 ∧ round_up_pow2 n = 64) ∨ (64 < n ≤ 128 ∧ round_up_pow2 n = 128)
  ∨ (128 < n ≤ 256 ∧ round_up_pow2 n = 256)
  ∨ (256 < n ≤ 512 ∧ round_up_pow2 n = 512)
  ∨ (512 < n ≤ 1024 ∧ round_up_pow2 n = 1024).
Proof.
  intros Hn. unfold round_up_pow2.
  assert (Hu : ∀ b, 0 < b → 2 ^ (b - 1) < Z.max n 16 ≤ 2 ^ b →
                2 ^ Z.log2_up (Z.max n 16) = 2 ^ b).
  { intros b Hb Hr. f_equal. by apply Z.log2_up_unique. }
  destruct (Z.le_gt_cases n 16); [left; split; [lia|]; apply (Hu 4); lia|].
  destruct (Z.le_gt_cases n 32);
    [right; left; split; [lia|]; apply (Hu 5); lia|].
  destruct (Z.le_gt_cases n 64);
    [do 2 right; left; split; [lia|]; apply (Hu 6); lia|].
  destruct (Z.le_gt_cases n 128);
    [do 3 right; left; split; [lia|]; apply (Hu 7); lia|].
  destruct (Z.le_gt_cases n 256);
    [do 4 right; left; split; [lia|]; apply (Hu 8); lia|].
  destruct (Z.le_gt_cases n 512);
    [do 5 right; left; split; [lia|]; apply (Hu 9); lia|].
  do 6 right; split; [lia|]; apply (Hu 10); lia.
Qed.

Ltac scan_fresh :=
  repeat (erewrite find_desc_next; [ | side..]; crunch);
  erewrite find_desc_hit; [ reflexivity | side | side | side | ];
  crunch;
  repeat (erewrite first_nonempty_next; [ | side..]; crunch);
  erewrite first_nonempty_stop; [ reflexivity | side | right; side ].

Ltac run_carve :=
  simpl; zlit;
  first [ erewrite carve_stop; [ reflexivity | side.. ]
        | repeat (erewrite carve_step; [ | side..]; crunch); reflexivity ].

Ltac run_malloc_fresh n d a H :=
  rewrite (malloc_fresh_path _ _ n d); [ | lia | | simpl; lia ];
  [ | simpl; zlit; scan_fresh ];
  erewrite malloc_fresh_eq; [ | side | side | .. ];
  [ | run_carve | .. ];
  [ | side | .. ]; [ | side | .. ]; [ | side | .. ]; [ | side | .. ];
  [ | side ];
  crunch; replace (a + H + 0) with (a + H) by lia; reflexivity.

Ltac run_free_all :=
  erewrite free_small_eq; [ | side | side | .. ];
  [ | crunch; apply block_to_arena_in_page; side | .. ];
  [ | repeat (erewrite class_index_next; [ | side..]; crunch);
      erewrite class_index_stop; [ | side..]; reflexivity
    | .. ];
  [ | crunch;
      repeat (erewrite coalesce_merge_even; [ | side..]; crunch);
      erewrite coalesce_end; [ | side..]; reflexivity ];
  crunch; reflexivity.

Ltac first_case n d a H :=
  eexists _, _, _; split; [vm_compute; reflexivity|];
  split; [run_malloc_fresh n d a H|];
  split; [crunch; reflexivity|];
  split; [lia|]; split; [lia|];
  split; [reflexivity|]; split; [reflexivity|];
  split; [unfold free_lists, classes; simpl; reflexivity|];
  split; [run_free_all|];
  split; [unfold free_lists, classes; simpl; reflexivity|];
  split; reflexivity.

(** X26: on an empty heap with pages of 4096 bytes, for every request
    of 1 to 1024 bytes, [malloc] asks for one page and returns the block
    behind the arena header; its size word holds the least power of two
    from 16 up that holds the request; one block of the new arena is on
    the free list of that class and of each class above it, at the offset
    of the class size, and the lists of the classes below are empty.
    [free] of the pointer merges the block with its buddies through every
    class, takes the arena off the arena list and gives the page back:
    all free lists are empty again. *)
Theorem first_malloc_then_free L m a supply n :
  PGBITS L = 12 →
  4 ≤ ofs_num_pages L → ofs_num_pages L + 4 ≤ sizeof_arena L →
  0 ≤ ofs_size L → ofs_size L + 4 ≤ 16 →
  sizeof_arena L < PGSIZE L →
  0 < a → a mod PGSIZE L = 0 →
  0 < n ≤ 1024 →
  ∃ h0 h1 h2,
    let p := a + sizeof_arena L in
    let c := round_up_pow2 n in
    malloc_init L (boot m (a :: supply)) = Ret h0
    ∧ malloc L h0 n = Ret (h1, p)
    ∧ block_size_of L h1 p = c
    ∧ n ≤ c ∧ (c = 16 ∨ c < 2 * n)
    ∧ palloc_log h1 = [PallocGet 1 a]
    ∧ arena_list h1 = [a]
    ∧ free_lists h1
      = (λ s, if s <? c then [] else [p + s]) <$> [16; 32; 64; 128; 256; 512; 1024]
    ∧ free L h1 p = Ret h2
    ∧ free_lists h2 = [[]; []; []; []; []; []; []]
    ∧ arena_list h2 = []
    ∧ palloc_log h2 = [PallocGet 1 a; PallocFree a 1].
Proof.
  destruct L as [k H N S]. simpl. intros -> HN1 HN2 HS1 HS2 HH Ha Hal Hn.
  change (PGSIZE _) with 4096 in *.
  destruct (round_up_pow2_cases n Hn)
    as [[Hr ->]|[[Hr ->]|[[Hr ->]|[[Hr ->]|[[Hr ->]|[[Hr ->]|[Hr ->]]]]]]];
    [ first_case n 0 a H | first_case n 1 a H | first_case n 2 a H
    | first_case n 3 a H | first_case n 4 a H | first_case n 5 a H
    | first_case n 6 a H ].
Qed.

Lemma first_malloc_then_free_witness :
  PGBITS i386 = 12
  ∧ 4 ≤ ofs_num_pages i386
  ∧ ofs_num_pages i386 + 4 ≤ sizeof_arena i386
  ∧ 0 ≤ ofs_size i386
  ∧ ofs_size i386 + 4 ≤ 16
  ∧ sizeof_arena i386 < PGSIZE i386
  ∧ 0 < page0
  ∧ page0 mod PGSIZE i386 = 0
  ∧ 0 < 700 ≤ 1024
  ∧ ∃ h0 h1 h2,
      let p := page0 + sizeof_arena i386 in
      let c := round_up_pow2 700 in
      malloc_init i386 (boot zero_memory (page0 :: [])) = Ret h0
      ∧ malloc i386 h0 700 = Ret (h1, p)
      ∧ block_size_of i386 h1 p = c
      ∧ 700 ≤ c ∧ (c = 16 ∨ c < 2 * 700)
      ∧ palloc_log h1 = [PallocGet 1 page0]
      ∧ arena_list h1 = [page0]
      ∧ free_lists h1
        = (λ s, if s <? c then [] else [p + s])
            <$> [16; 32; 64; 128; 256; 512; 1024]
      ∧ free i386 h1 p = Ret h2
      ∧ free_lists h2 = [[]; []; []; []; []; []; []]
      ∧ arena_list h2 = []
      ∧ palloc_log h2 = [PallocGet 1 page0; PallocFree page0 1].
Proof.
  assert (H1 : PGBITS i386 = 12) by reflexivity.
  assert (H2 : 4 ≤ ofs_num_pages i386) by (simpl; lia).
  assert (H3 : ofs_num_pages i386 + 4 ≤ sizeof_arena i386) by (simpl; lia).
  assert (H4 : 0 ≤ ofs_size i386) by (simpl; lia).
  assert (H5 : ofs_size i386 + 4 ≤ 16) by (simpl; lia).
  assert (H6 : sizeof_arena i386 < PGSIZE i386) by reflexivity.
  assert (H7 : 0 < page0) by reflexivity.
  assert (H8 : page0 mod PGSIZE i386 = 0) by reflexivity.
  assert (H9 : 0 < 700 ≤ 1024) by lia.
  split; [exact H1|]. split; [exact H2|]. split; [exact H3|].
  split; [exact H4|]. split; [exact H5|]. split; [exact H6|].
  split; [exact H7|]. split; [exact H8|]. split; [exact H9|].
  exact (first_malloc_then_free i386 zero_memory page0 [] 700
           H1 H2 H3 H4 H5 H6 H7 H8 H9).
Defined.

Ltac scan_hit :=
  repeat (erewrite find_desc_next; [ | side..]; crunch);
  erewrite find_desc_hit; [ reflexivity | side | side | side | ];
  crunch;
  repeat (erewrite first_nonempty_next; [ | side..]; crunch);
  erewrite first_nonempty_stop; [ reflexivity | side | left; simpl; done ].

Ltac in_page a :=
  match goal with
  | |- block_to_arena _ _ (a + ?x + ?y) _ = _ =>
      replace (a + x + y) with (a + (x + y)) by lia
  end;
  apply block_to_arena_in_page;
    [ side | side | side | side | side | side | ];
  simpl;
  match goal with
  | |- wrap (?x + ?y - ?x) `mod` _ = 0 =>
      replace (x + y - x) with y by lia; reflexivity
  end.

Ltac run_malloc_same n d a :=
  rewrite (malloc_reuse_path _ _ n d d); [ | lia | | simpl; lia | simpl; lia ];
  [ | simpl; zlit; scan_hit ];
  erewrite malloc_reuse_eq; [ | side | side | simpl; reflexivity | .. ];
  [ | crunch; in_page a | .. ];
  [ | simpl; zlit;
      repeat (erewrite find_idx_next; [ | side..]; crunch);
      erewrite find_idx_stop; [ reflexivity | side.. ] ];
  rewrite Z.eqb_refl;
  erewrite pop_front_eq; [ | side | simpl; reflexivity ];
  crunch; reflexivity.

Ltac second_case n d a H :=
  eexists _, _, _; split; [vm_compute; reflexivity|];
  split; [run_malloc_fresh n d a H|];
  split; [run_malloc_same n d a|];
  split; [crunch; reflexivity|];
  split; [lia|];
  split; [reflexivity|]; split; [reflexivity|];
  unfold free_lists, classes; simpl; reflexivity.

(** X27: after that first [malloc (n)], a second [malloc (n)] asks the
    page allocator for nothing and returns the buddy of the first block,
    the block one class size behind it in the same arena, taken from the
    head of the free list of the class; the two blocks do not overlap and
    the free list of the class is empty afterwards. *)
Theorem second_malloc_takes_the_buddy L m a supply n :
  PGBITS L = 12 →
  4 ≤ ofs_num_pages L → ofs_num_pages L + 4 ≤ sizeof_arena L →
  0 ≤ ofs_size L → ofs_size L + 4 ≤ 16 →
  sizeof_arena L + 2048 ≤ PGSIZE L →
  0 < a → a mod PGSIZE L = 0 →
  0 < n ≤ 1024 →
  ∃ h0 h1 h2,
    let p := a + sizeof_arena L in
    let c := round_up_pow2 n in
    malloc_init L (boot m (a :: supply)) = Ret h0
    ∧ malloc L h0 n = Ret (h1, p)
    ∧ malloc L h1 n = Ret (h2, p + c)
    ∧ block_size_of L h2 (p + c) = c
    ∧ p + n ≤ p + c
    ∧ palloc_log h2 = [PallocGet 1 a]
    ∧ arena_list h2 = [a]
    ∧ free_lists h2
      = (λ s, if s <=? c then [] else [p + s]) <$> [16; 32; 64; 128; 256; 512; 1024].
Proof.
  destruct L as [k H N S]. simpl. intros -> HN1 HN2 HS1 HS2 HH Ha Hal Hn.
  change (PGSIZE _) with 4096 in *.
  destruct (round_up_pow2_cases n Hn)
    as [[Hr ->]|[[Hr ->]|[[Hr ->]|[[Hr ->]|[[Hr ->]|[[Hr ->]|[Hr ->]]]]]]];
    [ second_case n 0 a H | second_case n 1 a H | second_case n 2 a H
    | second_case n 3 a H | second_case n 4 a H | second_case n 5 a H
    | second_case n 6 a H ].
Qed.

Lemma second_malloc_takes_the_buddy_witness :
  PGBITS i386 = 12
  ∧ 4 ≤ ofs_num_pages i386
  ∧ ofs_num_pages i386 + 4 ≤ sizeof_arena i386
  ∧ 0 ≤ ofs_size i386
  ∧ ofs_size i386 + 4 ≤ 16
  ∧ sizeof_arena i386 + 2048 ≤ PGSIZE i386
  ∧ 0 < page0
  ∧ page0 mod PGSIZE i386 = 0
  ∧ 0 < 100 ≤ 1024
  ∧ ∃ h0 h1 h2,
      let p := page0 + sizeof_arena i386 in
      let c := round_up_pow2 100 in
      malloc_init i386 (boot zero_memory (page0 :: [])) = Ret h0
      ∧ malloc i386 h0 100 = Ret (h1, p)
      ∧ malloc i386 h1 100 = Ret (h2, p + c)
      ∧ block_size_of i386 h2 (p + c) = c
      ∧ p + 100 ≤ p + c
      ∧ palloc_log h2 = [PallocGet 1 page0]
      ∧ arena_list h2 = [page0]
      ∧ free_lists h2
        = (λ s, if s <=? c then [] else [p + s])
            <$> [16; 32; 64; 128; 256; 512; 1024].
Proof.
  assert (H1 : PGBITS i386 = 12) by reflexivity.
  assert (H2 : 4 ≤ ofs_num_pages i386) by (simpl; lia).
  assert (H3 : ofs_num_pages i386 + 4 ≤ sizeof_arena i386) by (simpl; lia).
  assert (H4 : 0 ≤ ofs_size i386) by (simpl; lia).
  assert (H5 : ofs_size i386 + 4 ≤ 16) by (simpl; lia).
  assert (H6 : sizeof_arena i386 + 2048 ≤ PGSIZE i386)
    by (change (PGSIZE i386) with 4096; simpl; lia).
  assert (H7 : 0 < page0) by reflexivity.
  assert (H8 : page0 mod PGSIZE i386 = 0) by reflexivity.
  assert (H9 : 0 < 100 ≤ 1024) by lia.
  split; [exact H1|]. split; [exact H2|]. split; [exact H3|].
  split; [exact H4|]. split; [exact H5|]. split; [exact H6|].
  split; [exact H7|]. split; [exact H8|]. split; [exact H9|].
  exact (second_malloc_takes_the_buddy i386 zero_memory page0 [] 100
           H1 H2 H3 H4 H5 H6 H7 H8 H9).
Defined.

Ltac lists_eq :=
  repeat match goal with
  | |- [] = [] => reflexivity
  | |- (_ :: _) = (_ :: _) => apply (f_equal2 cons)
  | |- @eq Z _ _ => lia
  end.

Ltac reassoc :=
  repeat match goal with
  | |- context [pg_ofs ?L (?x + ?y + ?z)] =>
      replace (pg_ofs L (x + y + z)) with (pg_ofs L (x + (y + z)))
        by (f_equal; lia)
  end;
  page_ofs;
  repeat match goal with
  | |- context [?x + ?y - ?x] => replace (x + y - x) with y by lia
  end.

Ltac crunch2 := repeat (progress (crunch; reassoc)).

Ltac side2 :=
  crunch2;
  first [ reflexivity | lia | assumption
        | change (PGSIZE _) with 4096; first [assumption | lia] ].

Ltac run_split :=
  repeat (erewrite split_step;
          [ | side2 | side2 | side2 | side2 | simpl; reflexivity | side2
            | side2 | side2 | side2 | side2 | side2 | side2 | side2 | side2 ];
          crunch2).

Ltac run_malloc_split d a :=
  rewrite (malloc_reuse_path _ _ 16 0 d); [ | lia | | simpl; lia | simpl; lia ];
  [ | simpl; zlit; scan_hit ];
  erewrite malloc_reuse_eq; [ | side | side | simpl; reflexivity | .. ];
  [ | crunch; in_page a | .. ];
  [ | simpl; zlit;
      repeat (erewrite find_idx_next; [ | side..]; crunch);
      erewrite find_idx_stop; [ reflexivity | side.. ] ];
  zlit; cbv iota; simpl; zlit;
  run_split;
  cbn [mbind result_bind];
  erewrite pop_front_eq; [ | side | simpl; reflexivity ];
  crunch; reflexivity.

Ltac split_case n d a H :=
  eexists _, _, _; split; [vm_compute; reflexivity|];
  split; [run_malloc_fresh n d a H|];
  split; [run_malloc_split d a|];
  split; [crunch; reflexivity|];
  split; [reflexivity|]; split; [reflexivity|];
  unfold free_lists, classes; simpl; lists_eq.

(** X28: after a first [malloc (n)] of more than 16 bytes, with [c] the
    class size of [n], a [malloc (16)] asks the page allocator for
    nothing: it takes the free block of class [c], the buddy of the first
    block, and halves it down to 16 bytes.  It returns the first 16 bytes
    of that block and leaves the upper half of each halving on the free
    list of its class; the list of class [c] is empty afterwards and the
    lists above it are as they were. *)
Theorem small_request_splits_a_larger_block L m a supply n :
  PGBITS L = 12 →
  4 ≤ ofs_num_pages L → ofs_num_pages L + 4 ≤ sizeof_arena L →
  0 ≤ ofs_size L → ofs_size L + 4 ≤ 16 →
  sizeof_arena L + 2048 ≤ PGSIZE L →
  0 < a → a mod PGSIZE L = 0 →
  16 < n ≤ 1024 →
  ∃ h0 h1 h2,
    let p := a + sizeof_arena L in
    let c := round_up_pow2 n in
    malloc_init L (boot m (a :: supply)) = Ret h0
    ∧ malloc L h0 n = Ret (h1, p)
    ∧ malloc L h1 16 = Ret (h2, p + c)
    ∧ block_size_of L h2 (p + c) = 16
    ∧ palloc_log h2 = [PallocGet 1 a]
    ∧ arena_list h2 = [a]
    ∧ free_lists h2
      = (λ s, if s <? c then [p + c + s] else if s =? c then [] else [p + s])
          <$> [16; 32; 64; 128; 256; 512; 1024].
Proof.
  destruct L as [k H N S]. simpl. intros -> HN1 HN2 HS1 HS2 HH Ha Hal Hn.
  change (PGSIZE _) with 4096 in *.
  destruct (round_up_pow2_cases n ltac:(lia))
    as [[Hr ->]|[[Hr ->]|[[Hr ->]|[[Hr ->]|[[Hr ->]|[[Hr ->]|[Hr ->]]]]]]].
  - lia.
  - split_case n 1 a H.
  - split_case n 2 a H.
  - split_case n 3 a H.
  - split_case n 4 a H.
  - split_case n 5 a H.
  - split_case n 6 a H.
Qed.

Lemma small_request_splits_a_larger_block_witness :
  PGBITS i386 = 12
  ∧ 4 ≤ ofs_num_pages i386
  ∧ ofs_num_pages i386 + 4 ≤ sizeof_arena i386
  ∧ 0 ≤ ofs_size i386
  ∧ ofs_size i386 + 4 ≤ 16
  ∧ sizeof_arena i386 + 2048 ≤ PGSIZE i386
  ∧ 0 < page0
  ∧ page0 mod PGSIZE i386 = 0
  ∧ 16 < 200 ≤ 1024
  ∧ ∃ h0 h1 h2,
      let p := page0 + sizeof_arena i386 in
      let c := round_up_pow2 200 in
      malloc_init i386 (boot zero_memory (page0 :: [])) = Ret h0
      ∧ malloc i386 h0 200 = Ret (h1, p)
      ∧ malloc i386 h1 16 = Ret (h2, p + c)
      ∧ block_size_of i386 h2 (p + c) = 16
      ∧ palloc_log h2 = [PallocGet 1 page0]
      ∧ arena_list h2 = [page0]
      ∧ free_lists h2
        = (λ s, if s <? c then [p + c + s] else if s =? c then [] else [p + s])
            <$> [16; 32; 64; 128; 256; 512; 1024].
Proof.
  assert (H1 : PGBITS i386 = 12) by reflexivity.
  assert (H2 : 4 ≤ ofs_num_pages i386) by (simpl; lia).
  assert (H3 : ofs_num_pages i386 + 4 ≤ sizeof_arena i386) by (simpl; lia).
  assert (H4 : 0 ≤ ofs_size i386) by (simpl; lia).
  assert (H5 : ofs_size i386 + 4 ≤ 16) by (simpl; lia).
  assert (H6 : sizeof_arena i386 + 2048 ≤ PGSIZE i386)
    by (change (PGSIZE i386) with 4096; simpl; lia).
  assert (H7 : 0 < page0) by reflexivity.
  assert (H8 : page0 mod PGSIZE i386 = 0) by reflexivity.
  assert (H9 : 16 < 200 ≤ 1024) by lia.
  split; [exact H1|]. split; [exact H2|]. split; [exact H3|].
  split; [exact H4|]. split; [exact H5|]. split; [exact H6|].
  split; [exact H7|]. split; [exact H8|]. split; [exact H9|].
  exact (small_request_splits_a_larger_block i386 zero_memory page0 [] 200
           H1 H2 H3 H4 H5 H6 H7 H8 H9).
Defined.

Local Arguments memcpy : simpl never.

Ltac copy_simpl :=
  repeat match goal with
  | |- context [load32 (memcpy ?m ?d ?s ?n) ?x] =>
      first [ rewrite (load32_memcpy_out m d s n x) by lia
            | rewrite (load32_memcpy_in m d s n x) by lia ]
  end.

Ltac crunch3 := repeat (progress (crunch2; copy_simpl)).

Ltac side3 :=
  crunch3;
  first [ reflexivity | lia | assumption
        | change (PGSIZE _) with 4096; first [assumption | lia] ].

Ltac run_free_push :=
  erewrite free_small_eq; [ | side3 | side3 | .. ];
  [ | crunch3; apply block_to_arena_in_page; side3 | .. ];
  [ | crunch3;
      repeat (erewrite class_index_next; [ | side3..]; crunch3);
      erewrite class_index_stop; [ | side3..]; reflexivity
    | .. ];
  [ | crunch3;
      erewrite coalesce_merge_even; [ | side3..]; crunch3;
      erewrite coalesce_push; [ reflexivity | side3.. ] ];
  crunch3; reflexivity.

Ltac grow_case n n2 d d' a H :=
  eexists _, _, _; split; [vm_compute; reflexivity|];
  split; [run_malloc_fresh n d a H|];
  split; [crunch; reflexivity|];
  split;
  [ erewrite realloc_eq; [ | lia | lia | | ];
    [ | | zlit; run_malloc_same n2 d' a ]; [ | lia ];
    crunch3; rewrite Z.min_r by lia;
    run_free_push
  | ];
  split;
  [ intros i Hi; simpl; zlit; unfold store32 at 1; eqb_lia;
    unfold memcpy at 1;
    match goal with
    | |- context [(?x <=? ?y) && (?y <? ?z)] =>
        replace ((x <=? y) && (y <? z)) with true
          by (symmetry; apply andb_true_iff; rewrite Z.leb_le, Z.ltb_lt; lia)
    end;
    match goal with
    | |- ?f ?x = ?g ?y => replace x with y by lia
    end;
    reflexivity
  | ];
  split; [crunch3; reflexivity|];
  split; [reflexivity|];
  unfold free_lists, classes; simpl; lists_eq.

(** X29: [realloc] copies the size word of the old block into the new
    one.  After a first [malloc (n)] of at most 512 bytes, of class size
    [c], a [realloc] of the block to a size of the next class returns the
    free block of that class, two class sizes behind the old block; the
    size word of that block said [2 * c] before the call.  The [c] bytes
    of the old block are copied, the size word among them, since it lies
    in the bytes [malloc] hands out: afterwards the size word of the new
    block says [c].  The old block is merged with its buddy and put on
    the free list of the next class; no page is asked for. *)
Theorem realloc_copies_the_size_word L m a supply n n2 :
  PGBITS L = 12 →
  4 ≤ ofs_num_pages L → ofs_num_pages L + 4 ≤ sizeof_arena L →
  0 ≤ ofs_size L → ofs_size L + 4 ≤ 16 →
  sizeof_arena L + 2048 ≤ PGSIZE L →
  0 < a → a mod PGSIZE L = 0 →
  0 < n ≤ 512 →
  round_up_pow2 n < n2 ≤ 2 * round_up_pow2 n →
  ∃ h0 h1 h2,
    let p := a + sizeof_arena L in
    let c := round_up_pow2 n in
    malloc_init L (boot m (a :: supply)) = Ret h0
    ∧ malloc L h0 n = Ret (h1, p)
    ∧ block_size_of L h1 (p + 2 * c) = 2 * c
    ∧ realloc L h1 p n2 = Ret (h2, p + 2 * c)
    ∧ (∀ i, 0 ≤ i < c → mem h2 (p + 2 * c + i) = mem h1 (p + i))
    ∧ block_size_of L h2 (p + 2 * c) = c
    ∧ palloc_log h2 = [PallocGet 1 a]
    ∧ free_lists h2
      = (λ s, if s <? 2 * c then [] else if s =? 2 * c then [p] else [p + s])
          <$> [16; 32; 64; 128; 256; 512; 1024].
Proof.
  destruct L as [k H N S]. simpl. intros -> HN1 HN2 HS1 HS2 HH Ha Hal Hn Hn2.
  change (PGSIZE _) with 4096 in *.
  destruct (round_up_pow2_cases n ltac:(lia))
    as [[Hr Hc]|[[Hr Hc]|[[Hr Hc]|[[Hr Hc]|[[Hr Hc]|[[Hr Hc]|[Hr Hc]]]]]]];
    rewrite Hc in *;
    [ grow_case n n2 0 1 a H | grow_case n n2 1 2 a H | grow_case n n2 2 3 a H
    | grow_case n n2 3 4 a H | grow_case n n2 4 5 a H | grow_case n n2 5 6 a H
    | lia ].
Qed.

Lemma realloc_copies_the_size_word_witness :
  PGBITS i386 = 12
  ∧ 4 ≤ ofs_num_pages i386
  ∧ ofs_num_pages i386 + 4 ≤ sizeof_arena i386
  ∧ 0 ≤ ofs_size i386
  ∧ ofs_size i386 + 4 ≤ 16
  ∧ sizeof_arena i386 + 2048 ≤ PGSIZE i386
  ∧ 0 < page0
  ∧ page0 mod PGSIZE i386 = 0
  ∧ 0 < 40 ≤ 512
  ∧ round_up_pow2 40 < 100 ≤ 2 * round_up_pow2 40
  ∧ ∃ h0 h1 h2,
      let p := page0 + sizeof_arena i386 in
      let c := round_up_pow2 40 in
      malloc_init i386 (boot zero_memory (page0 :: [])) = Ret h0
      ∧ malloc i386 h0 40 = Ret (h1, p)
      ∧ block_size_of i386 h1 (p + 2 * c) = 2 * c
      ∧ realloc i386 h1 p 100 = Ret (h2, p + 2 * c)
      ∧ (∀ i, 0 ≤ i < c → mem h2 (p + 2 * c + i) = mem h1 (p + i))
      ∧ block_size_of i386 h2 (p + 2 * c) = c
      ∧ palloc_log h2 = [PallocGet 1 page0]
      ∧ free_lists h2
        = (λ s, if s <? 2 * c then [] else if s =? 2 * c then [p] else [p + s])
            <$> [16; 32; 64; 128; 256; 512; 1024].
Proof.
  assert (H1 : PGBITS i386 = 12) by reflexivity.
  assert (H2 : 4 ≤ ofs_num_pages i386) by (simpl; lia).
  assert (H3 : ofs_num_pages i386 + 4 ≤ sizeof_arena i386) by (simpl; lia).
  assert (H4 : 0 ≤ ofs_size i386) by (simpl; lia).
  assert (H5 : ofs_size i386 + 4 ≤ 16) by (simpl; lia).
  assert (H6 : sizeof_arena i386 + 2048 ≤ PGSIZE i386)
    by (change (PGSIZE i386) with 4096; simpl; lia).
  assert (H7 : 0 < page0) by reflexivity.
  assert (H8 : page0 mod PGSIZE i386 = 0) by reflexivity.
  assert (H9 : 0 < 40 ≤ 512) by lia.
  assert (H10 : round_up_pow2 40 < 100 ≤ 2 * round_up_pow2 40).
  { assert (E : round_up_pow2 40 = 64) by reflexivity. rewrite E. lia. }
  split; [exact H1|]. split; [exact H2|]. split; [exact H3|].
  split; [exact H4|]. split; [exact H5|]. split; [exact H6|].
  split; [exact H7|]. split; [exact H8|]. split; [exact H9|].
  split; [exact H10|].
  exact (realloc_copies_the_size_word i386 zero_memory page0 [] 40 100
           H1 H2 H3 H4 H5 H6 H7 H8 H9 H10).
Defined.
(** * The signal functions: further properties *)

(** ** What [kill] returns and what it changes *)

(** X1: [kill] returns 0 or -1, and a call that returns -1 has changed
    nothing: no pending list, no mask, not the unblock list. *)
Theorem kill_rejected_changes_nothing vt fuel ok k tid_ sig k' r :
  kill vt fuel ok k tid_ sig = Ret (k', r) →
  (r = 0 ∨ r = -1) ∧ (r = -1 → k' = k).
Proof.
  unfold kill. intros H.
  destruct (vt tid_) as [target|]; [|inversion H; subst; auto].
  destruct (sig =? SIG_UBLOCK).
  { inv_bind H.
    destruct (negb _); [inversion H; subst; auto|].
    destruct (negb _); inversion H; subst; auto.
    split; [auto|]. lia. }
  destruct (sig =? SIG_USR).
  { inv_bind H.
    destruct (negb _); [inversion H; subst; auto|].
    inv_bind H. inv_bind H. inversion H; subst. split; [auto|lia]. }
  destruct (sig =? SIG_KILL); [|inversion H; subst; auto].
  inv_bind H. inv_bind H. inv_bind H.
  destruct (negb _); [inversion H; subst; auto|].
  inv_bind H. inversion H; subst. split; [auto|lia].
Qed.

Lemma kill_rejected_changes_nothing_witness :
  kill two_tids 5 true (two_threads child_tcb) 3 SIG_KILL
  = Ret (two_threads child_tcb, -1)
  ∧ (-1 = 0 ∨ -1 = -1)
  ∧ (-1 = -1 → two_threads child_tcb = two_threads child_tcb).
Proof.
  assert (H1 : kill two_tids 5 true (two_threads child_tcb) 3 SIG_KILL
               = Ret (two_threads child_tcb, -1)) by reflexivity.
  split; [exact H1|].
  exact (kill_rejected_changes_nothing two_tids 5 true (two_threads child_tcb)
           3 SIG_KILL (two_threads child_tcb) (-1) H1).
Defined.

(** X2: a call of [kill] that returns leaves the running thread, the
    [sigset_t] objects and the set of control blocks as they were; in
    every control block the TID, the status, the mask and the parent link
    are unchanged, and the pending list of every thread other than the
    target is unchanged.  For a signal other than [SIG_UBLOCK] the unblock
    list is not touched. *)
Theorem kill_touches_pending_list_only vt fuel ok k tid_ sig k' r :
  kill vt fuel ok k tid_ sig = Ret (k', r) →
  running k' = running k
  ∧ sigsets k' = sigsets k
  ∧ (sig ≠ SIG_UBLOCK → unblock_list k' = unblock_list k)
  ∧ ∀ p, match threads k !! p with
         | Some u => ∃ u', threads k' !! p = Some u' ∧ same_but_pending u u'
                           ∧ (vt tid_ ≠ Some p
                              → pending_signals u' = pending_signals u)
         | None => threads k' !! p = None
         end.
Proof.
  intros H.
  assert (Hsame : ∀ p, match threads k !! p with
         | Some u => ∃ u', threads k !! p = Some u' ∧ same_but_pending u u'
                           ∧ (vt tid_ ≠ Some p
                              → pending_signals u' = pending_signals u)
         | None => threads k !! p = None
         end).
  { intros p. destruct (threads k !! p) as [u|]; [|done].
    exists u. split; [done|]. split; [by unfold same_but_pending|done]. }
  assert (Hk : running k = running k ∧ sigsets k = sigsets k
     ∧ (sig ≠ SIG_UBLOCK → unblock_list k = unblock_list k)
     ∧ ∀ p, match threads k !! p with
         | Some u => ∃ u', threads k !! p = Some u' ∧ same_but_pending u u'
                           ∧ (vt tid_ ≠ Some p
                              → pending_signals u' = pending_signals u)
         | None => threads k !! p = None
         end) by auto.
  unfold kill in H.
  destruct (vt tid_) as [target|] eqn:Hv; [|by inversion H; subst].
  assert (He : ∀ t from k1, threads k !! target = Some t →
    enqueue ok k target t sig from = Ret k1 →
    running k1 = running k ∧ sigsets k1 = sigsets k
     ∧ (sig ≠ SIG_UBLOCK → unblock_list k1 = unblock_list k)
     ∧ ∀ p, match threads k !! p with
         | Some u => ∃ u', threads k1 !! p = Some u' ∧ same_but_pending u u'
                           ∧ (Some target ≠ Some p
                              → pending_signals u' = pending_signals u)
         | None => threads k1 !! p = None
         end).
  { intros t from k1 Ht E.
    destruct (enqueue_frame _ _ _ _ _ _ _ Ht E) as (F1 & F2 & F3 & F4).
    split; [done|]. split; [done|]. split; [done|].
    intros p. specialize (F4 p). destruct (threads k !! p) as [u|]; [|done].
    destruct F4 as (u' & G1 & G2 & G3). exists u'. split; [done|].
    split; [done|]. intros Hne. rewrite G3; [done|congruence]. }
  destruct (sig =? SIG_UBLOCK) eqn:E2.
  { apply Z.eqb_eq in E2. inv_bind H.
    destruct (negb _); [by inversion H; subst|].
    destruct (negb _); [by inversion H; subst|].
    inversion H; subst k' r. split; [done|]. split; [done|].
    split; [done|]. exact Hsame. }
  destruct (sig =? SIG_USR).
  { unfold deref in H. destruct (threads k !! target) as [t|] eqn:Ht; [|done].
    simpl in H.
    destruct (negb _); [by inversion H; subst|].
    inv_bind H. inv_bind H. inversion H; subst. by eapply He. }
  destruct (sig =? SIG_KILL); [|by inversion H; subst].
  unfold deref in H. destruct (threads k !! target) as [t|] eqn:Ht; [|done].
  simpl in H.
  inv_bind H. inv_bind H.
  destruct (negb _); [by inversion H; subst|].
  inv_bind H. inversion H; subst. by eapply He.
Qed.

Lemma kill_touches_pending_list_only_witness :
  kill two_tids 1 true (two_threads main_tcb) 3 SIG_USR
  = Ret (set_thread (two_threads main_tcb) child_tcb
           (set_pending child_thread [mk_signal SIG_USR 1]), 0)
  ∧ running (set_thread (two_threads main_tcb) child_tcb
               (set_pending child_thread [mk_signal SIG_USR 1]))
    = running (two_threads main_tcb)
  ∧ sigsets (set_thread (two_threads main_tcb) child_tcb
               (set_pending child_thread [mk_signal SIG_USR 1]))
    = sigsets (two_threads main_tcb)
  ∧ (SIG_USR ≠ SIG_UBLOCK →
     unblock_list (set_thread (two_threads main_tcb) child_tcb
                     (set_pending child_thread [mk_signal SIG_USR 1]))
     = unblock_list (two_threads main_tcb))
  ∧ ∀ p, match threads (two_threads main_tcb) !! p with
         | Some u =>
             ∃ u', threads (set_thread (two_threads main_tcb) child_tcb
                              (set_pending child_thread [mk_signal SIG_USR 1]))
                   !! p = Some u'
                   ∧ same_but_pending u u'
                   ∧ (two_tids 3 ≠ Some p
                      → pending_signals u' = pending_signals u)
         | None =>
             threads (set_thread (two_threads main_tcb) child_tcb
                        (set_pending child_thread [mk_signal SIG_USR 1]))
             !! p = None
         end.
Proof.
  assert (H1 : kill two_tids 1 true (two_threads main_tcb) 3 SIG_USR
               = Ret (set_thread (two_threads main_tcb) child_tcb
                        (set_pending child_thread [mk_signal SIG_USR 1]), 0))
    by reflexivity.
  split; [exact H1|].
  exact (kill_touches_pending_list_only two_tids 1 true (two_threads main_tcb)
           3 SIG_USR _ 0 H1).
Defined.

(** ** A delivered [SIG_USR] or [SIG_KILL] *)

Lemma overwrite_sender_elem sig from l l' :
  overwrite_sender sig from l = Some l' →
  mk_signal sig from ∈ l'
  ∧ filter (λ s, signum s ≠ sig) l' = filter (λ s, signum s ≠ sig) l.
Proof.
  revert l'. induction l as [|s l IH]; simpl; intros l' H; [done|].
  destruct (signum s =? sig) eqn:E.
  - apply Z.eqb_eq in E. inversion H; subst l'. split.
    + rewrite E. apply list_elem_of_here.
    + rewrite !filter_cons. simpl. rewrite E.
      repeat case_decide; done.
  - apply Z.eqb_neq in E.
    destruct (overwrite_sender sig from l) as [l0|]; [|done].
    inversion H; subst l'. destruct (IH l0 eq_refl) as [I1 I2]. split.
    + by apply list_elem_of_further.
    + rewrite !filter_cons. repeat case_decide; try done. by rewrite I2.
Qed.

Lemma enqueue_result ok k target t sig from k' :
  enqueue ok k target t sig from = Ret k' →
  ∃ l', k' = set_thread k target (set_pending t l')
        ∧ mk_signal sig from ∈ l'
        ∧ filter (λ s, signum s ≠ sig) l'
          = filter (λ s, signum s ≠ sig) (pending_signals t)
        ∧ (length l' ≤ S (length (pending_signals t)))%nat.
Proof.
  unfold enqueue. intros H.
  destruct (overwrite_sender sig from (pending_signals t)) as [l0|] eqn:E.
  - inversion H; subst k'. exists l0. split; [done|].
    destruct (overwrite_sender_elem _ _ _ _ E) as [I1 I2].
    split; [done|]. split; [done|].
    rewrite (overwrite_sender_length _ _ _ _ E). lia.
  - destruct ok; [|done]. inversion H; subst k'.
    eexists. split; [done|]. split.
    + apply elem_of_app. right. apply list_elem_of_here.
    + split.
      * rewrite filter_app, filter_cons. simpl.
        case_decide; [done|]. by rewrite filter_nil, app_nil_r.
      * rewrite length_app. simpl. lia.
Qed.



(** ** Who may send [SIG_KILL] *)

(** The walk of the [SIG_KILL] branch, against the chain of parents. *)
Lemma parent_walk_chain k caller : ∀ n fuel t a,
  ancestor (S n) k t = Some a →
  (∀ i ai, (1 ≤ i ≤ n)%nat → ancestor i k t = Some ai →
           tid ai ≠ caller ∧ tid ai ≠ 1) →
  tid a = caller ∨ tid a = 1 →
  parent_walk (S n + fuel) k caller t = Ret (bool_decide (tid a = caller)).
Proof.
  induction n as [|n IH]; intros fuel t a Ha Hmid Hend.
  - simpl in Ha. destruct (threads k !! parent_thread t) as [p|] eqn:Hp; [|done].
    simpl in Ha. inversion Ha; subst p.
    simpl. rewrite (deref_Some _ _ _ Hp). simpl.
    destruct (caller =? tid a) eqn:E.
    + apply Z.eqb_eq in E. by rewrite bool_decide_eq_true_2.
    + apply Z.eqb_neq in E. destruct Hend as [?|H1]; [congruence|].
      rewrite H1. simpl. by rewrite bool_decide_eq_false_2 by congruence.
  - change (ancestor (S (S n)) k t)
      with (p ← threads k !! parent_thread t; ancestor (S n) k p) in Ha.
    destruct (threads k !! parent_thread t) as [p|] eqn:Hp; [|done].
    simpl in Ha.
    assert (Hp1 : ancestor 1 k t = Some p) by (simpl; by rewrite Hp).
    destruct (Hmid 1%nat p ltac:(lia) Hp1) as [Hc H1].
    change (parent_walk (S (S n) + fuel) k caller t)
      with (p ← deref k (parent_thread t);
            if caller =? tid p then Ret true
            else if tid p =? 1 then Ret false
            else parent_walk (S n + fuel) k caller p).
    rewrite (deref_Some _ _ _ Hp). simpl.
    replace (caller =? tid p) with false by (symmetry; apply Z.eqb_neq; congruence).
    replace (tid p =? 1) with false by (symmetry; by apply Z.eqb_neq).
    apply IH; [exact Ha| |exact Hend].
    intros i ai Hi Hai. apply (Hmid (S i) ai); [lia|].
    change (ancestor (S i) k t)
      with (p ← threads k !! parent_thread t; ancestor i k p).
    by rewrite Hp.
Qed.

(** X4: [kill (tid, SIG_KILL)] walks up the parent links of the target,
    starting with its parent, until it meets the TID of the caller or
    TID 1.  When the first thread on the way with one of these TIDs is the
    [n+1]-th ancestor [a], the call returns 0 and the target holds a
    pending [SIG_KILL] of the caller if [a] has the caller's TID, and it
    returns -1 and changes nothing otherwise: the sender must be a proper
    ancestor of the target, met before the thread with TID 1. *)
Theorem kill_KILL_needs_an_ancestor vt n fuel k tid_ target t cur a :
  vt tid_ = Some target →
  threads k !! target = Some t →
  threads k !! running k = Some cur →
  ancestor (S n) k t = Some a →
  (∀ i ai, (1 ≤ i ≤ n)%nat → ancestor i k t = Some ai →
           tid ai ≠ tid cur ∧ tid ai ≠ 1) →
  tid a = tid cur ∨ tid a = 1 →
  ∃ k', kill vt (S n + fuel) true k tid_ SIG_KILL
        = Ret (k', if bool_decide (tid a = tid cur) then 0 else -1)
        ∧ if bool_decide (tid a = tid cur)
          then ∃ l, pending_of k' target = Some l
                    ∧ mk_signal SIG_KILL (tid cur) ∈ l
          else k' = k.
Proof.
  intros Hv Ht Hc Ha Hmid Hend.
  pose proof (parent_walk_chain k (tid cur) n fuel t a Ha Hmid Hend) as Hw.
  remember (S n + fuel)%nat as f eqn:Hf. clear Hf.
  unfold kill. rewrite Hv. simpl.
  unfold thread_current. rewrite (deref_Some _ _ _ Ht), (deref_Some _ _ _ Hc).
  simpl. rewrite Hw. simpl.
  destruct (bool_decide (tid a = tid cur)); simpl; [|by eexists].
  destruct (enqueue true k target t SIG_KILL (tid cur)) as [k1|e] eqn:E.
  - exists k1. split; [done|].
    destruct (enqueue_result _ k target t SIG_KILL (tid cur) k1 E)
      as (l & -> & Hl & _).
    exists l. split; [|done].
    unfold pending_of, set_thread. simpl. by rewrite lookup_insert_eq.
  - unfold enqueue in E. by destruct (overwrite_sender _ _ _).
Qed.

Lemma kill_KILL_needs_an_ancestor_witness :
  three_tids 4 = Some grandchild_tcb
  ∧ threads (three_threads main_tcb) !! grandchild_tcb = Some grandchild_thread
  ∧ threads (three_threads main_tcb) !! running (three_threads main_tcb)
    = Some main_thread
  ∧ ancestor 2 (three_threads main_tcb) grandchild_thread = Some main_thread
  ∧ (∀ i ai, (1 ≤ i ≤ 1)%nat →
             ancestor i (three_threads main_tcb) grandchild_thread = Some ai →
             tid ai ≠ tid main_thread ∧ tid ai ≠ 1)
  ∧ (tid main_thread = tid main_thread ∨ tid main_thread = 1)
  ∧ ∃ k', kill three_tids (2 + 0) true (three_threads main_tcb) 4 SIG_KILL
          = Ret (k', if bool_decide (tid main_thread = tid main_thread)
                     then 0 else -1)
          ∧ if bool_decide (tid main_thread = tid main_thread)
            then ∃ l, pending_of k' grandchild_tcb = Some l
                      ∧ mk_signal SIG_KILL (tid main_thread) ∈ l
            else k' = three_threads main_tcb.
Proof.
  assert (H1 : three_tids 4 = Some grandchild_tcb) by reflexivity.
  assert (H2 : threads (three_threads main_tcb) !! grandchild_tcb
               = Some grandchild_thread) by reflexivity.
  assert (H3 : threads (three_threads main_tcb) !! running (three_threads main_tcb)
               = Some main_thread) by reflexivity.
  assert (H4 : ancestor 2 (three_threads main_tcb) grandchild_thread
               = Some main_thread) by reflexivity.
  assert (H5 : ∀ i ai, (1 ≤ i ≤ 1)%nat →
             ancestor i (three_threads main_tcb) grandchild_thread = Some ai →
             tid ai ≠ tid main_thread ∧ tid ai ≠ 1).
  { intros i ai Hi Hai. assert (i = 1%nat) as -> by lia.
    assert (ancestor 1 (three_threads main_tcb) grandchild_thread
            = Some child_thread) as Hc by reflexivity.
    rewrite Hc in Hai. injection Hai as <-. simpl. lia. }
  assert (H6 : tid main_thread = tid main_thread ∨ tid main_thread = 1)
    by (left; reflexivity).
  split; [exact H1|]. split; [exact H2|]. split; [exact H3|]. split; [exact H4|].
  split; [exact H5|]. split; [exact H6|].
  exact (kill_KILL_needs_an_ancestor three_tids 1 0 (three_threads main_tcb) 4
           grandchild_tcb grandchild_thread main_thread main_thread
           H1 H2 H3 H4 H5 H6).
Defined.

(** ** Masks and [kill] *)

Lemma parent_walk_mask k target t m caller : ∀ fuel tmp tmp',
  threads k !! target = Some t →
  parent_thread tmp' = parent_thread tmp →
  parent_walk fuel (set_thread k target (set_sigmask t m)) caller tmp'
  = parent_walk fuel k caller tmp.
Proof.
  induction fuel as [|fuel IH]; intros tmp tmp' Ht Hp; [done|].
  simpl. rewrite Hp. unfold deref. unfold set_thread at 1. simpl.
  destruct (decide (parent_thread tmp = target)) as [->|Hne].
  - rewrite lookup_insert_eq, Ht. simpl.
    destruct (caller =? tid t); [done|]. destruct (tid t =? 1); [done|].
    by apply IH.
  - rewrite lookup_insert_ne by done.
    destruct (threads k !! parent_thread tmp) as [p|]; [|done]. simpl.
    destruct (caller =? tid p); [done|]. destruct (tid p =? 1); [done|].
    by apply IH.
Qed.

(** X5: [SIG_KILL] cannot be masked.  Whatever value the mask of the
    target is replaced with, [kill (tid, SIG_KILL)] returns the same code
    and leaves the same pending list. *)
Theorem kill_KILL_ignores_the_mask vt fuel ok k tid_ target t m k1 r :
  vt tid_ = Some target →
  threads k !! target = Some t →
  kill vt fuel ok k tid_ SIG_KILL = Ret (k1, r) →
  ∃ k2, kill vt fuel ok (set_thread k target (set_sigmask t m)) tid_ SIG_KILL
        = Ret (k2, r)
        ∧ pending_of k2 target = pending_of k1 target.
Proof.
  intros Hv Ht H. unfold kill in *. rewrite Hv in *. simpl in *.
  rewrite (deref_Some _ _ _ Ht) in H. simpl in H.
  assert (Ht' : threads (set_thread k target (set_sigmask t m)) !! target
                = Some (set_sigmask t m)).
  { unfold set_thread. simpl. apply lookup_insert_eq. }
  rewrite (deref_Some _ _ _ Ht'). simpl.
  inv_bind H. rename x into cur. rename E into Hc.
  assert (∃ cur', thread_current (set_thread k target (set_sigmask t m)) = Ret cur'
                  ∧ tid cur' = tid cur) as (cur' & -> & Htid).
  { unfold thread_current, deref in *. unfold set_thread. simpl.
    destruct (decide (running k = target)) as [Hr|Hne].
    - rewrite Hr, lookup_insert_eq. rewrite Hr, Ht in Hc. inversion Hc; subst.
      by eexists.
    - rewrite lookup_insert_ne by done.
      destruct (threads k !! running k); [|done]. inversion Hc; subst. by eexists. }
  simpl. rewrite Htid.
  rewrite (parent_walk_mask k target t m (tid cur) fuel t (set_sigmask t m) Ht eq_refl).
  inv_bind H. rewrite E. simpl.
  destruct (negb x); simpl in *.
  - inversion H; subst. eexists. split; [done|].
    unfold pending_of, set_thread. simpl. rewrite lookup_insert_eq. simpl.
    by rewrite Ht.
  - inv_bind H. inversion H; subst x0 r. unfold enqueue in *.
    simpl. destruct (overwrite_sender SIG_KILL (tid cur) (pending_signals t)) as [l|].
    + inversion E0; subst k1. eexists. split; [done|].
      unfold pending_of, set_thread. simpl. by rewrite !lookup_insert_eq.
    + destruct ok; [|done]. inversion E0; subst k1. eexists. split; [done|].
      unfold pending_of, set_thread. simpl. by rewrite !lookup_insert_eq.
Qed.

Lemma kill_KILL_ignores_the_mask_witness :
  two_tids 3 = Some child_tcb
  ∧ threads (two_threads main_tcb) !! child_tcb = Some child_thread
  ∧ kill two_tids 1 true (two_threads main_tcb) 3 SIG_KILL
    = Ret (set_thread (two_threads main_tcb) child_tcb
             (set_pending child_thread [mk_signal SIG_KILL 1]), 0)
  ∧ ∃ k2, kill two_tids 1 true
            (set_thread (two_threads main_tcb) child_tcb
               (set_sigmask child_thread 31)) 3 SIG_KILL
          = Ret (k2, 0)
          ∧ pending_of k2 child_tcb
            = pending_of (set_thread (two_threads main_tcb) child_tcb
                            (set_pending child_thread [mk_signal SIG_KILL 1]))
                child_tcb.
Proof.
  assert (H1 : two_tids 3 = Some child_tcb) by reflexivity.
  assert (H2 : threads (two_threads main_tcb) !! child_tcb = Some child_thread)
    by reflexivity.
  assert (H3 : kill two_tids 1 true (two_threads main_tcb) 3 SIG_KILL
               = Ret (set_thread (two_threads main_tcb) child_tcb
                        (set_pending child_thread [mk_signal SIG_KILL 1]), 0))
    by reflexivity.
  split; [exact H1|]. split; [exact H2|]. split; [exact H3|].
  exact (kill_KILL_ignores_the_mask two_tids 1 true (two_threads main_tcb) 3
           child_tcb child_thread 31 _ 0 H1 H2 H3).
Defined.

(** X6: [kill] does not test the result of its [malloc].  With no memory
    left, [kill (tid, SIG_USR)] on an unmasked target stores through the
    null pointer when no [SIG_USR] is pending for the target; when one is
    pending no memory is asked for, the record gets the new sender and
    the call returns 0. *)
Theorem kill_without_memory vt fuel k tid_ target t cur :
  vt tid_ = Some target →
  threads k !! target = Some t →
  threads k !! running k = Some cur →
  Z.land (sigmask t) 8 = 0 →
  match overwrite_sender SIG_USR (tid cur) (pending_signals t) with
  | Some l =>
      kill vt fuel false k tid_ SIG_USR
      = Ret (set_thread k target (set_pending t l), 0)
      ∧ length l = length (pending_signals t)
      ∧ ¬ Forall (λ s, signum s ≠ SIG_USR) (pending_signals t)
  | None =>
      kill vt fuel false k tid_ SIG_USR = Abort BadAccess
      ∧ Forall (λ s, signum s ≠ SIG_USR) (pending_signals t)
  end.
Proof.
  intros Hv Ht Hc Hm. unfold kill. rewrite Hv. simpl.
  unfold thread_current. rewrite (deref_Some _ _ _ Ht), (deref_Some _ _ _ Hc).
  simpl. rewrite Hm. simpl. unfold enqueue.
  destruct (overwrite_sender SIG_USR (tid cur) (pending_signals t)) as [l|] eqn:E.
  - split; [done|]. split; [by eapply overwrite_sender_length|].
    intros Hall. apply (overwrite_sender_None SIG_USR (tid cur)) in Hall.
    congruence.
  - split; [done|]. by apply (overwrite_sender_None SIG_USR (tid cur)).
Qed.

Lemma kill_without_memory_witness :
  two_tids 3 = Some child_tcb
  ∧ threads (two_threads main_tcb) !! child_tcb = Some child_thread
  ∧ threads (two_threads main_tcb) !! running (two_threads main_tcb)
    = Some main_thread
  ∧ Z.land (sigmask child_thread) 8 = 0
  ∧ match overwrite_sender SIG_USR (tid main_thread)
            (pending_signals child_thread) with
    | Some l =>
        kill two_tids 1 false (two_threads main_tcb) 3 SIG_USR
        = Ret (set_thread (two_threads main_tcb) child_tcb
                 (set_pending child_thread l), 0)
        ∧ length l = length (pending_signals child_thread)
        ∧ ¬ Forall (λ s, signum s ≠ SIG_USR) (pending_signals child_thread)
    | None =>
        kill two_tids 1 false (two_threads main_tcb) 3 SIG_USR = Abort BadAccess
        ∧ Forall (λ s, signum s ≠ SIG_USR) (pending_signals child_thread)
    end.
Proof.
  assert (H1 : two_tids 3 = Some child_tcb) by reflexivity.
  assert (H2 : threads (two_threads main_tcb) !! child_tcb = Some child_thread)
    by reflexivity.
  assert (H3 : threads (two_threads main_tcb) !! running (two_threads main_tcb)
               = Some main_thread) by reflexivity.
  assert (H4 : Z.land (sigmask child_thread) 8 = 0) by reflexivity.
  split; [exact H1|]. split; [exact H2|]. split; [exact H3|]. split; [exact H4|].
  exact (kill_without_memory two_tids 1 (two_threads main_tcb) 3 child_tcb
           child_thread main_thread H1 H2 H3 H4).
Defined.

Lemma land_wrap16_lor_bit m b :
  0 ≤ b < 16 → Z.land (wrap16 (Z.lor m (2 ^ b))) (2 ^ b) ≠ 0.
Proof.
  intros Hb E.
  assert (Z.testbit (Z.land (wrap16 (Z.lor m (2 ^ b))) (2 ^ b)) b = true) as Hbit.
  { rewrite Z.land_spec. unfold wrap16.
    rewrite Z.mod_pow2_bits_low by lia.
    rewrite Z.lor_spec, Z.pow2_bits_true by lia.
    by rewrite orb_true_r. }
  rewrite E in Hbit. by rewrite Z.bits_0 in Hbit.
Qed.

(** X7: once a thread has called [signal_ (sig, SIG_IGN)] for [sig] one
    of [SIG_UBLOCK] and [SIG_USR], a [kill] of that signal aimed at it,
    from any thread, returns -1 and changes nothing. *)
Theorem signal__SIG_IGN_rejects_kill vt fuel ok k t tid_ sig cur :
  sig = SIG_UBLOCK ∨ sig = SIG_USR →
  threads k !! running k = Some t →
  vt tid_ = Some (running k) →
  ∃ k1, signal_ k sig SIG_IGN = Ret (k1, 0)
        ∧ kill vt fuel ok (set_running k1 cur) tid_ sig
          = Ret (set_running k1 cur, -1).
Proof.
  intros Hsig Ht Hv. unfold signal_, thread_current.
  rewrite (deref_Some _ _ _ Ht). simpl.
  destruct Hsig as [-> | ->]; simpl.
  - eexists. split; [done|]. unfold kill. rewrite Hv. simpl.
    unfold deref, set_running, set_thread. simpl. rewrite lookup_insert_eq. simpl.
    pose proof (land_wrap16_lor_bit (sigmask t) 2 ltac:(lia)) as Hb.
    change (2 ^ 2) with 4 in Hb. apply Z.eqb_neq in Hb. by rewrite Hb.
  - eexists. split; [done|]. unfold kill. rewrite Hv. simpl.
    unfold deref, set_running, set_thread. simpl. rewrite lookup_insert_eq. simpl.
    pose proof (land_wrap16_lor_bit (sigmask t) 3 ltac:(lia)) as Hb.
    change (2 ^ 3) with 8 in Hb. apply Z.eqb_neq in Hb. by rewrite Hb.
Qed.

Lemma signal__SIG_IGN_rejects_kill_witness :
  (SIG_USR = SIG_UBLOCK ∨ SIG_USR = SIG_USR)
  ∧ threads (two_threads child_tcb) !! running (two_threads child_tcb)
    = Some child_thread
  ∧ two_tids 3 = Some (running (two_threads child_tcb))
  ∧ ∃ k1, signal_ (two_threads child_tcb) SIG_USR SIG_IGN = Ret (k1, 0)
          ∧ kill two_tids 1 true (set_running k1 main_tcb) 3 SIG_USR
            = Ret (set_running k1 main_tcb, -1).
Proof.
  assert (H1 : SIG_USR = SIG_UBLOCK ∨ SIG_USR = SIG_USR) by (right; reflexivity).
  assert (H2 : threads (two_threads child_tcb) !! running (two_threads child_tcb)
               = Some child_thread) by reflexivity.
  assert (H3 : two_tids 3 = Some (running (two_threads child_tcb)))
    by reflexivity.
  split; [exact H1|]. split; [exact H2|]. split; [exact H3|].
  exact (signal__SIG_IGN_rejects_kill two_tids 1 true (two_threads child_tcb)
           child_thread 3 SIG_USR main_tcb H1 H2 H3).
Defined.

(** ** Bits of the mask and of a signal set *)

Lemma testbit_high16 a n : 0 ≤ a < 2 ^ 16 → 16 ≤ n → Z.testbit a n = false.
Proof.
  intros Ha Hn. destruct (Z.eq_dec a 0) as [->|Hne]; [apply Z.bits_0|].
  apply Z.bits_above_log2; [lia|].
  assert (Z.log2 a < 16) by (apply Z.log2_lt_pow2; lia). lia.
Qed.

Lemma wrap16_land a b : 0 ≤ a < 2 ^ 16 → wrap16 (Z.land a b) = Z.land a b.
Proof.
  intros H. unfold wrap16. apply Z.bits_inj'. intros n Hn.
  destruct (Z.lt_ge_cases n 16).
  - by rewrite Z.mod_pow2_bits_low.
  - rewrite Z.mod_pow2_bits_high by lia.
    by rewrite Z.land_spec, (testbit_high16 a n) by done.
Qed.

Lemma wrap16_land_r a b : 0 ≤ b < 2 ^ 16 → wrap16 (Z.land a b) = Z.land a b.
Proof. intros H. rewrite Z.land_comm. by apply wrap16_land. Qed.

Lemma land_range_r a c : 0 ≤ c → 0 ≤ Z.land a c ≤ c.
Proof.
  intros Hc. split; [apply Z.land_nonneg; by right|].
  destruct (Z.eq_dec (Z.land a c) c) as [->|Hne]; [lia|].
  apply Z.lt_le_incl.
  assert (0 ≤ Z.land a c) by (apply Z.land_nonneg; by right).
  rewrite <- (Z.lor_ldiff_and c a) at 2. rewrite (Z.land_comm c a).
  rewrite <- Z.add_nocarry_lor.
  - assert (0 ≤ Z.ldiff c a) by (apply Z.ldiff_nonneg; by left).
    assert (Z.ldiff c a ≠ 0).
    { intros E. apply Hne. rewrite <- (Z.lor_ldiff_and c a) at 2.
      by rewrite E, Z.lor_0_l, Z.land_comm. }
    lia.
  - apply Z.bits_inj'. intros n Hn.
    rewrite Z.land_spec, Z.ldiff_spec, Z.land_spec, Z.bits_0.
    by destruct (Z.testbit a n), (Z.testbit c n).
Qed.

(** X8: [signal_ (sig, SIG_DFL)] for [sig] in 0..3 clears the bit of
    [sig] in the mask of the caller, keeps the other three of the bits
    0..3 and clears every bit from 4 up: the mask is below 16 afterwards,
    whatever [sigprocmask] had put there. *)
Theorem signal__SIG_DFL_drops_high_bits k t sig :
  threads k !! running k = Some t →
  0 ≤ sig ≤ 3 →
  ∃ k1 m', signal_ k sig SIG_DFL = Ret (k1, 0)
           ∧ sigmask_of k1 (running k1) = Some m'
           ∧ 0 ≤ m' < 16
           ∧ ∀ i, 0 ≤ i < 4 →
                  Z.testbit m' i = Z.testbit (sigmask t) i && negb (i =? sig).
Proof.
  intros Ht Hs. unfold signal_, thread_current.
  rewrite (deref_Some _ _ _ Ht). simpl.
  assert (Hc : ∀ c, 0 ≤ c < 16 →
            wrap16 (Z.land (sigmask t) c) = Z.land (sigmask t) c
            ∧ 0 ≤ Z.land (sigmask t) c < 16).
  { intros c Hc. pose proof (land_range_r (sigmask t) c ltac:(lia)).
    split; [apply wrap16_land_r|]; lia. }
  assert (sig = 0 ∨ sig = 1 ∨ sig = 2 ∨ sig = 3) as [->|[->|[->| ->]]] by lia;
    simpl;
    match goal with
    | |- context [Z.land _ ?c] => destruct (Hc c ltac:(lia)) as [W B]
    end;
    eexists _, _; (split; [reflexivity|]);
    unfold sigmask_of, set_thread, set_sigmask; simpl;
    rewrite lookup_insert_eq; simpl; rewrite W;
    (split; [reflexivity|]); (split; [exact B|]);
    intros i Hi; rewrite Z.land_spec;
    assert (i = 0 ∨ i = 1 ∨ i = 2 ∨ i = 3) as [->|[->|[->| ->]]] by lia;
    simpl; by rewrite ?andb_true_r, ?andb_false_r.
Qed.

Lemma signal__SIG_DFL_drops_high_bits_witness :
  threads (set_thread (two_threads child_tcb) child_tcb
             (set_sigmask child_thread 31))
  !! running (set_thread (two_threads child_tcb) child_tcb
                (set_sigmask child_thread 31))
  = Some (set_sigmask child_thread 31)
  ∧ 0 ≤ SIG_USR ≤ 3
  ∧ ∃ k1 m',
      signal_ (set_thread (two_threads child_tcb) child_tcb
                 (set_sigmask child_thread 31)) SIG_USR SIG_DFL = Ret (k1, 0)
      ∧ sigmask_of k1 (running k1) = Some m'
      ∧ 0 ≤ m' < 16
      ∧ ∀ i, 0 ≤ i < 4 →
             Z.testbit m' i
             = Z.testbit (sigmask (set_sigmask child_thread 31)) i
               && negb (i =? SIG_USR).
Proof.
  assert (H1 : threads (set_thread (two_threads child_tcb) child_tcb
                          (set_sigmask child_thread 31))
               !! running (set_thread (two_threads child_tcb) child_tcb
                             (set_sigmask child_thread 31))
               = Some (set_sigmask child_thread 31)) by reflexivity.
  assert (H2 : 0 ≤ SIG_USR ≤ 3) by (unfold SIG_USR; lia).
  split; [exact H1|]. split; [exact H2|].
  exact (signal__SIG_DFL_drops_high_bits _ _ SIG_USR H1 H2).
Defined.

Lemma load_set_Some k p v : p ≠ 0 → sigsets k !! p = Some v → load_set k p = Ret v.
Proof.
  intros Hp Hv. unfold load_set.
  replace (p =? 0) with false by (symmetry; by apply Z.eqb_neq). by rewrite Hv.
Qed.

Lemma store_set_Some k p o v :
  p ≠ 0 → sigsets k !! p = Some o →
  store_set k p v
  = Ret {| threads := threads k; running := running k;
           unblock_list := unblock_list k;
           sigsets := <[p := wrap16 v]> (sigsets k) |}.
Proof.
  intros Hp Hv. unfold store_set.
  replace (p =? 0) with false by (symmetry; by apply Z.eqb_neq). by rewrite Hv.
Qed.

(** X9: [sigdelset (set, sig)] with a valid [sig] returns 0, clears the
    bit of [sig] and keeps the other four of the bits 0..4; it also
    clears every bit from 5 up, so that the set is below 32 afterwards. *)
Theorem sigdelset_keeps_five_bits k set sig v :
  set ≠ 0 →
  sigsets k !! set = Some v →
  0 ≤ sig ≤ 4 →
  ∃ k' v', sigdelset k set sig = Ret (k', 0)
           ∧ sigsets k' !! set = Some v'
           ∧ 0 ≤ v' < 32
           ∧ ∀ i, 0 ≤ i →
                  Z.testbit v' i
                  = Z.testbit v i && (i <? 5) && negb (i =? sig).
Proof.
  intros Hset Hv Hs. unfold sigdelset.
  replace (sig <? 0) with false by (symmetry; apply Z.ltb_ge; lia).
  replace (sig >? 4) with false by (symmetry; rewrite Z.gtb_ltb; apply Z.ltb_ge; lia).
  simpl. rewrite (load_set_Some _ _ _ Hset Hv). simpl.
  assert (Hc : ∀ c, 0 ≤ c < 32 →
            wrap16 (Z.land v c) = Z.land v c ∧ 0 ≤ Z.land v c < 32).
  { intros c Hc. pose proof (land_range_r v c ltac:(lia)).
    split; [apply wrap16_land_r|]; lia. }
  assert (Hhi : ∀ c i, 0 ≤ c < 32 → 5 ≤ i → Z.testbit c i = false).
  { intros c i Hc0 Hi. destruct (Z.eq_dec c 0) as [->|]; [apply Z.bits_0|].
    apply Z.bits_above_log2; [lia|].
    assert (Z.log2 c < 5) by (apply Z.log2_lt_pow2; lia). lia. }
  assert (sig = 0 ∨ sig = 1 ∨ sig = 2 ∨ sig = 3 ∨ sig = 4)
    as [->|[->|[->|[->| ->]]]] by lia;
    simpl; rewrite (store_set_Some _ _ _ _ Hset Hv); simpl;
    match goal with
    | |- context [Z.land _ ?c] => destruct (Hc c ltac:(lia)) as [W B]
    end;
    eexists _, _; (split; [reflexivity|]); simpl;
    rewrite lookup_insert_eq, W;
    (split; [reflexivity|]); (split; [exact B|]);
    intros i Hi; rewrite Z.land_spec;
    (destruct (Z.lt_ge_cases i 5) as [Hlt|Hge];
     [ assert (i = 0 ∨ i = 1 ∨ i = 2 ∨ i = 3 ∨ i = 4)
         as [->|[->|[->|[->| ->]]]] by lia;
       simpl; by rewrite ?andb_true_r, ?andb_false_r
     | match goal with
       | |- context [Z.testbit v i && Z.testbit ?c i] =>
           rewrite (Hhi c i) by lia
       end;
       replace (i <? 5) with false by (symmetry; apply Z.ltb_ge; lia);
       by rewrite andb_false_r ]).
Qed.

Lemma sigdelset_keeps_five_bits_witness :
  0x1000 ≠ 0
  ∧ sigsets (two_threads child_tcb) !! 0x1000 = Some 8
  ∧ 0 ≤ SIG_CPU ≤ 4
  ∧ ∃ k' v', sigdelset (two_threads child_tcb) 0x1000 SIG_CPU = Ret (k', 0)
             ∧ sigsets k' !! 0x1000 = Some v'
             ∧ 0 ≤ v' < 32
             ∧ ∀ i, 0 ≤ i →
                    Z.testbit v' i
                    = Z.testbit 8 i && (i <? 5) && negb (i =? SIG_CPU).
Proof.
  assert (H1 : 0x1000 ≠ 0) by lia.
  assert (H2 : sigsets (two_threads child_tcb) !! 0x1000 = Some 8) by reflexivity.
  assert (H3 : 0 ≤ SIG_CPU ≤ 4) by (unfold SIG_CPU; lia).
  split; [exact H1|]. split; [exact H2|]. split; [exact H3|].
  exact (sigdelset_keeps_five_bits (two_threads child_tcb) 0x1000 SIG_CPU 8
           H1 H2 H3).
Defined.

(** X10: [sigaddset (set, sig)] with a valid [sig] returns 0 and sets the
    bit of [sig]; a [sigdelset (set, sig)] after it leaves the set that
    [sigdelset (set, sig)] alone would have left. *)
Theorem sigaddset_then_sigdelset k set sig v :
  set ≠ 0 →
  sigsets k !! set = Some v →
  0 ≤ v < 2 ^ 16 →
  0 ≤ sig ≤ 4 →
  ∃ k1 k2, sigaddset k set sig = Ret (k1, 0)
           ∧ sigsets k1 !! set = Some (Z.lor v (2 ^ sig))
           ∧ sigdelset k1 set sig = Ret (k2, 0)
           ∧ sigdelset k set sig = Ret (k2, 0).
Proof.
  intros Hset Hv Hr Hs. unfold sigaddset, sigdelset.
  replace (sig <? 0) with false by (symmetry; apply Z.ltb_ge; lia).
  replace (sig >? 4) with false by (symmetry; rewrite Z.gtb_ltb; apply Z.ltb_ge; lia).
  simpl. rewrite (load_set_Some _ _ _ Hset Hv). simpl.
  assert (Hw : ∀ b, 0 ≤ b < 2 ^ 16 → wrap16 (Z.lor v b) = Z.lor v b).
  { intros b Hb. apply wrap16_small. by apply lor_bound16. }
  assert (sig = 0 ∨ sig = 1 ∨ sig = 2 ∨ sig = 3 ∨ sig = 4)
    as [->|[->|[->|[->| ->]]]] by lia;
    simpl; rewrite !(store_set_Some _ _ _ _ Hset Hv); simpl;
    (eexists _, _; split; [reflexivity|]); simpl;
    rewrite lookup_insert_eq;
    (split; [f_equal; apply Hw; lia|]);
    unfold load_set, store_set; simpl;
    replace (set =? 0) with false by (symmetry; by apply Z.eqb_neq);
    rewrite lookup_insert_eq; simpl;
    rewrite insert_insert_eq;
    (split; [reflexivity|]);
    do 3 f_equal; f_equal; f_equal;
    rewrite Hw by lia; rewrite Z.land_lor_distr_l; simpl;
    by rewrite Z.lor_0_r.
Qed.

Lemma sigaddset_then_sigdelset_witness :
  0x1000 ≠ 0
  ∧ sigsets (two_threads child_tcb) !! 0x1000 = Some 8
  ∧ 0 ≤ 8 < 2 ^ 16
  ∧ 0 ≤ SIG_KILL ≤ 4
  ∧ ∃ k1 k2, sigaddset (two_threads child_tcb) 0x1000 SIG_KILL = Ret (k1, 0)
             ∧ sigsets k1 !! 0x1000 = Some (Z.lor 8 (2 ^ SIG_KILL))
             ∧ sigdelset k1 0x1000 SIG_KILL = Ret (k2, 0)
             ∧ sigdelset (two_threads child_tcb) 0x1000 SIG_KILL = Ret (k2, 0).
Proof.
  assert (H1 : 0x1000 ≠ 0) by lia.
  assert (H2 : sigsets (two_threads child_tcb) !! 0x1000 = Some 8) by reflexivity.
  assert (H3 : 0 ≤ 8 < 2 ^ 16) by lia.
  assert (H4 : 0 ≤ SIG_KILL ≤ 4) by (unfold SIG_KILL; lia).
  split; [exact H1|]. split; [exact H2|]. split; [exact H3|]. split; [exact H4|].
  exact (sigaddset_then_sigdelset (two_threads child_tcb) 0x1000 SIG_KILL 8
           H1 H2 H3 H4).
Defined.

(** X11: a thread that builds the set of [SIG_USR] alone with
    [sigemptyset] and [sigaddset] and blocks it with [sigprocmask
    (SIG_BLOCK, set, NULL)] is out of reach of [kill (tid, SIG_USR)]:
    from any thread the call returns -1 and changes nothing. *)
Theorem blocked_SIG_USR_is_rejected vt fuel ok k t set v tid_ cur :
  threads k !! running k = Some t →
  set ≠ 0 → sigsets k !! set = Some v →
  vt tid_ = Some (running k) →
  ∃ k1 k2 k3,
    sigemptyset k set = Ret (k1, 0)
    ∧ sigaddset k1 set SIG_USR = Ret (k2, 0)
    ∧ sigprocmask k2 SIG_BLOCK set 0 = Ret (k3, 0)
    ∧ kill vt fuel ok (set_running k3 cur) tid_ SIG_USR
      = Ret (set_running k3 cur, -1).
Proof.
  intros Ht Hset Hv Htid.
  unfold sigemptyset. rewrite (store_set_Some _ _ _ _ Hset Hv). simpl.
  eexists _, _, _. split; [reflexivity|].
  unfold sigaddset. simpl. unfold load_set, store_set. simpl.
  replace (set =? 0) with false by (symmetry; by apply Z.eqb_neq).
  rewrite lookup_insert_eq. simpl. split; [reflexivity|].
  unfold sigprocmask, thread_current, deref. simpl. rewrite Ht. simpl.
  unfold load_set. simpl.
  replace (set =? 0) with false by (symmetry; by apply Z.eqb_neq).
  rewrite lookup_insert_eq. simpl. split; [reflexivity|].
  unfold kill. rewrite Htid. simpl.
  unfold deref, set_running, set_thread. simpl. rewrite lookup_insert_eq. simpl.
  pose proof (land_wrap16_lor_bit (sigmask t) 3 ltac:(lia)) as Hb.
  change (2 ^ 3) with 8 in Hb. change (wrap16 (Z.lor (wrap16 0) 8)) with 8.
  apply Z.eqb_neq in Hb. by rewrite Hb.
Qed.

Lemma blocked_SIG_USR_is_rejected_witness :
  threads (two_threads child_tcb) !! running (two_threads child_tcb)
  = Some child_thread
  ∧ 0x1002 ≠ 0
  ∧ sigsets (two_threads child_tcb) !! 0x1002 = Some 0
  ∧ two_tids 3 = Some (running (two_threads child_tcb))
  ∧ ∃ k1 k2 k3,
      sigemptyset (two_threads child_tcb) 0x1002 = Ret (k1, 0)
      ∧ sigaddset k1 0x1002 SIG_USR = Ret (k2, 0)
      ∧ sigprocmask k2 SIG_BLOCK 0x1002 0 = Ret (k3, 0)
      ∧ kill two_tids 1 true (set_running k3 main_tcb) 3 SIG_USR
        = Ret (set_running k3 main_tcb, -1).
Proof.
  assert (H1 : threads (two_threads child_tcb) !! running (two_threads child_tcb)
               = Some child_thread) by reflexivity.
  assert (H2 : 0x1002 ≠ 0) by lia.
  assert (H3 : sigsets (two_threads child_tcb) !! 0x1002 = Some 0) by reflexivity.
  assert (H4 : two_tids 3 = Some (running (two_threads child_tcb)))
    by reflexivity.
  split; [exact H1|]. split; [exact H2|]. split; [exact H3|]. split; [exact H4|].
  exact (blocked_SIG_USR_is_rejected two_tids 1 true (two_threads child_tcb)
           child_thread 0x1002 0 3 main_tcb H1 H2 H3 H4).
Defined.

(** ** [sigprocmask]: the other modes, and saving the mask *)

(** X12: the mask that [sigprocmask (how, set, old)] stores in [*old] can
    be put back: whatever [how] is, a later [sigprocmask (SIG_SETMASK,
    old, NULL)] leaves the thread with the mask it had before the first
    call, also when [set] and [old] are the same object. *)
Theorem sigprocmask_save_then_restore k t how set old s o :
  threads k !! running k = Some t →
  0 ≤ sigmask t < 2 ^ 16 →
  set ≠ 0 → sigsets k !! set = Some s →
  old ≠ 0 → sigsets k !! old = Some o →
  ∃ k1 k2, sigprocmask k how set old = Ret (k1, 0)
           ∧ sigprocmask k1 SIG_SETMASK old 0 = Ret (k2, 0)
           ∧ sigmask_of k2 (running k2) = Some (sigmask t).
Proof.
  intros Ht Hm Hset Hs Hold Ho.
  unfold sigprocmask at 1. unfold thread_current.
  rewrite (deref_Some _ _ _ Ht). simpl.
  replace (old =? 0) with false by (symmetry; by apply Z.eqb_neq). simpl.
  rewrite (store_set_Some _ _ _ _ Hold Ho). simpl.
  rewrite (wrap16_small (sigmask t)) by done.
  set (k0 := {| threads := threads k; running := running k;
                unblock_list := unblock_list k;
                sigsets := <[old := sigmask t]> (sigsets k) |}).
  assert (∃ s', load_set k0 set = Ret s') as [s' Hl].
  { unfold load_set, k0. simpl.
    replace (set =? 0) with false by (symmetry; by apply Z.eqb_neq).
    destruct (decide (old = set)) as [->|Hne].
    - rewrite lookup_insert_eq. by eexists.
    - rewrite lookup_insert_ne by done. rewrite Hs. by eexists. }
  rewrite Hl. simpl.
  assert (Hfin : ∀ k1, running k1 = running k →
            is_Some (threads k1 !! running k) →
            sigsets k1 = sigsets k0 →
            ∃ k2, sigprocmask k1 SIG_SETMASK old 0 = Ret (k2, 0)
                  ∧ sigmask_of k2 (running k2) = Some (sigmask t)).
  { intros k1 Hr [t1 Ht1] Hss. unfold sigprocmask, thread_current, deref.
    rewrite Hr, Ht1. simpl. unfold load_set.
    replace (old =? 0) with false by (symmetry; by apply Z.eqb_neq).
    rewrite Hss. unfold k0. simpl. rewrite lookup_insert_eq. simpl.
    eexists. split; [reflexivity|].
    unfold sigmask_of, set_thread. simpl. rewrite Hr, lookup_insert_eq. simpl.
    by rewrite wrap16_small. }
  assert (Hupd : ∀ m, ∃ k2,
            sigprocmask (set_thread k0 (running k0) (set_sigmask t m))
              SIG_SETMASK old 0 = Ret (k2, 0)
            ∧ sigmask_of k2 (running k2) = Some (sigmask t)).
  { intros m. apply Hfin; [done| |done].
    unfold set_thread. simpl. rewrite lookup_insert_eq. by eexists. }
  destruct (how =? SIG_BLOCK).
  { destruct (Hupd (Z.lor (sigmask t) s')) as (k2 & H1 & H2). by eexists _, k2. }
  destruct (how =? SIG_UNBLOCK).
  { destruct (Hupd (Z.land (sigmask t) (Z.lnot s'))) as (k2 & H1 & H2).
    by eexists _, k2. }
  destruct (how =? SIG_SETMASK).
  { destruct (Hupd s') as (k2 & H1 & H2). by eexists _, k2. }
  destruct (Hfin k0) as (k2 & H1 & H2); [done|by exists t|done|].
  by eexists _, k2.
Qed.

Lemma sigprocmask_save_then_restore_witness :
  threads (two_threads child_tcb) !! running (two_threads child_tcb)
  = Some child_thread
  ∧ 0 ≤ sigmask child_thread < 2 ^ 16
  ∧ 0x1000 ≠ 0
  ∧ sigsets (two_threads child_tcb) !! 0x1000 = Some 8
  ∧ 0x1002 ≠ 0
  ∧ sigsets (two_threads child_tcb) !! 0x1002 = Some 0
  ∧ ∃ k1 k2,
      sigprocmask (two_threads child_tcb) SIG_BLOCK 0x1000 0x1002 = Ret (k1, 0)
      ∧ sigprocmask k1 SIG_SETMASK 0x1002 0 = Ret (k2, 0)
      ∧ sigmask_of k2 (running k2) = Some (sigmask child_thread).
Proof.
  assert (H1 : threads (two_threads child_tcb) !! running (two_threads child_tcb)
               = Some child_thread) by reflexivity.
  assert (H2 : 0 ≤ sigmask child_thread < 2 ^ 16) by (simpl; lia).
  assert (H3 : 0x1000 ≠ 0) by lia.
  assert (H4 : sigsets (two_threads child_tcb) !! 0x1000 = Some 8) by reflexivity.
  assert (H5 : 0x1002 ≠ 0) by lia.
  assert (H6 : sigsets (two_threads child_tcb) !! 0x1002 = Some 0) by reflexivity.
  split; [exact H1|]. split; [exact H2|]. split; [exact H3|]. split; [exact H4|].
  split; [exact H5|]. split; [exact H6|].
  exact (sigprocmask_save_then_restore (two_threads child_tcb) child_thread
           SIG_BLOCK 0x1000 0x1002 8 0 H1 H2 H3 H4 H5 H6).
Defined.

(** X13: [sigprocmask (how, set, old)] with [how] other than [SIG_BLOCK]
    returns 0 and stores the mask [m] of the caller in [*old] when [old]
    is not null.  With [s'] the value [*set] holds after that store ([m]
    itself when [old] and [set] are the same object), the new mask is
    [m & ~s'] for [SIG_UNBLOCK] and [s'] for [SIG_SETMASK]; for any other
    [how] the mask stays [m]. *)
Theorem sigprocmask_UNBLOCK_SETMASK k t how set old s :
  threads k !! running k = Some t →
  0 ≤ sigmask t < 2 ^ 16 →
  how ≠ SIG_BLOCK →
  set ≠ 0 → sigsets k !! set = Some s → 0 ≤ s < 2 ^ 16 →
  old = 0 ∨ is_Some (sigsets k !! old) →
  ∃ k', sigprocmask k how set old = Ret (k', 0)
        ∧ (old ≠ 0 → sigsets k' !! old = Some (sigmask t))
        ∧ sigmask_of k' (running k')
          = Some (let s' := if bool_decide (old = set) then sigmask t else s in
                  if how =? SIG_UNBLOCK then Z.land (sigmask t) (Z.lnot s')
                  else if how =? SIG_SETMASK then s'
                  else sigmask t).
Proof.
  intros Ht Hm Hhow Hset Hs Hsr Hold.
  unfold sigprocmask, thread_current. rewrite (deref_Some _ _ _ Ht). simpl.
  replace (how =? SIG_BLOCK) with false by (symmetry; by apply Z.eqb_neq).
  assert (Hst : ∃ k1, (if negb (old =? 0) then store_set k old (sigmask t) else Ret k)
                      = Ret k1
                      ∧ threads k1 = threads k ∧ running k1 = running k
                      ∧ (old ≠ 0 → sigsets k1 !! old = Some (sigmask t))
                      ∧ load_set k1 set
                        = Ret (if bool_decide (old = set) then sigmask t else s)).
  { destruct (old =? 0) eqn:Eo; simpl.
    - apply Z.eqb_eq in Eo. exists k. split; [done|]. split; [done|].
      split; [done|]. split; [done|].
      rewrite bool_decide_eq_false_2 by congruence. by apply load_set_Some.
    - apply Z.eqb_neq in Eo. destruct Hold as [?|[o Ho]]; [done|].
      rewrite (store_set_Some _ _ _ _ Eo Ho). rewrite wrap16_small by done.
      eexists. split; [done|]. simpl. split; [done|]. split; [done|].
      split; [intros _; by rewrite lookup_insert_eq|].
      unfold load_set. simpl.
      replace (set =? 0) with false by (symmetry; by apply Z.eqb_neq).
      destruct (decide (old = set)) as [->|Hne].
      + rewrite lookup_insert_eq. by rewrite bool_decide_eq_true_2.
      + rewrite lookup_insert_ne by done. rewrite Hs.
        by rewrite bool_decide_eq_false_2. }
  destruct Hst as (k1 & -> & Hth & Hrun & Hso & Hl). simpl.
  rewrite Hl. simpl.
  set (s' := if bool_decide (old = set) then sigmask t else s).
  assert (Hs' : 0 ≤ s' < 2 ^ 16) by (unfold s'; by case_bool_decide).
  destruct (how =? SIG_UNBLOCK).
  { eexists. split; [done|]. split; [done|].
    unfold sigmask_of, set_thread. simpl. rewrite lookup_insert_eq. simpl.
    by rewrite wrap16_land. }
  destruct (how =? SIG_SETMASK).
  { eexists. split; [done|]. split; [done|].
    unfold sigmask_of, set_thread. simpl. rewrite lookup_insert_eq. simpl.
    by rewrite wrap16_small. }
  eexists. split; [done|]. split; [done|].
  unfold sigmask_of. by rewrite Hrun, Hth, Ht.
Qed.

Lemma sigprocmask_UNBLOCK_SETMASK_witness :
  threads (two_threads child_tcb) !! running (two_threads child_tcb)
  = Some child_thread
  ∧ 0 ≤ sigmask child_thread < 2 ^ 16
  ∧ SIG_UNBLOCK ≠ SIG_BLOCK
  ∧ 0x1000 ≠ 0
  ∧ sigsets (two_threads child_tcb) !! 0x1000 = Some 8
  ∧ 0 ≤ 8 < 2 ^ 16
  ∧ (0x1000 = 0 ∨ is_Some (sigsets (two_threads child_tcb) !! 0x1000))
  ∧ ∃ k', sigprocmask (two_threads child_tcb) SIG_UNBLOCK 0x1000 0x1000
          = Ret (k', 0)
          ∧ (0x1000 ≠ 0 → sigsets k' !! 0x1000 = Some (sigmask child_thread))
          ∧ sigmask_of k' (running k')
            = Some (let s' := if bool_decide (0x1000 = 0x1000)
                              then sigmask child_thread else 8 in
                    if SIG_UNBLOCK =? SIG_UNBLOCK
                    then Z.land (sigmask child_thread) (Z.lnot s')
                    else if SIG_UNBLOCK =? SIG_SETMASK then s'
                    else sigmask child_thread).
Proof.
  assert (H1 : threads (two_threads child_tcb) !! running (two_threads child_tcb)
               = Some child_thread) by reflexivity.
  assert (H2 : 0 ≤ sigmask child_thread < 2 ^ 16) by (simpl; lia).
  assert (H3 : SIG_UNBLOCK ≠ SIG_BLOCK) by (unfold SIG_UNBLOCK, SIG_BLOCK; lia).
  assert (H4 : 0x1000 ≠ 0) by lia.
  assert (H5 : sigsets (two_threads child_tcb) !! 0x1000 = Some 8) by reflexivity.
  assert (H6 : 0 ≤ 8 < 2 ^ 16) by lia.
  assert (H7 : 0x1000 = 0 ∨ is_Some (sigsets (two_threads child_tcb) !! 0x1000))
    by (right; eexists; reflexivity).
  split; [exact H1|]. split; [exact H2|]. split; [exact H3|]. split; [exact H4|].
  split; [exact H5|]. split; [exact H6|]. split; [exact H7|].
  exact (sigprocmask_UNBLOCK_SETMASK (two_threads child_tcb) child_thread
           SIG_UNBLOCK 0x1000 0x1000 8 H1 H2 H3 H4 H5 H6 H7).
Defined.
